(** * Rush's Git helper (class [Git] of rush-lib): a shallow embedding

    Definitions:

    - [JsString]: the JavaScript string primitives the class relies on
      ([trim], [split], [startsWith], [indexOf], [substr], [toLowerCase],
      [toUpperCase]);
    - [NodeUrl]: the three fields of Node's legacy [url.parse] that
      [normalizeGitUrlForComparison] reads, and the [URIError] that it
      throws;
    - [UrlNormalizer]: [Git.normalizeGitUrlForComparison] itself;
    - [GitModel]: the methods of the class, in a state-and-exception monad
      over the instance fields and a trace of observable effects; the
      collaborators of the class are the fields of a record [Env];
    - [UrlForms], [GitSpec], [GitInvariants]: the vocabulary of the
      statements;
    - [InstallRun]: [parsePackageSpecifier] of [install-run.ts].

    Proofs:

    - [StringFacts], [NodeUrlFacts], [UrlNormalizerFacts], [GitFacts]:
      lemmas about the definitions;
    - [UrlNormalizerSpec], [GitProperties]: the properties of the normalizer
      and of the class;
    - [GitInvariantFacts], [GitStabilityFacts]: memoization (each probe runs
      once at most, and a cached answer never changes);
    - [GitOutputFacts]: what the members make of the output of Git;
    - [UrlPatternFacts]: what the SCP-like pattern refuses;
    - [InstallRunFacts]: the properties of [parsePackageSpecifier];
    - [GitEmailFacts]: the cached email outcome is what the query gave, and
      what [getGitEmail] makes of it.

    Strings are sequences of 8-bit code units ([string]); a JavaScript string
    whose UTF-16 code units are all below 256 is represented exactly.  The
    result of [toUpperCase], which leaves that range, is a list of UTF-16
    code units. *)

From Stdlib Require Import String Ascii List Bool Arith NArith Lia.
Import ListNotations.

Local Open Scope string_scope.
Local Open Scope list_scope.

(* ================================================================== *)
(** ** JavaScript string primitives *)
(* ================================================================== *)

Module JsString.

Definition charCode (c : ascii) : N := N_of_ascii c.

Definition isCode (n : N) (c : ascii) : bool := N.eqb (charCode c) n.

Definition inRange (lo hi : N) (c : ascii) : bool :=
  N.leb lo (charCode c) && N.leb (charCode c) hi.

(** ECMAScript WhiteSpace and LineTerminator code units below 256:
    TAB, LF, VT, FF, CR, SPACE, NBSP.  This is what [String.prototype.trim]
    strips and what [\s] matches. *)
Definition isWhiteSpace (c : ascii) : bool :=
  inRange 9 13 c || isCode 32 c || isCode 160 c.

(** ECMAScript LineTerminator code units below 256: LF and CR.  The regular
    expression atom [.] (without the [s] flag) matches everything else. *)
Definition isLineTerminator (c : ascii) : bool :=
  isCode 10 c || isCode 13 c.

Definition isEmpty (s : string) : bool :=
  match s with EmptyString => true | String _ _ => false end.

(** A string used as a condition: the empty string is falsy. *)
Definition truthy (s : string) : bool := negb (isEmpty s).

Fixpoint all (P : ascii -> bool) (s : string) : bool :=
  match s with
  | EmptyString => true
  | String c s' => P c && all P s'
  end.

Fixpoint trimStart (s : string) : string :=
  match s with
  | EmptyString => EmptyString
  | String c s' => if isWhiteSpace c then trimStart s' else s
  end.

Fixpoint trimEnd (s : string) : string :=
  match s with
  | EmptyString => EmptyString
  | String c s' =>
      match trimEnd s' with
      | EmptyString => if isWhiteSpace c then EmptyString else String c EmptyString
      | r => String c r
      end
  end.

(** [s.trim()] *)
Definition trim (s : string) : string := trimEnd (trimStart s).

(** [s.split('\n')]: always at least one piece. *)
Fixpoint splitLines (s : string) : list string :=
  match s with
  | EmptyString => [EmptyString]
  | String c s' =>
      if isCode 10 c then EmptyString :: splitLines s'
      else match splitLines s' with
           | [] => [String c EmptyString]
           | l :: ls => String c l :: ls
           end
  end.

(** [s.startsWith(p)] *)
Fixpoint startsWith (s p : string) {struct p} : bool :=
  match p with
  | EmptyString => true
  | String a p' =>
      match s with
      | EmptyString => false
      | String b s' => Ascii.eqb a b && startsWith s' p'
      end
  end.

(** [s.indexOf(c)] for a one-character needle; [None] stands for [-1]. *)
Fixpoint indexOfChar (c : ascii) (s : string) : option nat :=
  match s with
  | EmptyString => None
  | String d s' =>
      if Ascii.eqb d c then Some 0
      else match indexOfChar c s' with
           | Some i => Some (S i)
           | None => None
           end
  end.

Fixpoint drop (n : nat) (s : string) : string :=
  match n, s with
  | O, _ => s
  | S _, EmptyString => EmptyString
  | S n', String _ s' => drop n' s'
  end.

Fixpoint take (n : nat) (s : string) : string :=
  match n, s with
  | O, _ => EmptyString
  | S _, EmptyString => EmptyString
  | S n', String c s' => String c (take n' s')
  end.

(** [s.slice(a, b)] and [s.substr(a)] / [s.substr(a, len)] for
    non-negative indices. *)
Definition slice (a b : nat) (s : string) : string := take (b - a) (drop a s).
Definition substrFrom (a : nat) (s : string) : string := drop a s.
Definition substr (a len : nat) (s : string) : string := take len (drop a s).

(** [toLowerCase] of one code unit below 256: the letters [A] to [Z], and
    the Latin-1 capitals from 192 to 222 but the multiplication sign 215. *)
Definition toLowerChar (c : ascii) : ascii :=
  if inRange 65 90 c || (inRange 192 222 c && negb (isCode 215 c))
  then ascii_of_N (charCode c + 32) else c.

(** [toUpperCase] of one code unit below 256, as UTF-16 code units: the
    letters [a] to [z]; the Latin-1 small letters from 224 to 254 but the
    division sign 247; the sharp s 223, which becomes [SS]; and the micro
    sign 181 and the y with diaeresis 255, whose capitals are the code units
    924 and 376, above 255. *)
Definition toUpperCodeUnits (c : ascii) : list N :=
  if inRange 97 122 c then [charCode c - 32]%N
  else if isCode 181 c then [924]%N
  else if isCode 223 c then [83; 83]%N
  else if inRange 224 254 c && negb (isCode 247 c) then [charCode c - 32]%N
  else if isCode 255 c then [376]%N
  else [charCode c].

Fixpoint mapChars (f : ascii -> ascii) (s : string) : string :=
  match s with
  | EmptyString => EmptyString
  | String c s' => String (f c) (mapChars f s')
  end.

(** [s.toLowerCase()]: a string of code units below 256 stays one. *)
Definition toLowerCase : string -> string := mapChars toLowerChar.

(** [s.toUpperCase()], as the list of the UTF-16 code units of the result,
    which may be longer than [s] and may leave the code units below 256. *)
Fixpoint toUpperCase (s : string) : list N :=
  match s with
  | EmptyString => []
  | String c s' => toUpperCodeUnits c ++ toUpperCase s'
  end.

(** [a === b] on strings given by their code units. *)
Fixpoint codeUnitsEqb (a b : list N) : bool :=
  match a, b with
  | [], [] => true
  | x :: a', y :: b' => N.eqb x y && codeUnitsEqb a' b'
  | _, _ => false
  end.

(** Longest prefix whose characters satisfy [P], and what follows it: the
    greedy match of a character class [[...]*]. *)
Fixpoint span (P : ascii -> bool) (s : string) : string * string :=
  match s with
  | EmptyString => (EmptyString, EmptyString)
  | String c s' =>
      if P c then let (a, b) := span P s' in (String c a, b)
      else (EmptyString, s)
  end.

(** A template literal renders [null] and [undefined] by their names. *)
Definition templateNull (o : option string) : string :=
  match o with Some s => s | None => "null" end.

(** [arr.join(sep)] *)
Fixpoint join (sep : string) (l : list string) : string :=
  match l with
  | [] => EmptyString
  | [x] => x
  | x :: rest => x ++ sep ++ join sep rest
  end%string.

End JsString.

(* ================================================================== *)
(** ** Node's legacy [url.parse] *)
(* ================================================================== *)

(** [url.parse] belongs to the Node runtime, not to the repository.  The
    model transcribes the algorithm of Node's [lib/url.js] (the legacy
    parser, as shipped with Node 12 to 16) for the three fields that
    [normalizeGitUrlForComparison] reads: [protocol], [host] and [pathname],
    and for the [URIError] that the parser throws when the text before the
    [@] of the host is not a well-formed percent-encoding.  The values of
    [auth], [query], [hash] and [href], which the caller ignores, are not
    computed.  The IDNA conversion of the host name ([toASCII], which the
    runtime takes from ICU) is a parameter of the parser; its results are
    strings of the model, so a conversion that answers with a code unit
    above 255 (the replacement character that ICU puts after a label that
    is not valid Punycode) is not one of its values. *)
Module NodeUrl.
Import JsString.

Record UrlWithStringQuery := mkUrl {
  protocol : option string;
  host : option string;
  pathname : option string
}.

Definition anyCode (codes : list N) (c : ascii) : bool :=
  existsb (fun n => isCode n c) codes.

(** White space trimmed by the parser: SPACE, TAB, CR, LF, FF, NBSP. *)
Definition isUrlWs : ascii -> bool := anyCode [32; 9; 13; 10; 12; 160]%N.

Fixpoint urlTrimStart (s : string) : string :=
  match s with
  | EmptyString => EmptyString
  | String c s' => if isUrlWs c then urlTrimStart s' else s
  end.

Fixpoint urlTrimEnd (s : string) : string :=
  match s with
  | EmptyString => EmptyString
  | String c s' =>
      match urlTrimEnd s' with
      | EmptyString => if isUrlWs c then EmptyString else String c EmptyString
      | r => String c r
      end
  end.

(** Backslashes before the first [?] or [#] become forward slashes. *)
Fixpoint convertBackslashes (s : string) : string :=
  match s with
  | EmptyString => EmptyString
  | String c s' =>
      if isCode 35 c || isCode 63 c then s
      else String (if isCode 92 c then "/"%char else c) (convertBackslashes s')
  end.

Fixpoint contains (c : ascii) (s : string) : bool :=
  match s with
  | EmptyString => false
  | String d s' => Ascii.eqb d c || contains c s'
  end.

(** [simplePathPattern]: one or two leading slashes not followed by a
    third one, then any characters but [?] and white space (the first
    group, which is the result), then optionally [?] and any characters
    but white space, up to the end of the string. *)
Definition simplePathPattern (rest : string) : option string :=
  let body (lead r : string) :=
    let (b, q) := span (fun c => negb (isCode 63 c || isWhiteSpace c)) r in
    match q with
    | EmptyString => Some (lead ++ b)%string
    | String c q' =>
        if isCode 63 c && all (fun d => negb (isWhiteSpace d)) q'
        then Some (lead ++ b)%string else None
    end in
  match rest with
  | String "/" (String "/" (String "/" _)) => None
  | String "/" (String "/" r) => body "//" r
  | String "/" r => body "/" r
  | _ => None
  end.

Definition isAlnum (c : ascii) : bool :=
  inRange 97 122 c || inRange 65 90 c || inRange 48 57 c.

(** [protocolPattern = /^[a-z0-9.+-]+:/i]: the matched text, colon
    included, and what follows it. *)
Definition protocolPattern (rest : string) : option (string * string) :=
  let (p, r) := span (fun c => isAlnum c || anyCode [46; 43; 45]%N c) rest in
  match p, r with
  | String _ _, String ":" r' => Some ((p ++ ":")%string, r')
  | _, _ => None
  end.

(** [hostPattern = /^\/\/[^@\/]+@[^@\/]+/] *)
Definition hostPattern (rest : string) : bool :=
  match rest with
  | String "/" (String "/" r) =>
      let cls c := negb (isCode 64 c || isCode 47 c) in
      let (a, r') := span cls r in
      match a, r' with
      | String _ _, String "@" (String c _) => cls c
      | _, _ => false
      end
  | _ => false
  end.

Definition inSet (l : list string) (s : string) : bool :=
  existsb (String.eqb s) l.

Definition slashedProtocol : list string :=
  ["http"; "http:"; "https"; "https:"; "ftp"; "ftp:"; "gopher"; "gopher:";
   "file"; "file:"; "ws"; "ws:"; "wss"; "wss:"].

Definition hostlessProtocol : list string := ["javascript"; "javascript:"].
Definition unsafeProtocol : list string := ["javascript"; "javascript:"].

Definition hasOpt (l : list string) (o : option string) : bool :=
  match o with Some s => inSet l s | None => false end.

(** Characters that are never allowed in a host name. *)
Definition isNeverHostChar : ascii -> bool :=
  anyCode [9; 10; 13; 32; 34; 37; 39; 59; 60; 62; 92; 94; 96; 123; 124; 125]%N.

(** [#], [/] and [?] end the host. *)
Definition isHostEndChar : ascii -> bool := anyCode [35; 47; 63]%N.

Definition orElse (o : option nat) (i : nat) : option nat :=
  match o with Some _ => o | None => Some i end.

(** The loop that looks for the end of the host: returns [atSign] and
    [nonHost] ([None] stands for [-1]). *)
Fixpoint hostScan (s : string) (i : nat) (atSign nonHost : option nat)
  : option nat * option nat :=
  match s with
  | EmptyString => (atSign, nonHost)
  | String c s' =>
      if isNeverHostChar c then hostScan s' (S i) atSign (orElse nonHost i)
      else if isHostEndChar c then (atSign, orElse nonHost i)
      else if isCode 64 c then hostScan s' (S i) (Some i) None
      else hostScan s' (S i) atSign nonHost
  end.

Definition isDigit : ascii -> bool := inRange 48 57.

(** [portPattern = /:[0-9]*$/]: index of the leftmost match. *)
Fixpoint portPattern (s : string) : option nat :=
  match s with
  | EmptyString => None
  | String c s' =>
      if isCode 58 c && all isDigit s' then Some 0
      else option_map S (portPattern s')
  end.

Definition isValidHostnameChar (c : ascii) : bool :=
  isAlnum c || anyCode [46; 45; 43; 95]%N c || N.ltb 127 (charCode c).

Definition hostnameMaxLen : nat := 255.

Fixpoint lastChar (s : string) : option ascii :=
  match s with
  | EmptyString => None
  | String c EmptyString => Some c
  | String _ s' => lastChar s'
  end.

Definition isIpv6Hostname (hostname : string) : bool :=
  match hostname, lastChar hostname with
  | String "[" _, Some "]"%char => true
  | _, _ => false
  end.

Definition hexDigit (n : N) : ascii :=
  if N.ltb n 10 then ascii_of_N (48 + n) else ascii_of_N (55 + n).

Definition escapeChar (c : ascii) : string :=
  if anyCode [9; 10; 13; 32; 34; 39; 60; 62; 92; 94; 96; 123; 124; 125]%N c
  then String "%" (String (hexDigit (N.div (charCode c) 16))
                     (String (hexDigit (N.modulo (charCode c) 16)) EmptyString))
  else String c EmptyString.

Fixpoint autoEscapeStr (s : string) : string :=
  match s with
  | EmptyString => EmptyString
  | String c s' => (escapeChar c ++ autoEscapeStr s')%string
  end.

(** *** [decodeURIComponent]

    Only whether the call returns or throws [URIError] is modelled: the
    parser assigns the result to [auth], which the caller does not read.
    A character other than [%] is copied.  A [%] must be followed by two
    hexadecimal digits, which give an octet; the octets of consecutive
    escapes must form the UTF-8 encoding of a code point (no continuation
    octet on its own, no overlong form, no surrogate, nothing above
    U+10FFFF), each continuation octet written as an escape of its own. *)

Definition isHexDigit (c : ascii) : bool :=
  inRange 48 57 c || inRange 65 70 c || inRange 97 102 c.

Definition hexValue (c : ascii) : N :=
  if inRange 48 57 c then charCode c - 48
  else if inRange 65 70 c then charCode c - 55
  else charCode c - 87.

(** Where the decoder stands between two characters. *)
Inductive DecodeState :=
| Outside
  (** not in an escape, and no continuation octet is owed *)
| Owed (count : nat) (lo hi : N)
  (** [count] continuation octets are owed, the next one between [lo] and
      [hi]; an escape must start here *)
| Percent (owed : option (nat * N * N))
  (** after a [%] *)
| HighDigit (owed : option (nat * N * N)) (high : N)
  (** after a [%] and its first digit *)
| Malformed.

(** The first octet of a code point: what must follow it. *)
Definition leadOctet (octet : N) : DecodeState :=
  if N.ltb octet 128 then Outside
  else if N.leb 194 octet && N.leb octet 223 then Owed 1 128 191
  else if N.eqb octet 224 then Owed 2 160 191
  else if N.eqb octet 237 then Owed 2 128 159
  else if N.leb 225 octet && N.leb octet 239 then Owed 2 128 191
  else if N.eqb octet 240 then Owed 3 144 191
  else if N.eqb octet 244 then Owed 3 128 143
  else if N.leb 241 octet && N.leb octet 243 then Owed 3 128 191
  else Malformed.

Definition decodeStep (st : DecodeState) (c : ascii) : DecodeState :=
  match st with
  | Outside => if isCode 37 c then Percent None else Outside
  | Owed count lo hi =>
      if isCode 37 c then Percent (Some (count, lo, hi)) else Malformed
  | Percent owed =>
      if isHexDigit c then HighDigit owed (hexValue c) else Malformed
  | HighDigit owed high =>
      if isHexDigit c then
        let octet := (16 * high + hexValue c)%N in
        match owed with
        | None => leadOctet octet
        | Some (count, lo, hi) =>
            if N.leb lo octet && N.leb octet hi
            then match count with
                 | S (S k) => Owed (S k) 128 191
                 | _ => Outside
                 end
            else Malformed
        end
      else Malformed
  | Malformed => Malformed
  end.

Fixpoint decodeRun (st : DecodeState) (s : string) : DecodeState :=
  match s with
  | EmptyString => st
  | String c s' => decodeRun (decodeStep st c) s'
  end.

(** Does [decodeURIComponent(s)] return?  It throws [URIError] otherwise. *)
Definition decodeURIComponentReturns (s : string) : bool :=
  match decodeRun Outside s with
  | Outside => true
  | _ => false
  end.

(** The block "there's a hostname", first half: the text after the protocol
    and the slashes is cut into the raw host (credentials removed) and the
    text that remains.  When there is an [@] before the end of the host, the
    text before it is decoded for [auth]; [None] stands for the [URIError]
    of that call. *)
Definition splitHost (rest : string) : option (string * string) :=
  let '(atSign, nonHost) := hostScan rest 0 None None in
  let cut (start : nat) :=
    match nonHost with
    | None => (drop start rest, EmptyString)
    | Some n => (slice start n rest, drop n rest)
    end in
  match atSign with
  | Some a =>
      if decodeURIComponentReturns (take a rest) then Some (cut (S a)) else None
  | None => Some (cut 0)
  end.

(** Second half: the port is pulled out, the host name is validated, put in
    lower case and, unless it is an IPv6 literal, given to [toASCII].  The
    result is the [host] field, the [hostname] field and the text that
    remains. *)
Definition finishHost (toASCII : string -> string) (host0 rest1 : string)
  : string * string * string :=
  let '(hostname0, port) :=
    match portPattern host0 with
    | Some i => (take i host0, drop (S i) host0)
    | None => (host0, EmptyString)
    end in
  let ipv6 := isIpv6Hostname hostname0 in
  let '(hostname1, rest2) :=
    if ipv6 then (hostname0, rest1)
    else let (ok, bad) := span isValidHostnameChar hostname0 in
         match bad with
         | EmptyString => (hostname0, rest1)
         | String _ _ => (ok, ("/" ++ bad ++ rest1)%string)
         end in
  let hostname2 :=
    if Nat.ltb hostnameMaxLen (String.length hostname1) then EmptyString
    else toLowerCase hostname1 in
  let hostname3 := if ipv6 then hostname2 else toASCII hostname2 in
  let p := if truthy port then (":" ++ port)%string else EmptyString in
  let rest3 :=
    if ipv6 then match rest2 with
                 | String "/" _ => rest2
                 | _ => ("/" ++ rest2)%string
                 end
    else rest2 in
  ((hostname3 ++ p)%string, hostname3, rest3).

Definition parseHostPart (toASCII : string -> string) (rest : string)
  : option (string * string * string) :=
  match splitHost rest with
  | Some (host0, rest1) => Some (finishHost toASCII host0 rest1)
  | None => None
  end.

(** The parser from the point where the protocol has been cut off: [proto]
    is the protocol as it was written, if there is one, and [rest] the text
    after it. *)
Definition parseAfterProtocol (toASCII : string -> string)
           (proto : option string) (rest : string)
  : option UrlWithStringQuery :=
  let lowerProto := option_map toLowerCase proto in
  let slashes :=
    match proto with
    | Some _ => startsWith rest "//"
    | None => hostPattern rest && startsWith rest "//"
    end in
  let rest :=
    if slashes && negb (hasOpt hostlessProtocol lowerProto)
    then drop 2 rest else rest in
  let hasHost :=
    negb (hasOpt hostlessProtocol lowerProto) &&
    (slashes ||
     match proto with
     | Some p => negb (inSet slashedProtocol p)
     | None => false
     end) in
  let hostPart :=
    if hasHost
    then match parseHostPart toASCII rest with
         | Some (h, hn, r) => Some (Some h, Some hn, r)
         | None => None
         end
    else Some (None, None, rest) in
  match hostPart with
  | None => None
  | Some (host, hostname, rest) =>
      let rest :=
        if hasOpt unsafeProtocol lowerProto then rest else autoEscapeStr rest in
      let (p, _) :=
        span (fun c => negb (isCode 35 c || isCode 63 c)) rest in
      let pathname := if truthy p then Some p else None in
      let pathname :=
        match pathname, hostname with
        | None, Some hn =>
            if hasOpt slashedProtocol lowerProto && truthy hn
            then Some "/" else None
        | _, _ => pathname
        end in
      Some (mkUrl lowerProto host pathname)
  end.

(** [url.parse(url)] with its default arguments; [None] stands for the
    [URIError] that [decodeURIComponent] throws. *)
Definition parse (toASCII : string -> string) (url : string)
  : option UrlWithStringQuery :=
  let rest := convertBackslashes (urlTrimEnd (urlTrimStart url)) in
  let hasHash := contains "#" url in
  match (if hasHash then None else simplePathPattern rest) with
  | Some p => Some (mkUrl None None (Some p))
  | None =>
      match protocolPattern rest with
      | Some (p, r) => parseAfterProtocol toASCII (Some p) r
      | None => parseAfterProtocol toASCII None rest
      end
  end.

End NodeUrl.

(* ================================================================== *)
(** ** [Git.normalizeGitUrlForComparison] *)
(* ================================================================== *)

Module UrlNormalizer.
Import JsString.

(** [scpLikeSyntaxRegExp = /^(?:[^@:\/]+\@)?([^:\/]{2,})\:((?!\/\/).+)$/]
    after the optional user group: the greedy host class stops at the first
    [:] or [/]; the match needs at least two host characters, a colon, and
    a non-empty path without line terminators that does not start with
    [//].  The result is the pair of groups 1 and 2. *)
Definition scpHostAndPath (s : string) : option (string * string) :=
  let (h, r) := span (fun c => negb (isCode 58 c || isCode 47 c)) s in
  match r with
  | String ":" p =>
      if Nat.leb 2 (String.length h)
         && negb (startsWith p "//")
         && truthy p
         && all (fun c => negb (isLineTerminator c)) p
      then Some (h, p) else None
  | _ => None
  end.

(** [scpLikeSyntaxRegExp.exec(s)]: the user group [[^@:\/]+\@] is tried
    first; when the rest of the pattern fails after it, the expression is
    retried without it. *)
Definition scpLikeSyntaxRegExp (s : string) : option (string * string) :=
  let (u, r) :=
    span (fun c => negb (isCode 64 c || isCode 58 c || isCode 47 c)) s in
  match u, r with
  | String _ _, String "@" r' =>
      match scpHostAndPath r' with
      | Some m => Some m
      | None => scpHostAndPath s
      end
  | _, _ => scpHostAndPath s
  end.

(** Does [/.git\/?$/] match from the first character of [s] to its end?
    The unescaped dot is any character but a line terminator; it must be
    followed by [git] or by [git/], and then by the end of the string. *)
Definition matchesDotGitAtStart (s : string) : bool :=
  match s with
  | EmptyString => false
  | String c r =>
      negb (isLineTerminator c) && (String.eqb r "git" || String.eqb r "git/")
  end.

(** [result.replace(/.git\/?$/, '')]: the leftmost match is replaced by the
    empty string; a match always reaches the end of the string. *)
Fixpoint stripGitSuffix (s : string) : string :=
  match s with
  | EmptyString => EmptyString
  | String c s' =>
      if matchesDotGitAtStart s then EmptyString
      else String c (stripGitSuffix s')
  end.

Definition recognizedSchemes : list string :=
  ["http:"; "https:"; "ssh:"; "ftp:"; "ftps:"; "git:";
   "git+http:"; "git+https:"; "git+ssh:"; "git+ftp:"; "git+ftps:"].

(** The steps before the final one: trim, SCP rewrite, scheme rebuild.
    [None] stands for the [URIError] that [url.parse] throws. *)
Definition rebuildGitUrl (toASCII : string -> string) (gitUrl : string)
  : option string :=
  let result := trim gitUrl in
  let result :=
    match scpLikeSyntaxRegExp gitUrl with
    | Some (host, path) =>
        if startsWith path "/"
        then ("https://" ++ host ++ path)%string
        else ("https://" ++ host ++ "/" ++ path)%string
    | None => result
    end in
  match NodeUrl.parse toASCII result with
  | None => None
  | Some parsedUrl =>
      Some (if NodeUrl.hasOpt recognizedSchemes (NodeUrl.protocol parsedUrl)
            then ("https://" ++ templateNull (NodeUrl.host parsedUrl)
                    ++ templateNull (NodeUrl.pathname parsedUrl))%string
            else result)
  end.

(** [Git.normalizeGitUrlForComparison(gitUrl)]; [None] stands for the
    [URIError] that [url.parse] throws. *)
Definition normalizeGitUrlForComparison (toASCII : string -> string)
           (gitUrl : string) : option string :=
  option_map stripGitSuffix (rebuildGitUrl toASCII gitUrl).

(** [normalizeGitUrlForComparison(gitUrl).toUpperCase()] *)
Definition normalizedUpperCase (toASCII : string -> string) (gitUrl : string)
  : option (list N) :=
  option_map toUpperCase (normalizeGitUrlForComparison toASCII gitUrl).

(** The loop that fills the set of the configured URLs, normalized and in
    upper case; it stops at the first URL whose normalization throws. *)
Fixpoint normalizedUpperCaseAll (toASCII : string -> string)
         (gitUrls : list string) : option (list (list N)) :=
  match gitUrls with
  | [] => Some []
  | gitUrl :: rest =>
      match normalizedUpperCase toASCII gitUrl with
      | None => None
      | Some normalized =>
          match normalizedUpperCaseAll toASCII rest with
          | None => None
          | Some others => Some (normalized :: others)
          end
      end
  end.

End UrlNormalizer.

(* ================================================================== *)
(** ** The [Git] class *)
(* ================================================================== *)

Module GitModel.
Import JsString.

(** What a [throw] carries: a plain [Error] with its message,
    node-core-library's [AlreadyReportedError], or the [URIError] of
    [url.parse]. *)
Inductive Exn :=
| Error (message : string)
| AlreadyReportedError
| URIError.

(** [interface IResultOrError<TResult> { error?: Error; result?: TResult }] *)
Record IResultOrError := mkResultOrError {
  error : option Exn;
  result : option string
}.

(** The fields of [gitInfo.GitRepoInfo] that the class reads. *)
Record GitRepoInfo := mkGitRepoInfo {
  sha : option string;
  root : string;
  commonGitDir : option string;
  worktreeGitDir : option string
}.

(** The members of [RushConfiguration] that the class reads. *)
Record RushConfiguration := mkRushConfiguration {
  repositoryUrls : list string;
  repositoryDefaultBranch : string;
  repositoryDefaultFullyQualifiedRemoteBranch : string;
  gitTagSeparator : option string;
  rushJsonFolder : string
}.

Definition DEFAULT_GIT_TAG_SEPARATOR : string := "_".

(** The instance fields of [class Git]. *)
Record Git := mkGit {
  _rushConfiguration : RushConfiguration;
  _checkedGitPath : bool;
  _gitPath : option string;
  _checkedGitInfo : bool;
  _gitInfo : option GitRepoInfo;
  _gitEmailResult : option IResultOrError;
  _gitHooksPath : option IResultOrError
}.

(** [new Git(rushConfiguration)] *)
Definition newGit (rushConfiguration : RushConfiguration) : Git :=
  mkGit rushConfiguration false None false None None None.

(** Observable effects, in the order in which they happen. *)
Inductive Event :=
| ConsoleLog (text : string)
| WriteWarningLine (text : string)
| TryResolveGit
| ReadGitInfo
| ExecuteCommand (gitPath : string) (args : list string) (cwd : string)
| EnsureGitMinimumVersion (gitPath : string)
| SpawnSync (gitPath : string) (args : list string).

(** The collaborators of the class.  Each one that touches the outside
    world receives the trace of what happened before it, so its answer may
    change from one call to the next. *)
Record Env := mkEnv {
  (** [EnvironmentConfiguration.gitBinaryPath] *)
  gitBinaryPath : option string;
  (** [Executable.tryResolve('git')] *)
  tryResolve : list Event -> option string;
  (** [gitInfo()] *)
  readGitInfo : list Event -> Exn + GitRepoInfo;
  (** [Utilities.executeCommandAndCaptureOutput(gitPath, args, cwd)] *)
  executeCommandAndCaptureOutput :
    list Event -> string -> list string -> string -> Exn + string;
  (** [ensureGitMinimumVersion(gitPath)]: [Some e] when it throws [e] *)
  ensureGitMinimumVersion : list Event -> string -> option Exn;
  (** [Executable.spawnSync(gitPath, args, { stdio: 'ignore' }).status] *)
  spawnSync : list Event -> string -> list string -> Exn + option nat;
  (** [Path.isUnderOrEqual(childPath, parentFolderPath)] *)
  isUnderOrEqual : string -> string -> bool;
  (** [GitEmailPolicy.getEmailExampleLines(rushConfiguration)] *)
  getEmailExampleLines : RushConfiguration -> list string;
  (** [path.join(a, b)], [path.resolve(a, b)], [os.EOL], [colors.yellow] *)
  pathJoin : string -> string -> string;
  pathResolve : string -> string -> string;
  EOL : string;
  yellow : string -> string;
  (** the message that the constructor of [AlreadyReportedError] sets *)
  alreadyReportedMessage : string;
  (** the IDNA conversion that [url.parse] applies to a host name *)
  toASCII : string -> string
}.

(** *** The state-and-exception monad *)

Record State := mkState {
  self : Git;
  trace : list Event
}.

Inductive Outcome (A : Type) :=
| Returned (a : A)
| Threw (e : Exn).
Arguments Returned {A} a.
Arguments Threw {A} e.

Definition M (A : Type) : Type := State -> Outcome A * State.

Definition ret {A} (a : A) : M A := fun st => (Returned a, st).

Definition bind {A B} (m : M A) (k : A -> M B) : M B :=
  fun st =>
    match m st with
    | (Returned a, st') => k a st'
    | (Threw e, st') => (Threw e, st')
    end.

Definition throw {A} (e : Exn) : M A := fun st => (Threw e, st).

(** [try { m } catch (e) { handler(e) }] *)
Definition tryCatch {A} (m : M A) (handler : Exn -> M A) : M A :=
  fun st =>
    match m st with
    | (Returned a, st') => (Returned a, st')
    | (Threw e, st') => handler e st'
    end.

Definition getSelf : M Git := fun st => (Returned (self st), st).

(** An assignment to fields of [this]. *)
Definition modifySelf (f : Git -> Git) : M unit :=
  fun st => (Returned tt, mkState (f (self st)) (trace st)).

Definition emit (ev : Event) : M unit :=
  fun st => (Returned tt, mkState (self st) (trace st ++ [ev])).

(** A call to a collaborator: the event is recorded, then the collaborator
    answers from the trace before the call. *)
Definition call {A} (ev : Event) (answer : list Event -> Exn + A) : M A :=
  fun st =>
    let st' := mkState (self st) (trace st ++ [ev]) in
    match answer (trace st) with
    | inl e => (Threw e, st')
    | inr a => (Returned a, st')
    end.

Declare Scope git_scope.
Delimit Scope git_scope with git.
Notation "x <- m ;; k" := (bind m (fun x => k))
  (at level 61, m at next level, right associativity) : git_scope.
Notation "m ;; k" := (bind m (fun _ => k))
  (at level 61, right associativity) : git_scope.
Local Open Scope git_scope.

Definition consoleLog (text : string) : M unit := emit (ConsoleLog text).

(** [this._gitPath = p; this._checkedGitPath = true] *)
Definition set_gitPath (p : option string) (g : Git) : Git :=
  mkGit (_rushConfiguration g) true p (_checkedGitInfo g) (_gitInfo g)
        (_gitEmailResult g) (_gitHooksPath g).

(** [this._gitInfo = i] *)
Definition set_gitInfo (i : GitRepoInfo) (g : Git) : Git :=
  mkGit (_rushConfiguration g) (_checkedGitPath g) (_gitPath g)
        (_checkedGitInfo g) (Some i) (_gitEmailResult g) (_gitHooksPath g).

(** [this._checkedGitInfo = true] *)
Definition set_checkedGitInfo (g : Git) : Git :=
  mkGit (_rushConfiguration g) (_checkedGitPath g) (_gitPath g) true
        (_gitInfo g) (_gitEmailResult g) (_gitHooksPath g).

Definition set_gitEmailResult (r : IResultOrError) (g : Git) : Git :=
  mkGit (_rushConfiguration g) (_checkedGitPath g) (_gitPath g)
        (_checkedGitInfo g) (_gitInfo g) (Some r) (_gitHooksPath g).

Definition set_gitHooksPath (r : IResultOrError) (g : Git) : Git :=
  mkGit (_rushConfiguration g) (_checkedGitPath g) (_gitPath g)
        (_checkedGitInfo g) (_gitInfo g) (_gitEmailResult g) (Some r).

(** An optional string used as a condition. *)
Definition truthyOpt (o : option string) : bool :=
  match o with Some s => truthy s | None => false end.

Section Methods.
Variable env : Env.

(** [e.message] *)
Definition message (e : Exn) : string :=
  match e with
  | Error m => m
  | AlreadyReportedError => alreadyReportedMessage env
  | URIError => "URI malformed"
  end.

(** [get gitPath()] *)
Definition gitPath : M (option string) :=
  g <- getSelf ;;
  (if _checkedGitPath g then ret tt
   else
     p <- (if truthyOpt (gitBinaryPath env) then ret (gitBinaryPath env)
           else call TryResolveGit (fun tr => inr (tryResolve env tr))) ;;
     modifySelf (set_gitPath p)) ;;
  g' <- getSelf ;;
  ret (_gitPath g').

Definition getGitPathOrThrow : M string :=
  p <- gitPath ;;
  match p with
  | Some path => if truthy path then ret path
                 else throw (Error "Git is not present")
  | None => throw (Error "Git is not present")
  end.

Definition isGitPresent : M bool :=
  p <- gitPath ;; ret (truthyOpt p).

(** [isPathUnderGitWorkingTree(repoInfo)] with the argument given. *)
Definition isPathUnderGitWorkingTreeOf (repoInfo : GitRepoInfo) : M bool :=
  present <- isGitPresent ;;
  if present then ret (truthyOpt (sha repoInfo)) else ret false.

Definition getGitInfo : M (option GitRepoInfo) :=
  g <- getSelf ;;
  (if _checkedGitInfo g then ret tt
   else
     repoInfo <- tryCatch
                   (i <- call ReadGitInfo (readGitInfo env) ;; ret (Some i))
                   (fun _ => ret None) ;;
     match repoInfo with
     | Some i =>
         under <- isPathUnderGitWorkingTreeOf i ;;
         if under then modifySelf (set_gitInfo i) else ret tt
     | None => ret tt
     end ;;
     modifySelf set_checkedGitInfo) ;;
  g' <- getSelf ;;
  ret (_gitInfo g').

Definition isPathUnderGitWorkingTree (repoInfo : option GitRepoInfo) : M bool :=
  present <- isGitPresent ;;
  if present then
    repoInfo <- match repoInfo with
                | Some i => ret (Some i)
                | None => getGitInfo
                end ;;
    ret (match repoInfo with
         | Some i => truthyOpt (sha i)
         | None => false
         end)
  else ret false.

Definition _executeGitCommandAndCaptureOutput
           (gitPath : string) (args : list string) (repositoryRoot : option string)
  : M string :=
  g <- getSelf ;;
  let cwd := match repositoryRoot with
             | Some r => r
             | None => rushJsonFolder (_rushConfiguration g)
             end in
  tryCatch
    (call (ExecuteCommand gitPath args cwd)
          (fun tr => executeCommandAndCaptureOutput env tr gitPath args cwd))
    (fun e =>
       call (EnsureGitMinimumVersion gitPath)
            (fun tr => match ensureGitMinimumVersion env tr gitPath with
                       | Some e' => inl e'
                       | None => inr tt
                       end) ;;
       throw e).

(** The [try] computes the value that is assigned to the cache slot: a
    result when the command returns, the error when it throws. *)
Definition _tryGetGitEmail : M IResultOrError :=
  g <- getSelf ;;
  match _gitEmailResult g with
  | Some r => ret r
  | None =>
      gitPath <- getGitPathOrThrow ;;
      r <- tryCatch
             (out <- _executeGitCommandAndCaptureOutput gitPath
                       ["config"; "user.email"] None ;;
              ret (mkResultOrError None (Some (trim out))))
             (fun e => ret (mkResultOrError (Some e) None)) ;;
      modifySelf (set_gitEmailResult r) ;;
      ret r
  end.

Definition _tryGetGitHooksPath : M IResultOrError :=
  g <- getSelf ;;
  match _gitHooksPath g with
  | Some r => ret r
  | None =>
      gitPath <- getGitPathOrThrow ;;
      r <- tryCatch
             (out <- _executeGitCommandAndCaptureOutput gitPath
                       ["rev-parse"; "--git-path"; "hooks"] None ;;
              ret (mkResultOrError None (Some (trim out))))
             (fun e => ret (mkResultOrError (Some e) None)) ;;
      modifySelf (set_gitHooksPath r) ;;
      ret r
  end.

Definition tryGetGitEmail : M (option string) :=
  emailResult <- _tryGetGitEmail ;;
  match result emailResult with
  | Some r => if truthy r then ret (Some r) else ret None
  | None => ret None
  end.

Definition gitEmailErrorText (e : Exn) : string :=
  join (EOL env)
       [("Error: " ++ message e)%string;
        "Unable to determine your Git configuration using this command:";
        EmptyString;
        "    git config user.email";
        EmptyString].

Definition gitEmailMissingText (cfg : RushConfiguration) : string :=
  join (EOL env)
       (["This operation requires that a Git email be specified.";
         EmptyString;
         "If you didn't configure your email yet, try something like this:";
         EmptyString]
          ++ getEmailExampleLines env cfg ++ [EmptyString]).

Definition getGitEmail : M string :=
  emailResult <- _tryGetGitEmail ;;
  match error emailResult with
  | Some e =>
      consoleLog (gitEmailErrorText e) ;;
      throw AlreadyReportedError
  | None =>
      match result emailResult with
      | Some r =>
          if truthy r then ret r
          else
            g <- getSelf ;;
            consoleLog (gitEmailMissingText (_rushConfiguration g)) ;;
            throw AlreadyReportedError
      | None =>
          g <- getSelf ;;
          consoleLog (gitEmailMissingText (_rushConfiguration g)) ;;
          throw AlreadyReportedError
      end
  end.

Definition getHooksFolder : M (option string) :=
  repoInfo <- getGitInfo ;;
  match repoInfo with
  | Some i =>
      match worktreeGitDir i with
      | Some d => if truthy d then ret (Some (pathJoin env d "hooks")) else ret None
      | None => ret None
      end
  | None => ret None
  end.

Definition gitHooksErrorText (e : Exn) : string :=
  join (EOL env)
       [("Error: " ++ message e)%string;
        "Unable to determine your Git configuration using this command:";
        EmptyString;
        "    git rev-parse --git-path hooks";
        EmptyString;
        "Assuming hooks can still be installed in the default location"].

Definition isHooksPathDefaultIn (i : GitRepoInfo) (commonGitDir : string) : M bool :=
  let defaultHooksPath := pathResolve env commonGitDir "hooks" in
  hooksResult <- _tryGetGitHooksPath ;;
  match error hooksResult with
  | Some e => consoleLog (gitHooksErrorText e) ;; ret true
  | None =>
      match result hooksResult with
      | Some r =>
          if truthy r
          then ret (String.eqb (pathResolve env (root i) r) defaultHooksPath)
          else ret true
      | None => ret true
      end
  end.

Definition isHooksPathDefault : M bool :=
  repoInfo <- getGitInfo ;;
  match repoInfo with
  | None => ret true
  | Some i =>
      match commonGitDir i with
      | Some d => if truthy d then isHooksPathDefaultIn i d else ret true
      | None => ret true
      end
  end.

Definition getConfigHooksPath : M string :=
  gitPath <- getGitPathOrThrow ;;
  tryCatch
    (out <- _executeGitCommandAndCaptureOutput gitPath ["config"; "core.hooksPath"] None ;;
     ret (trim out))
    (fun _ => ret EmptyString).


Definition _tryFetchRemoteBranch (remoteBranchName : string) : M bool :=
  match indexOfChar "/" remoteBranchName with
  | None =>
      throw (Error ("Unexpected git remote branch format: " ++ remoteBranchName
                      ++ ". "
                      ++ "Expected branch to be in the <remote>/<branch name> format."))
  | Some firstSlashIndex =>
      let remoteName := substr 0 firstSlashIndex remoteBranchName in
      let branchName := substrFrom (firstSlashIndex + 1) remoteBranchName in
      gitPath <- getGitPathOrThrow ;;
      status <- call (SpawnSync gitPath ["fetch"; remoteName; branchName])
                     (fun tr => spawnSync env tr gitPath
                                  ["fetch"; remoteName; branchName]) ;;
      ret (match status with Some 0 => true | _ => false end)
  end.

Definition fetchWarningText (remoteBranchName : string) : string :=
  "Error fetching git remote branch " ++ remoteBranchName
    ++ ". Detected changed files may be incorrect.".

Definition _fetchRemoteBranch (remoteBranchName : string) : M unit :=
  consoleLog ("Checking for updates to " ++ remoteBranchName ++ "...") ;;
  fetchResult <- _tryFetchRemoteBranch remoteBranchName ;;
  if negb fetchResult
  then emit (WriteWarningLine (fetchWarningText remoteBranchName))
  else ret tt.

Definition getMergeBase (targetBranch : string) (shouldFetch : bool) : M string :=
  (if shouldFetch then _fetchRemoteBranch targetBranch else ret tt) ;;
  gitPath <- getGitPathOrThrow ;;
  output <- _executeGitCommandAndCaptureOutput gitPath
              ["--no-optional-locks"; "merge-base"; "HEAD"; targetBranch; "--"]
              None ;;
  ret (trim output).

Definition getBlobContent (blobSpec repositoryRoot : string) : M string :=
  gitPath <- getGitPathOrThrow ;;
  _executeGitCommandAndCaptureOutput gitPath
    ["cat-file"; "blob"; blobSpec; "--"] (Some repositoryRoot).

(** The callback given to [map] in [getChangedFiles]; [None] stands for
    [undefined]. *)
Definition changedFileOfLine (pathPrefix : option string) (line : string)
  : option string :=
  if truthy line then
    let trimmedLine := trim line in
    match pathPrefix with
    | Some p =>
        if negb (truthy p) || isUnderOrEqual env trimmedLine p
        then Some trimmedLine else None
    | None => Some trimmedLine
    end
  else None.

(** The callback given to [filter] in [getChangedFiles]. *)
Definition isKeptLine (line : option string) : bool :=
  match line with Some l => truthy l | None => false end.

(** [output.split('\n').map(...).filter(...) as string[]] *)
Definition changedFilesOfOutput (pathPrefix : option string) (output : string)
  : list string :=
  map (fun line => match line with Some l => l | None => EmptyString end)
      (filter isKeptLine
              (map (changedFileOfLine pathPrefix) (splitLines output))).

Definition getChangedFiles (targetBranch : string) (skipFetch : bool)
           (pathPrefix : option string) : M (list string) :=
  (if negb skipFetch then _fetchRemoteBranch targetBranch else ret tt) ;;
  gitPath <- getGitPathOrThrow ;;
  output <- _executeGitCommandAndCaptureOutput gitPath
              ["diff"; (targetBranch ++ "...")%string; "--name-only"; "--no-renames";
               "--diff-filter=A"]
              None ;;
  ret (changedFilesOfOutput pathPrefix output).

(** [arr.filter(callback)] with a callback that runs commands. *)
Fixpoint filterM {A} (f : A -> M bool) (l : list A) : M (list A) :=
  match l with
  | [] => ret []
  | x :: rest =>
      keep <- f x ;;
      kept <- filterM f rest ;;
      ret (if keep then x :: kept else kept)
  end.

(** A call of [normalizeGitUrlForComparison], whose [URIError] is thrown on. *)
Definition orThrowURIError {A} (normalized : option A) : M A :=
  match normalized with
  | Some a => ret a
  | None => throw URIError
  end.

(** The callback given to [filter] in [getRemoteDefaultBranch]. *)
Definition isMatchingRemote (gitPath : string)
           (normalizedRepositoryUrls : list (list N)) (remoteName : string)
  : M bool :=
  if truthy remoteName then
    rawUrl <- _executeGitCommandAndCaptureOutput gitPath
                ["remote"; "get-url"; remoteName] None ;;
    let remoteUrl := trim rawUrl in
    if negb (truthy remoteUrl) then ret false
    else
      normalizedRemoteUrl <-
        orThrowURIError
          (UrlNormalizer.normalizedUpperCase (toASCII env) remoteUrl) ;;
      ret (existsb (codeUnitsEqb normalizedRemoteUrl) normalizedRepositoryUrls)
  else ret false.

Definition noRemoteUrlText : string :=
  "A git remote URL has not been specified in rush.json. Setting the baseline remote URL is recommended.".

Definition getRemoteDefaultBranch : M string :=
  g <- getSelf ;;
  let cfg := _rushConfiguration g in
  let repositoryUrls := repositoryUrls cfg in
  if Nat.ltb 0 (List.length repositoryUrls) then
    gitPath <- getGitPathOrThrow ;;
    rawOutput <- _executeGitCommandAndCaptureOutput gitPath ["remote"] None ;;
    let output := trim rawOutput in
    normalizedRepositoryUrls <-
      orThrowURIError
        (UrlNormalizer.normalizedUpperCaseAll (toASCII env) repositoryUrls) ;;
    matchingRemotes <-
      filterM (isMatchingRemote gitPath normalizedRepositoryUrls)
              (splitLines output) ;;
    match matchingRemotes with
    | first :: others =>
        (match others with
         | _ :: _ =>
             consoleLog ("More than one git remote matches the repository URL. Using the first remote ("
                           ++ first ++ ").")
         | [] => ret tt
         end) ;;
        ret (first ++ "/" ++ repositoryDefaultBranch cfg)%string
    | [] =>
        let errorMessage :=
          (if Nat.ltb 1 (List.length repositoryUrls)
           then "Unable to find a git remote matching one of the repository URLs ("
                  ++ join ", " repositoryUrls ++ "). "
           else "Unable to find a git remote matching the repository URL ("
                  ++ hd "undefined" repositoryUrls ++ "). ")%string in
        consoleLog (yellow env (errorMessage ++ "Detected changes are likely to be incorrect.")) ;;
        ret (repositoryDefaultFullyQualifiedRemoteBranch cfg)
    end
  else
    consoleLog (yellow env noRemoteUrlText) ;;
    ret (repositoryDefaultFullyQualifiedRemoteBranch cfg).

Definition _getUntrackedChanges : M (list string) :=
  gitPath <- getGitPathOrThrow ;;
  output <- _executeGitCommandAndCaptureOutput gitPath
              ["ls-files"; "--exclude-standard"; "--others"] None ;;
  ret (splitLines (trim output)).

Definition _getDiffOnHEAD : M (list string) :=
  gitPath <- getGitPathOrThrow ;;
  output <- _executeGitCommandAndCaptureOutput gitPath
              ["diff"; "HEAD"; "--name-only"] None ;;
  ret (splitLines (trim output)).

Definition getUncommittedChanges : M (list string) :=
  untracked <- _getUntrackedChanges ;;
  diff <- _getDiffOnHEAD ;;
  let changes := [] ++ untracked ++ diff in
  ret (filter (fun change => Nat.ltb 0 (String.length (trim change))) changes).

Definition hasUncommittedChanges : M bool :=
  changes <- getUncommittedChanges ;;
  ret (Nat.ltb 0 (List.length changes)).

Definition getTagSeparator : M string :=
  g <- getSelf ;;
  ret (match gitTagSeparator (_rushConfiguration g) with
       | Some sep => if truthy sep then sep else DEFAULT_GIT_TAG_SEPARATOR
       | None => DEFAULT_GIT_TAG_SEPARATOR
       end).

End Methods.

End GitModel.

(* ================================================================== *)
(** ** URL spellings used to state the properties of the normalizer *)
(* ================================================================== *)

Module UrlForms.
Import JsString.

(** [s.endsWith(suffix)] *)
Fixpoint endsWith (s suffix : string) : bool :=
  String.eqb s suffix ||
  match s with
  | EmptyString => false
  | String _ s' => endsWith s' suffix
  end.

(** Letters, digits, [.], [-] and [_]: the characters of a host name or of a
    user name. *)
Definition isHostNameChar (c : ascii) : bool :=
  NodeUrl.isAlnum c || NodeUrl.anyCode [46; 45; 95]%N c.

(** Printable 7-bit characters that a path keeps as they are: everything
    from [!] to [~] but the query and fragment delimiters [?] and [#], the
    backslash, and the characters that the URL parser percent-escapes. *)
Definition isPathChar (c : ascii) : bool :=
  inRange 33 126 c &&
  negb (NodeUrl.anyCode [34; 35; 39; 60; 62; 63; 92; 94; 96; 123; 124; 125]%N c).

Definition wellFormedUser (user : option string) : bool :=
  match user with
  | Some u => truthy u && all isHostNameChar u
  | None => true
  end.

Definition wellFormedHostName (host : string) : bool :=
  truthy host && all isHostNameChar host.

Definition wellFormedPath (path : string) : bool :=
  truthy path && all isPathChar path && negb (startsWith path "//").

Definition userPrefix (user : option string) : string :=
  match user with
  | Some u => (u ++ "@")%string
  | None => EmptyString
  end.

(** The path as it appears after the host in a URL. *)
Definition leadingSlash (path : string) : string :=
  if startsWith path "/" then path else ("/" ++ path)%string.

(** [[user@]host:path] *)
Definition scpSpelling (user : option string) (host path : string) : string :=
  (userPrefix user ++ host ++ ":" ++ path)%string.

(** [ssh://[user@]host/path] *)
Definition sshSpelling (user : option string) (host path : string) : string :=
  ("ssh://" ++ userPrefix user ++ host ++ leadingSlash path)%string.

(** [https://host/path] *)
Definition httpsSpelling (host path : string) : string :=
  ("https://" ++ host ++ leadingSlash path)%string.

Inductive Spelling :=
| ScpLike
| Ssh
| Https.

(** One host and one path, written in one of the three spellings. *)
Definition spell (sp : Spelling) (user : option string) (host path : string)
  : string :=
  match sp with
  | ScpLike => scpSpelling user host path
  | Ssh => sshSpelling user host path
  | Https => httpsSpelling host path
  end.

(** What may follow the name of a repository. *)
Inductive GitSuffix :=
| NoSuffix
| DotGit
| DotGitSlash.

Definition suffixText (sfx : GitSuffix) : string :=
  match sfx with
  | NoSuffix => EmptyString
  | DotGit => ".git"
  | DotGitSlash => ".git/"
  end.

(** The [host] field that the URL parser reports for a host name without a
    port: lower case, and empty when the name is longer than 255
    characters. *)
Definition hostField (host : string) : string :=
  if Nat.ltb NodeUrl.hostnameMaxLen (String.length host) then EmptyString
  else toLowerCase host.

(** Characters that the parser's clean-up pass leaves alone. *)
Definition isCleanChar (c : ascii) : bool :=
  negb (NodeUrl.isUrlWs c) &&
  negb (isCode 35 c || isCode 63 c) && negb (isCode 92 c) &&
  negb (isWhiteSpace c).

(** A character other than [@]. *)
Definition isNotAt (c : ascii) : bool := negb (isCode 64 c).

(** The IDNA conversion where it changes nothing.  It stands for [toASCII]
    in the examples, whose host names it leaves as they are: 7-bit letters
    in lower case, digits, [.] and [-], and no label that starts with
    [xn--]. *)
Definition plainToASCII (hostname : string) : string := hostname.

(** The names of the recognized schemes, without their colon. *)
Definition recognizedSchemeNames : list string :=
  ["http"; "https"; "ssh"; "ftp"; "ftps"; "git";
   "git+http"; "git+https"; "git+ssh"; "git+ftp"; "git+ftps"].

(** A recognized scheme as it may be written, in any letter case. *)
Definition isRecognizedScheme (scheme : string) : bool :=
  NodeUrl.inSet recognizedSchemeNames (toLowerCase scheme).

(** A port: digits, one at least. *)
Definition wellFormedPort (port : option string) : bool :=
  match port with
  | Some digits => truthy digits && all NodeUrl.isDigit digits
  | None => true
  end.

Definition portSuffix (port : option string) : string :=
  match port with
  | Some digits => (":" ++ digits)%string
  | None => EmptyString
  end.

(** [scheme://[user@]host[:port]/path] *)
Definition schemeSpelling (scheme : string) (user : option string)
           (host : string) (port : option string) (path : string) : string :=
  (scheme ++ "://" ++ userPrefix user ++ host ++ portSuffix port
     ++ leadingSlash path)%string.

(** The URL forms of the documentation of Git: the SCP-like one, and the
    one with a scheme, with or without a port. *)
Inductive UrlForm :=
| ScpLikeForm
| SchemeForm (scheme : string) (port : option string).

(** The scheme is a recognized one and the port is made of digits; in the
    SCP-like form the host has the two characters that the pattern asks
    for. *)
Definition wellFormedForm (form : UrlForm) (host : string) : bool :=
  match form with
  | ScpLikeForm => Nat.leb 2 (String.length host)
  | SchemeForm scheme port => isRecognizedScheme scheme && wellFormedPort port
  end.

Definition portOf (form : UrlForm) : option string :=
  match form with
  | ScpLikeForm => None
  | SchemeForm _ port => port
  end.

(** A user, a host and a path written in a form. *)
Definition writeUrl (form : UrlForm) (user : option string) (host path : string)
  : string :=
  match form with
  | ScpLikeForm => scpSpelling user host path
  | SchemeForm scheme port => schemeSpelling scheme user host port path
  end.

(** The canonical form of a host, a port and a path. *)
Definition canonicalUrlWithPort (host : string) (port : option string)
           (path : string) : string :=
  ("https://" ++ hostField host ++ portSuffix port ++ leadingSlash path)%string.

(** [normalizeGitUrlForComparison(normalizeGitUrlForComparison(gitUrl))] *)
Definition normalizeTwice (toASCII : string -> string) (gitUrl : string)
  : option string :=
  match UrlNormalizer.normalizeGitUrlForComparison toASCII gitUrl with
  | Some once => UrlNormalizer.normalizeGitUrlForComparison toASCII once
  | None => None
  end.

End UrlForms.

(* ================================================================== *)
(** ** Vocabulary used to state the properties of the [Git] class *)
(* ================================================================== *)

Module GitSpec.
Import JsString GitModel.

(** An [IResultOrError] holds exactly one of a result and an error. *)
Definition holdsExactlyOne (r : IResultOrError) : bool :=
  match error r, result r with
  | Some _, None => true
  | None, Some _ => true
  | _, _ => false
  end.

(** A cache slot is either not resolved yet or holds exactly one of the
    two. *)
Definition slotWellFormed (slot : option IResultOrError) : Prop :=
  match slot with
  | None => True
  | Some r => holdsExactlyOne r = true
  end.

Definition cachesWellFormed (g : Git) : Prop :=
  slotWellFormed (_gitEmailResult g) /\ slotWellFormed (_gitHooksPath g).

(** A call of a public member of the class. *)
Inductive Call :=
| CallGitPath
| CallGetGitPathOrThrow
| CallIsGitPresent
| CallIsPathUnderGitWorkingTree (repoInfo : option GitRepoInfo)
| CallTryGetGitEmail
| CallGetGitEmail
| CallGetHooksFolder
| CallIsHooksPathDefault
| CallGetConfigHooksPath
| CallGetGitInfo
| CallGetMergeBase (targetBranch : string) (shouldFetch : bool)
| CallGetBlobContent (blobSpec repositoryRoot : string)
| CallGetChangedFiles (targetBranch : string) (skipFetch : bool)
                      (pathPrefix : option string)
| CallGetRemoteDefaultBranch
| CallHasUncommittedChanges
| CallGetUncommittedChanges
| CallGetTagSeparator.

(** The state after a call; what the call returned or threw is left to the
    caller. *)
Definition perform (env : Env) (c : Call) (st : State) : State :=
  match c with
  | CallGitPath => snd (gitPath env st)
  | CallGetGitPathOrThrow => snd (getGitPathOrThrow env st)
  | CallIsGitPresent => snd (isGitPresent env st)
  | CallIsPathUnderGitWorkingTree repoInfo =>
      snd (isPathUnderGitWorkingTree env repoInfo st)
  | CallTryGetGitEmail => snd (tryGetGitEmail env st)
  | CallGetGitEmail => snd (getGitEmail env st)
  | CallGetHooksFolder => snd (getHooksFolder env st)
  | CallIsHooksPathDefault => snd (isHooksPathDefault env st)
  | CallGetConfigHooksPath => snd (getConfigHooksPath env st)
  | CallGetGitInfo => snd (getGitInfo env st)
  | CallGetMergeBase targetBranch shouldFetch =>
      snd (getMergeBase env targetBranch shouldFetch st)
  | CallGetBlobContent blobSpec repositoryRoot =>
      snd (getBlobContent env blobSpec repositoryRoot st)
  | CallGetChangedFiles targetBranch skipFetch pathPrefix =>
      snd (getChangedFiles env targetBranch skipFetch pathPrefix st)
  | CallGetRemoteDefaultBranch => snd (getRemoteDefaultBranch env st)
  | CallHasUncommittedChanges => snd (hasUncommittedChanges env st)
  | CallGetUncommittedChanges => snd (getUncommittedChanges env st)
  | CallGetTagSeparator => snd (getTagSeparator st)
  end.

Definition performAll (env : Env) (calls : list Call) (st : State) : State :=
  fold_left (fun st c => perform env c st) calls st.

(** A new instance, before anything has happened. *)
Definition initialState (rushConfiguration : RushConfiguration) : State :=
  mkState (newGit rushConfiguration) [].

Definition emailArgs : list string := ["config"; "user.email"].

(** Is the event a run of [git config user.email]? *)
Definition isEmailProbe (ev : Event) : bool :=
  match ev with
  | ExecuteCommand _ args _ =>
      if list_eq_dec string_dec args emailArgs then true else false
  | _ => false
  end.

Definition countEmailProbes (tr : list Event) : nat :=
  List.length (filter isEmailProbe tr).

(** Does the event start a Git process? *)
Definition isGitInvocation (ev : Event) : bool :=
  match ev with
  | ExecuteCommand _ _ _ | EnsureGitMinimumVersion _ | SpawnSync _ _ => true
  | _ => false
  end.

(** The working directory of the commands of an instance. *)
Definition cwdOf (st : State) : string :=
  rushJsonFolder (_rushConfiguration (self st)).

(** What [_executeGitCommandAndCaptureOutput] hands to its caller when the
    collaborator is asked after the trace [before]: the output of the
    command, or the error that is thrown, which is the error of the version
    check when that check throws one. *)
Definition commandOutcome (env : Env) (before : list Event) (gitPath : string)
           (args : list string) (cwd : string) : Exn + string :=
  match executeCommandAndCaptureOutput env before gitPath args cwd with
  | inr output => inr output
  | inl e =>
      inl (match ensureGitMinimumVersion env
                   (before ++ [ExecuteCommand gitPath args cwd]) gitPath with
           | Some e' => e'
           | None => e
           end)
  end.

(** The events of that call: the command, and the version check when the
    command fails. *)
Definition commandEvents (env : Env) (before : list Event) (gitPath : string)
           (args : list string) (cwd : string) : list Event :=
  match executeCommandAndCaptureOutput env before gitPath args cwd with
  | inr _ => [ExecuteCommand gitPath args cwd]
  | inl _ => [ExecuteCommand gitPath args cwd; EnsureGitMinimumVersion gitPath]
  end.

(** What [_tryGetGitEmail] stores for an outcome of the query. *)
Definition slotOfOutcome (answer : Exn + string) : IResultOrError :=
  match answer with
  | inr output => mkResultOrError None (Some (trim output))
  | inl e => mkResultOrError (Some e) None
  end.

(** At some point of the trace [git config user.email] ran, with the
    outcome [answer]. *)
Definition emailQueryAnswered (env : Env) (st : State) (answer : Exn + string)
  : Prop :=
  exists before gitPath after,
    trace st = before ++ ExecuteCommand gitPath emailArgs (cwdOf st) :: after
    /\ commandOutcome env before gitPath emailArgs (cwdOf st) = answer.

(** The cached email outcome, when there is one, is what the query gave when
    it ran: its trimmed output, or its error. *)
Definition emailCacheJustified (env : Env) (st : State) : Prop :=
  match _gitEmailResult (self st) with
  | None => True
  | Some r =>
      exists answer, emailQueryAnswered env st answer /\ r = slotOfOutcome answer
  end.

(** [m] keeps the email cache justified. *)
Definition justifies (env : Env) {A : Type} (m : M A) : Prop :=
  forall st, emailCacheJustified env st -> emailCacheJustified env (snd (m st)).

(** What [getGitEmail] makes of the content of the email slot. *)
Definition emailOutcome (r : IResultOrError) : Outcome string :=
  match error r with
  | Some _ => Threw AlreadyReportedError
  | None =>
      match result r with
      | Some address =>
          if truthy address then Returned address else Threw AlreadyReportedError
      | None => Threw AlreadyReportedError
      end
  end.

(** What [getGitEmail] prints for the content of the email slot. *)
Definition emailReport (env : Env) (cfg : RushConfiguration) (r : IResultOrError)
  : list Event :=
  match error r with
  | Some e => [ConsoleLog (gitEmailErrorText env e)]
  | None =>
      match result r with
      | Some address =>
          if truthy address then []
          else [ConsoleLog (gitEmailMissingText env cfg)]
      | None => [ConsoleLog (gitEmailMissingText env cfg)]
      end
  end.

(** The state once [getGitEmail] has printed what belongs to the slot. *)
Definition afterEmailReport (env : Env) (st : State) (r : IResultOrError)
  : State :=
  mkState (self st)
          (trace st ++ emailReport env (_rushConfiguration (self st)) r).

(** The state once the query has run from [st], with Git at [gitPath], and
    its outcome has been stored. *)
Definition afterEmailQuery (env : Env) (st : State) (gitPath : string) : State :=
  mkState (set_gitEmailResult
             (slotOfOutcome
                (commandOutcome env (trace st) gitPath emailArgs (cwdOf st)))
             (self st))
          (trace st ++ commandEvents env (trace st) gitPath emailArgs (cwdOf st)).

(** [l1] is [l2] with some elements left out, in the same order. *)
Inductive Subsequence {A : Type} : list A -> list A -> Prop :=
| SubsequenceNil : Subsequence [] []
| SubsequenceSkip (x : A) (l1 l2 : list A) :
    Subsequence l1 l2 -> Subsequence l1 (x :: l2)
| SubsequenceKeep (x : A) (l1 l2 : list A) :
    Subsequence l1 l2 -> Subsequence (x :: l1) (x :: l2).

(** The lines of an output as claim C6 words them: split on newlines, each
    line trimmed, blank entries removed. *)
Definition trimmedLines (output : string) : list string :=
  filter truthy (map trim (splitLines output)).

(** The result of [getUncommittedChanges] as claim C6 words it. *)
Definition uncommittedChangesAsClaimed (untracked diff : string) : list string :=
  trimmedLines untracked ++ trimmedLines diff.

(** What the code computes from the two outputs: each output is trimmed as a
    whole and split on newlines, and the entries that are blank are removed;
    an entry that is kept is not trimmed. *)
Definition uncommittedChangesOfOutputs (untracked diff : string) : list string :=
  filter (fun change => truthy (trim change))
         (splitLines (trim untracked) ++ splitLines (trim diff)).

(** A collaborator that finds Git at [gitBinary] (when given), answers every
    command from its arguments alone, and whose fetch exits with
    [fetchStatus]. *)
Definition scriptedEnv (gitBinary : option string)
           (answer : list string -> Exn + string) (fetchStatus : option nat)
  : Env :=
  mkEnv gitBinary
        (fun _ => None)
        (fun _ => inl (Error "not a repository"))
        (fun _ _ args _ => answer args)
        (fun _ _ => None)
        (fun _ _ _ => inr fetchStatus)
        (fun childPath parentFolderPath => startsWith childPath parentFolderPath)
        (fun _ => ["    git config --local user.email "])
        (fun a b => (a ++ "/" ++ b)%string)
        (fun a b => (a ++ "/" ++ b)%string)
        (String (ascii_of_N 10) EmptyString)
        (fun text => text)
        "An error occurred."
        UrlForms.plainToASCII.

Definition sampleConfiguration (urls : list string) : RushConfiguration :=
  mkRushConfiguration urls "main" "origin/main" None "/repo".

(** Every command fails. *)
Definition failingAnswer (args : list string) : Exn + string :=
  inl (Error "exit code 1").

(** An output of [ls-files] with two files, the first with a trailing space
    in its name. *)
Definition sampleUntrackedOutput : string :=
  String "a" (String " " (String (ascii_of_N 10)
    (String "b" (String (ascii_of_N 10) EmptyString)))).

(** [ls-files] prints [sampleUntrackedOutput]; every other command prints
    nothing. *)
Definition untrackedAnswer (args : list string) : Exn + string :=
  match args with
  | "ls-files" :: _ => inr sampleUntrackedOutput
  | _ => inr EmptyString
  end.

(** [diff] lists three added files; [config user.email] prints an address;
    every other command prints nothing. *)
Definition diffAnswer (args : list string) : Exn + string :=
  match args with
  | "diff" :: _ =>
      inr (String "a" (String "/" (String "x" (String (ascii_of_N 10)
            (String "b" (String "/" (String "y" (String (ascii_of_N 10)
            (String "a" (String "/" (String "z" (String (ascii_of_N 10)
             EmptyString))))))))))))
  | "config" :: _ => inr (String "b" (String "o" (String "b" (String "@"
            (String "x" (String "." (String "y" (String (ascii_of_N 10)
             EmptyString))))))))
  | _ => inr EmptyString
  end.

(** An output of [remote] with two remotes, [origin] and [upstream]. *)
Definition sampleRemotesOutput : string :=
  String "o" (String "r" (String "i" (String "g" (String "i"
    (String "n" (String (ascii_of_N 10)
    (String "u" (String "p" (String "s" (String "t" (String "r"
    (String "e" (String "a" (String "m" (String (ascii_of_N 10)
     EmptyString))))))))))))))).

(** [remote] lists [origin] and [upstream]; [remote get-url] gives an
    SCP-like URL for the first and an [https] URL of another repository for
    the second. *)
Definition remotesAnswer (args : list string) : Exn + string :=
  match args with
  | ["remote"] => inr sampleRemotesOutput
  | ["remote"; "get-url"; "origin"] => inr "git@github.com:org/repo.git"
  | ["remote"; "get-url"; "upstream"] => inr "https://example.com/other.git"
  | _ => inl (Error "exit code 1")
  end.

Definition remotesEnv : Env :=
  scriptedEnv (Some "/usr/bin/git") remotesAnswer None.

Definition failingEnv : Env :=
  scriptedEnv (Some "/usr/bin/git") failingAnswer (Some 1).

Definition untrackedEnv : Env :=
  scriptedEnv (Some "/usr/bin/git") untrackedAnswer None.

Definition diffEnv : Env :=
  scriptedEnv (Some "/usr/bin/git") diffAnswer (Some 1).

(** A new instance without configured repository URLs. *)
Definition freshState : State := initialState (sampleConfiguration []).

(** [<remote>/<branch name>] *)
Definition remoteBranch (remote branch : string) : string :=
  (remote ++ "/" ++ branch)%string.

(** The state once [_fetchRemoteBranch] has announced the fetch. *)
Definition afterFetchAnnouncement (st : State) (remoteBranchName : string) : State :=
  mkState (self st)
          (trace st ++ [ConsoleLog ("Checking for updates to "
                                      ++ remoteBranchName ++ "...")]).

(** The error of [_tryFetchRemoteBranch] for a name without [/]. *)
Definition branchFormatError (remoteBranchName : string) : Exn :=
  Error ("Unexpected git remote branch format: " ++ remoteBranchName
           ++ ". Expected branch to be in the <remote>/<branch name> format.").

(** The state once the fetch has run and the warning has been written. *)
Definition afterFetchWarning (st : State) (gitPath remote branch : string) : State :=
  mkState (self st)
          (trace st ++ [SpawnSync gitPath ["fetch"; remote; branch];
                        WriteWarningLine
                          (fetchWarningText (remoteBranch remote branch))]).

(** [m] keeps the two cache slots well formed, and what it returns
    satisfies [Q]. *)
Definition keeps {A : Type} (Q : A -> Prop) (m : M A) : Prop :=
  forall st,
    cachesWellFormed (self st) ->
    cachesWellFormed (self (snd (m st))) /\
    match fst (m st) with
    | Returned a => Q a
    | Threw _ => True
    end.

Definition anything {A : Type} (a : A) : Prop := True.

End GitSpec.

(* ================================================================== *)
(** ** Vocabulary of the further properties of the [Git] class *)
(* ================================================================== *)

Module GitInvariants.
Import JsString GitModel GitSpec.

Definition countEvents (p : Event -> bool) (tr : list Event) : nat :=
  List.length (filter p tr).

(** Is the event a search of the PATH for the Git binary? *)
Definition isPathSearch (ev : Event) : bool :=
  match ev with TryResolveGit => true | _ => false end.

(** Is the event a read of the repository information? *)
Definition isGitInfoRead (ev : Event) : bool :=
  match ev with ReadGitInfo => true | _ => false end.

Definition hooksArgs : list string := ["rev-parse"; "--git-path"; "hooks"].

(** Is the event a run of [git rev-parse --git-path hooks]? *)
Definition isHooksProbe (ev : Event) : bool :=
  match ev with
  | ExecuteCommand _ args _ =>
      if list_eq_dec string_dec args hooksArgs then true else false
  | _ => false
  end.

(** A probe behind a flag: it has not run while the flag is down, and it has
    run once at most when the flag is up. *)
Definition probedOnce (resolved : bool) (p : Event -> bool) (tr : list Event)
  : Prop :=
  if resolved then countEvents p tr <= 1 else countEvents p tr = 0.

Definition isSome {A : Type} (o : option A) : bool :=
  match o with Some _ => true | None => false end.

(** The instance has looked for the Git binary and found it. *)
Definition gitFound (g : Git) : Prop :=
  _checkedGitPath g = true /\ truthyOpt (_gitPath g) = true.

(** What holds of an instance and its trace between the calls of a run that
    starts from a new instance: each of the four memoized probes has run
    once at most, and not at all while its cache is empty; the PATH is not
    searched when the environment names the Git binary; repository
    information is cached only with a commit hash and with the Git binary
    found; and the email and hooks slots are filled only with the Git binary
    found. *)
Record Consistent (env : Env) (st : State) : Prop := mkConsistent {
  pathSearchedOnce :
    probedOnce (_checkedGitPath (self st)) isPathSearch (trace st);
  gitInfoReadOnce :
    probedOnce (_checkedGitInfo (self st)) isGitInfoRead (trace st);
  emailProbedOnce :
    probedOnce (isSome (_gitEmailResult (self st))) isEmailProbe (trace st);
  hooksProbedOnce :
    probedOnce (isSome (_gitHooksPath (self st))) isHooksProbe (trace st);
  overrideSkipsSearch :
    truthyOpt (gitBinaryPath env) = true ->
    countEvents isPathSearch (trace st) = 0;
  gitInfoNeedsGit :
    match _gitInfo (self st) with
    | Some i => truthyOpt (sha i) = true /\ gitFound (self st)
    | None => True
    end;
  slotsNeedGit :
    isSome (_gitEmailResult (self st)) || isSome (_gitHooksPath (self st)) = true ->
    gitFound (self st)
}.

(** The state that the getter [gitPath] leaves. *)
Definition afterGitPath (env : Env) (st : State) : State :=
  if _checkedGitPath (self st) then st
  else if truthyOpt (gitBinaryPath env)
       then mkState (set_gitPath (gitBinaryPath env) (self st)) (trace st)
       else mkState (set_gitPath (tryResolve env (trace st)) (self st))
                    (trace st ++ [TryResolveGit]).

(** [m] maintains the consistency of the instance and its trace. *)
Definition maintains (env : Env) {A : Type} (m : M A) : Prop :=
  forall st, Consistent env st -> Consistent env (snd (m st)).

(** An event that is none of the four memoized probes. *)
Definition isUntracked (ev : Event) : bool :=
  negb (isPathSearch ev || isGitInfoRead ev || isEmailProbe ev || isHooksProbe ev).

(** What a call returned or threw. *)
Inductive Verdict :=
| ReturnedNormally
| ThrewError (e : Exn).

Definition verdictOf {A : Type} (run : Outcome A * State) : Verdict :=
  match fst run with
  | Returned _ => ReturnedNormally
  | Threw e => ThrewError e
  end.

(** The verdict of a call of a public member. *)
Definition verdict (env : Env) (c : Call) (st : State) : Verdict :=
  match c with
  | CallGitPath => verdictOf (gitPath env st)
  | CallGetGitPathOrThrow => verdictOf (getGitPathOrThrow env st)
  | CallIsGitPresent => verdictOf (isGitPresent env st)
  | CallIsPathUnderGitWorkingTree repoInfo =>
      verdictOf (isPathUnderGitWorkingTree env repoInfo st)
  | CallTryGetGitEmail => verdictOf (tryGetGitEmail env st)
  | CallGetGitEmail => verdictOf (getGitEmail env st)
  | CallGetHooksFolder => verdictOf (getHooksFolder env st)
  | CallIsHooksPathDefault => verdictOf (isHooksPathDefault env st)
  | CallGetConfigHooksPath => verdictOf (getConfigHooksPath env st)
  | CallGetGitInfo => verdictOf (getGitInfo env st)
  | CallGetMergeBase targetBranch shouldFetch =>
      verdictOf (getMergeBase env targetBranch shouldFetch st)
  | CallGetBlobContent blobSpec repositoryRoot =>
      verdictOf (getBlobContent env blobSpec repositoryRoot st)
  | CallGetChangedFiles targetBranch skipFetch pathPrefix =>
      verdictOf (getChangedFiles env targetBranch skipFetch pathPrefix st)
  | CallGetRemoteDefaultBranch => verdictOf (getRemoteDefaultBranch env st)
  | CallHasUncommittedChanges => verdictOf (hasUncommittedChanges env st)
  | CallGetUncommittedChanges => verdictOf (getUncommittedChanges env st)
  | CallGetTagSeparator => verdictOf (getTagSeparator st)
  end.

(** The members that run a Git command at once, without a fetch before. *)
Definition needsGitAtOnce (st : State) (c : Call) : bool :=
  match c with
  | CallGetGitPathOrThrow | CallTryGetGitEmail | CallGetGitEmail
  | CallGetConfigHooksPath | CallGetBlobContent _ _
  | CallHasUncommittedChanges | CallGetUncommittedChanges => true
  | CallGetMergeBase _ shouldFetch => negb shouldFetch
  | CallGetChangedFiles _ skipFetch _ => skipFetch
  | CallGetRemoteDefaultBranch =>
      Nat.ltb 0 (List.length (repositoryUrls (_rushConfiguration (self st))))
  | _ => false
  end.

(** The members that only consult the caches of the instance. *)
Definition isCacheQuery (c : Call) : bool :=
  match c with
  | CallGitPath | CallIsGitPresent | CallIsPathUnderGitWorkingTree _
  | CallGetHooksFolder | CallIsHooksPathDefault | CallGetGitInfo
  | CallGetTagSeparator => true
  | _ => false
  end.

(** A run returns, whatever the value. *)
Definition returns {A : Type} (run : Outcome A * State) : Prop :=
  verdictOf run = ReturnedNormally.

(** The string has no newline: it is one piece of [split('\n')]. *)
Definition isOneLine (s : string) : bool :=
  all (fun c => negb (isCode 10 c)) s.

(** The string has white space only, or nothing. *)
Definition isBlank (s : string) : bool := all isWhiteSpace s.

(** The state once a command has run and answered. *)
Definition afterCommand (st : State) (gitPath : string) (args : list string)
  : State :=
  mkState (self st) (trace st ++ [ExecuteCommand gitPath args (cwdOf st)]).

(** The state once the fetch has run, with nothing written after it. *)
Definition afterFetch (st : State) (gitPath remote branch : string) : State :=
  mkState (self st) (trace st ++ [SpawnSync gitPath ["fetch"; remote; branch]]).

(** A collaborator whose fetch succeeds. *)
Definition fetchingEnv : Env :=
  scriptedEnv (Some "/usr/bin/git") diffAnswer (Some 0).

(** What the callback of [filter] in [getRemoteDefaultBranch] returns for a
    remote, when the commands answer [answer]: is the remote's URL,
    normalized and in upper case, one of the configured URLs, normalized and
    in upper case? *)
Definition remoteMatches (toASCII : string -> string)
           (answer : list string -> Exn + string)
           (normalizedRepositoryUrls : list (list N)) (remoteName : string)
  : bool :=
  truthy remoteName &&
  match answer ["remote"; "get-url"; remoteName] with
  | inr rawUrl =>
      truthy (trim rawUrl) &&
      match UrlNormalizer.normalizedUpperCase toASCII (trim rawUrl) with
      | Some normalizedRemoteUrl =>
          existsb (codeUnitsEqb normalizedRemoteUrl) normalizedRepositoryUrls
      | None => false
      end
  | inl _ => false
  end.

(** The callback returns for the remote: the name is empty, and nothing is
    asked; or the command answers, and the URL that it prints is empty or
    can be normalized. *)
Definition remoteAnswered (toASCII : string -> string)
           (answer : list string -> Exn + string) (remoteName : string) : bool :=
  negb (truthy remoteName) ||
  match answer ["remote"; "get-url"; remoteName] with
  | inr rawUrl =>
      negb (truthy (trim rawUrl)) ||
      isSome (UrlNormalizer.normalizedUpperCase toASCII (trim rawUrl))
  | inl _ => false
  end.

(** From [st] to [st'] the instance keeps what it has cached: the
    configuration is the same; a path of Git that was looked up, repository
    information that was read, and a filled email or hooks slot are still
    there, with the same value. *)
Record Extends (st st' : State) : Prop := mkExtends {
  configurationKept :
    _rushConfiguration (self st') = _rushConfiguration (self st);
  gitPathKept :
    _checkedGitPath (self st) = true ->
    _checkedGitPath (self st') = true /\ _gitPath (self st') = _gitPath (self st);
  gitInfoKept :
    _checkedGitInfo (self st) = true ->
    _checkedGitInfo (self st') = true /\ _gitInfo (self st') = _gitInfo (self st);
  emailKept :
    isSome (_gitEmailResult (self st)) = true ->
    _gitEmailResult (self st') = _gitEmailResult (self st);
  hooksKept :
    isSome (_gitHooksPath (self st)) = true ->
    _gitHooksPath (self st') = _gitHooksPath (self st)
}.

(** [m] overwrites no cache that is filled. *)
Definition writesOnce {A : Type} (m : M A) : Prop :=
  forall st, Extends st (snd (m st)).

(** A collaborator without a Git binary: no override, nothing on the PATH. *)
Definition noGitEnv : Env :=
  scriptedEnv None failingAnswer None.

End GitInvariants.

(* ================================================================== *)
(** ** [parsePackageSpecifier] of [install-run.ts] *)
(* ================================================================== *)

Module InstallRun.
Import JsString.

Inductive Exn :=
| Error (message : string).

(** [interface IPackageSpecifier { name: string; version: string | undefined }] *)
Record IPackageSpecifier := mkPackageSpecifier {
  name : string;
  version : option string
}.

(** [s.lastIndexOf(c)] for a one-character needle; [None] stands for [-1]. *)
Fixpoint lastIndexOfChar (c : ascii) (s : string) : option nat :=
  match s with
  | EmptyString => None
  | String d s' =>
      match lastIndexOfChar c s' with
      | Some i => Some (S i)
      | None => if Ascii.eqb d c then Some 0 else None
      end
  end.

(** [s.substring(a, b)]: the two indices are put in order. *)
Definition substring (a b : nat) (s : string) : string :=
  take (Nat.max a b - Nat.min a b) (drop (Nat.min a b) s).

(** [s.substring(a)] *)
Definition substringFrom (a : nat) (s : string) : string := drop a s.

(** [rawPackageSpecifier || ''], where [None] stands for [undefined]. *)
Definition orEmpty (rawPackageSpecifier : option string) : string :=
  match rawPackageSpecifier with
  | Some s => if truthy s then s else EmptyString
  | None => EmptyString
  end.

Definition parsePackageSpecifier (rawPackageSpecifier : option string)
  : Exn + IPackageSpecifier :=
  let rawPackageSpecifier := trim (orEmpty rawPackageSpecifier) in
  let separatorIndex := lastIndexOfChar "@" rawPackageSpecifier in
  let '(name, version) :=
    match separatorIndex with
    | Some 0 => (rawPackageSpecifier, None)
    | None => (rawPackageSpecifier, None)
    | Some separatorIndex =>
        (substring 0 separatorIndex rawPackageSpecifier,
         Some (substringFrom (separatorIndex + 1) rawPackageSpecifier))
    end in
  if negb (truthy name)
  then inl (Error ("Invalid package specifier: " ++ rawPackageSpecifier))
  else inr (mkPackageSpecifier name version).

(** The specifier written out: [name@version], or the name alone. *)
Definition specifierText (spec : IPackageSpecifier) : string :=
  match version spec with
  | Some v => (name spec ++ "@" ++ v)%string
  | None => name spec
  end.

End InstallRun.

(* ================================================================== *)
(** ** Facts about the string primitives *)
(* ================================================================== *)

Module StringFacts.
Import JsString.

Lemma append_nil_r (s : string) : (s ++ EmptyString)%string = s.
Proof. induction s as [|c s IH]; simpl; [reflexivity | now rewrite IH]. Qed.

Lemma append_assoc (a b c : string) :
  ((a ++ b) ++ c)%string = (a ++ (b ++ c))%string.
Proof. induction a as [|x a IH]; simpl; [reflexivity | now rewrite IH]. Qed.

Lemma length_append (a b : string) :
  String.length (a ++ b) = String.length a + String.length b.
Proof. induction a as [|x a IH]; simpl; [reflexivity | now rewrite IH]. Qed.

Lemma all_append (P : ascii -> bool) (a b : string) :
  all P (a ++ b) = all P a && all P b.
Proof.
  induction a as [|x a IH]; simpl; [reflexivity|].
  now rewrite IH, andb_assoc.
Qed.

Lemma all_impl (P Q : ascii -> bool) :
  (forall c, P c = true -> Q c = true) ->
  forall s, all P s = true -> all Q s = true.
Proof.
  intros HPQ s; induction s as [|c s IH]; simpl; [reflexivity|].
  intros H; apply andb_true_iff in H as [Hc Hs].
  now rewrite (HPQ c Hc), (IH Hs).
Qed.

(** The greedy class match stops exactly at the first character outside the
    class. *)
Lemma span_append_stop (P : ascii -> bool) (a : string) (c : ascii) (b : string) :
  all P a = true -> P c = false ->
  span P (a ++ String c b) = (a, String c b).
Proof.
  intros Ha Hc; induction a as [|x a IH]; simpl in *.
  - now rewrite Hc.
  - apply andb_true_iff in Ha as [Hx Ha]. now rewrite Hx, (IH Ha).
Qed.

Lemma span_all (P : ascii -> bool) (a : string) :
  all P a = true -> span P a = (a, EmptyString).
Proof.
  induction a as [|x a IH]; simpl; [reflexivity|].
  intros H; apply andb_true_iff in H as [Hx Ha]. now rewrite Hx, (IH Ha).
Qed.

Lemma drop_append (a b : string) : drop (String.length a) (a ++ b) = b.
Proof. induction a as [|x a IH]; simpl; [now destruct b | exact IH]. Qed.

Lemma take_append (a b : string) : take (String.length a) (a ++ b) = a.
Proof.
  induction a as [|x a IH]; simpl; [now destruct b | now rewrite IH].
Qed.

Lemma drop_add_append (n : nat) (a b : string) :
  drop (String.length a + n) (a ++ b) = drop n b.
Proof. induction a as [|x a IH]; simpl; [reflexivity | exact IH]. Qed.

Lemma mapChars_append (f : ascii -> ascii) (a b : string) :
  mapChars f (a ++ b) = (mapChars f a ++ mapChars f b)%string.
Proof. induction a as [|x a IH]; simpl; [reflexivity | now rewrite IH]. Qed.

Lemma length_mapChars (f : ascii -> ascii) (s : string) :
  String.length (mapChars f s) = String.length s.
Proof. induction s as [|x s IH]; simpl; [reflexivity | now rewrite IH]. Qed.

(** A string whose characters are all outside the white-space class is left
    alone by [trim]. *)
Lemma trimEnd_id (s : string) :
  all (fun c => negb (isWhiteSpace c)) s = true -> trimEnd s = s.
Proof.
  induction s as [|c s IH]; simpl; [reflexivity|].
  intros H; apply andb_true_iff in H as [Hc Hs].
  rewrite (IH Hs). apply negb_true_iff in Hc. rewrite Hc.
  now destruct s.
Qed.

Lemma trimStart_id (s : string) :
  all (fun c => negb (isWhiteSpace c)) s = true -> trimStart s = s.
Proof.
  destruct s as [|c s]; simpl; [reflexivity|].
  intros H; apply andb_true_iff in H as [Hc _].
  apply negb_true_iff in Hc. now rewrite Hc.
Qed.

Lemma trim_id (s : string) :
  all (fun c => negb (isWhiteSpace c)) s = true -> trim s = s.
Proof.
  intros H. unfold trim. rewrite (trimStart_id _ H). now apply trimEnd_id.
Qed.

End StringFacts.

(* ================================================================== *)
(** ** Facts about the URL parser on well-formed URLs *)
(* ================================================================== *)

Module NodeUrlFacts.
Import JsString StringFacts UrlForms.

(** Case analysis on the eight bits of a character. *)
Ltac char_cases c :=
  destruct c as [[] [] [] [] [] [] [] []]; vm_compute;
  try reflexivity; try discriminate; auto.

Lemma hostNameChar_clean c : isHostNameChar c = true -> isCleanChar c = true.
Proof. char_cases c. Qed.

Lemma pathChar_clean c : isPathChar c = true -> isCleanChar c = true.
Proof. char_cases c. Qed.

Lemma urlTrimEnd_id (s : string) :
  all isCleanChar s = true -> NodeUrl.urlTrimEnd s = s.
Proof.
  induction s as [|c s IH]; simpl; [reflexivity|].
  intros H; apply andb_true_iff in H as [Hc Hs].
  rewrite (IH Hs).
  assert (Hw : NodeUrl.isUrlWs c = false) by (revert Hc; char_cases c).
  rewrite Hw. now destruct s.
Qed.

Lemma urlTrimStart_id (s : string) :
  all isCleanChar s = true -> NodeUrl.urlTrimStart s = s.
Proof.
  destruct s as [|c s]; simpl; [reflexivity|].
  intros H; apply andb_true_iff in H as [Hc _].
  assert (Hw : NodeUrl.isUrlWs c = false) by (revert Hc; char_cases c).
  now rewrite Hw.
Qed.

Lemma convertBackslashes_id (s : string) :
  all isCleanChar s = true -> NodeUrl.convertBackslashes s = s.
Proof.
  induction s as [|c s IH]; simpl; [reflexivity|].
  intros H; apply andb_true_iff in H as [Hc Hs].
  assert (H1 : isCode 35 c || isCode 63 c = false) by (revert Hc; char_cases c).
  assert (H2 : isCode 92 c = false) by (revert Hc; char_cases c).
  now rewrite H1, H2, (IH Hs).
Qed.

Lemma contains_hash_clean (s : string) :
  all isCleanChar s = true -> NodeUrl.contains "#" s = false.
Proof.
  induction s as [|c s IH]; simpl; [reflexivity|].
  intros H; apply andb_true_iff in H as [Hc Hs].
  rewrite (IH Hs), orb_false_r. revert Hc; char_cases c.
Qed.

Lemma clean_no_whitespace (s : string) :
  all isCleanChar s = true -> all (fun c => negb (isWhiteSpace c)) s = true.
Proof. apply all_impl. intros c. char_cases c. Qed.

(** The host loop walks over the characters of a host name, and over the
    colon and the digits of a port, without touching its registers. *)
Lemma hostScan_plain (a r : string) (i : nat) (atSign nonHost : option nat) :
  all (fun c => isHostNameChar c || isCode 58 c) a = true ->
  NodeUrl.hostScan (a ++ r) i atSign nonHost
  = NodeUrl.hostScan r (i + String.length a) atSign nonHost.
Proof.
  revert i; induction a as [|c a IH]; intros i Ha; simpl.
  - now rewrite Nat.add_0_r.
  - simpl in Ha. apply andb_true_iff in Ha as [Hc Ha].
    assert (H1 : NodeUrl.isNeverHostChar c = false) by (revert Hc; char_cases c).
    assert (H2 : NodeUrl.isHostEndChar c = false) by (revert Hc; char_cases c).
    assert (H3 : isCode 64 c = false) by (revert Hc; char_cases c).
    rewrite H1, H2, H3, (IH _ Ha). f_equal. lia.
Qed.

Lemma hostName_plain (h : string) :
  all isHostNameChar h = true ->
  all (fun c => isHostNameChar c || isCode 58 c) h = true.
Proof. apply all_impl. intros c H. now rewrite H. Qed.

Lemma portSuffix_plain (port : option string) :
  wellFormedPort port = true ->
  all (fun c => isHostNameChar c || isCode 58 c) (portSuffix port) = true.
Proof.
  destruct port as [d|]; [|reflexivity]. simpl.
  intros H. apply andb_true_iff in H as [_ H].
  revert H. apply all_impl. intros c. char_cases c.
Qed.

Lemma hostPort_plain (h : string) (port : option string) :
  all isHostNameChar h = true -> wellFormedPort port = true ->
  all (fun c => isHostNameChar c || isCode 58 c) (h ++ portSuffix port) = true.
Proof.
  intros Hh Hport.
  now rewrite all_append, (hostName_plain _ Hh), (portSuffix_plain _ Hport).
Qed.

(** A text without [%] is decoded without an error. *)
Lemma decodeURIComponent_hostName (u : string) :
  all isHostNameChar u = true -> NodeUrl.decodeURIComponentReturns u = true.
Proof.
  unfold NodeUrl.decodeURIComponentReturns.
  induction u as [|c u IH]; simpl; [reflexivity|].
  intros H. apply andb_true_iff in H as [Hc Hu].
  assert (H1 : isCode 37 c = false) by (revert Hc; char_cases c).
  rewrite H1. now apply IH.
Qed.

Lemma portPattern_hostName (h : string) :
  all isHostNameChar h = true -> NodeUrl.portPattern h = None.
Proof.
  induction h as [|c h IH]; simpl; [reflexivity|].
  intros H; apply andb_true_iff in H as [Hc Hh].
  assert (H1 : isCode 58 c = false) by (revert Hc; char_cases c).
  now rewrite H1, (IH Hh).
Qed.

Lemma portPattern_port (h digits : string) :
  all isHostNameChar h = true -> all NodeUrl.isDigit digits = true ->
  NodeUrl.portPattern (h ++ String ":" digits) = Some (String.length h).
Proof.
  intros Hh Hd. induction h as [|c h IH]; simpl.
  - now rewrite Hd.
  - simpl in Hh. apply andb_true_iff in Hh as [Hc Hh].
    assert (H1 : isCode 58 c = false) by (revert Hc; char_cases c).
    now rewrite H1, (IH Hh).
Qed.

Lemma isIpv6Hostname_hostName (h : string) :
  all isHostNameChar h = true -> NodeUrl.isIpv6Hostname h = false.
Proof.
  destruct h as [|c h]; [reflexivity|].
  simpl. intros H; apply andb_true_iff in H as [Hc _].
  unfold NodeUrl.isIpv6Hostname.
  revert Hc. destruct c as [[] [] [] [] [] [] [] []];
    try reflexivity; vm_compute; discriminate.
Qed.

Lemma span_valid_hostName (h : string) :
  all isHostNameChar h = true ->
  span NodeUrl.isValidHostnameChar h = (h, EmptyString).
Proof.
  intros H. apply span_all. revert H. apply all_impl. intros c. char_cases c.
Qed.

Lemma autoEscapeStr_path (p : string) :
  all isPathChar p = true -> NodeUrl.autoEscapeStr p = p.
Proof.
  induction p as [|c p IH]; simpl; [reflexivity|].
  intros H; apply andb_true_iff in H as [Hc Hp].
  rewrite (IH Hp).
  assert (He : NodeUrl.escapeChar c = String c EmptyString).
  { revert Hc. destruct c as [[] [] [] [] [] [] [] []];
      try reflexivity; vm_compute; discriminate. }
  now rewrite He.
Qed.

Lemma span_pathname (p : string) :
  all isPathChar p = true ->
  span (fun c => negb (isCode 35 c || isCode 63 c)) p = (p, EmptyString).
Proof.
  intros H. apply span_all. revert H. apply all_impl. intros c. char_cases c.
Qed.

Lemma hostScan_user_host (u hp p : string) :
  all isHostNameChar u = true ->
  all (fun c => isHostNameChar c || isCode 58 c) hp = true ->
  NodeUrl.hostScan (u ++ String "@" (hp ++ String "/" p)) 0 None None
  = (Some (String.length u), Some (String.length u + (1 + String.length hp))).
Proof.
  intros Hu Hh.
  rewrite (hostScan_plain _ _ _ _ _ (hostName_plain _ Hu)). simpl.
  rewrite (hostScan_plain _ _ _ _ _ Hh). simpl.
  do 2 f_equal. lia.
Qed.

Lemma hostScan_host (hp p : string) :
  all (fun c => isHostNameChar c || isCode 58 c) hp = true ->
  NodeUrl.hostScan (hp ++ String "/" p) 0 None None
  = (None, Some (String.length hp)).
Proof.
  intros Hh. rewrite (hostScan_plain _ _ _ _ _ Hh). reflexivity.
Qed.

Lemma splitHost_user (u hp p : string) :
  all isHostNameChar u = true ->
  all (fun c => isHostNameChar c || isCode 58 c) hp = true ->
  NodeUrl.splitHost (u ++ String "@" (hp ++ String "/" p))
  = Some (hp, String "/" p).
Proof.
  intros Hu Hh. unfold NodeUrl.splitHost.
  rewrite (hostScan_user_host _ _ _ Hu Hh). cbv beta iota zeta.
  rewrite take_append, (decodeURIComponent_hostName _ Hu).
  unfold slice. do 2 f_equal.
  - replace (String.length u + (1 + String.length hp) - S (String.length u))
      with (String.length hp) by lia.
    replace (S (String.length u)) with (String.length u + 1) by lia.
    rewrite drop_add_append.
    change (drop 1 (String "@" (hp ++ String "/" p))) with (hp ++ String "/" p)%string.
    apply take_append.
  - rewrite drop_add_append.
    change (drop (1 + String.length hp) (String "@" (hp ++ String "/" p)))
      with (drop (String.length hp) (hp ++ String "/" p)).
    apply drop_append.
Qed.

Lemma splitHost_noUser (hp p : string) :
  all (fun c => isHostNameChar c || isCode 58 c) hp = true ->
  NodeUrl.splitHost (hp ++ String "/" p) = Some (hp, String "/" p).
Proof.
  intros Hh. unfold NodeUrl.splitHost.
  rewrite (hostScan_host _ _ Hh). cbv beta iota zeta.
  unfold slice. rewrite Nat.sub_0_r.
  change (drop 0 (hp ++ String "/" p)) with (hp ++ String "/" p)%string.
  now rewrite take_append, drop_append.
Qed.

(** The second half of the host block on a host name and a port. *)
Lemma finishHost_hostPort (toASCII : string -> string) (h : string)
      (port : option string) (rest : string) :
  all isHostNameChar h = true -> wellFormedPort port = true ->
  NodeUrl.finishHost toASCII (h ++ portSuffix port) rest
  = ((toASCII (hostField h) ++ portSuffix port)%string, toASCII (hostField h), rest).
Proof.
  intros Hh Hport. unfold NodeUrl.finishHost.
  destruct port as [d|]; simpl in Hport; cbn [portSuffix].
  - apply andb_true_iff in Hport as [Hne Hd].
    change (":" ++ d)%string with (String ":" d).
    assert (Hdrop : drop (S (String.length h)) (h ++ String ":" d) = d).
    { replace (S (String.length h)) with (String.length h + 1) by lia.
      rewrite drop_add_append. now destruct d. }
    rewrite (portPattern_port _ _ Hh Hd), take_append, Hdrop.
    rewrite (isIpv6Hostname_hostName _ Hh), (span_valid_hostName _ Hh), Hne.
    reflexivity.
  - rewrite append_nil_r.
    rewrite (portPattern_hostName _ Hh), (isIpv6Hostname_hostName _ Hh),
      (span_valid_hostName _ Hh).
    simpl. fold (hostField h). now rewrite append_nil_r.
Qed.

(** The host block on [[user@]host[:port]/path]. *)
Lemma parseHostPart_wellFormed (toASCII : string -> string)
      (user : option string) (h : string) (port : option string) (p : string) :
  wellFormedUser user = true -> all isHostNameChar h = true ->
  wellFormedPort port = true ->
  NodeUrl.parseHostPart toASCII
    (userPrefix user ++ (h ++ portSuffix port) ++ String "/" p)
  = Some ((toASCII (hostField h) ++ portSuffix port)%string,
          toASCII (hostField h), String "/" p).
Proof.
  intros Hu Hh Hport. unfold NodeUrl.parseHostPart.
  pose proof (hostPort_plain h port Hh Hport) as Hhp.
  destruct user as [u|]; simpl in Hu |- *.
  - apply andb_true_iff in Hu as [_ Hu].
    rewrite append_assoc. simpl.
    rewrite (splitHost_user _ _ _ Hu Hhp). now rewrite finishHost_hostPort.
  - rewrite (splitHost_noUser _ _ Hhp). now rewrite finishHost_hostPort.
Qed.

Lemma clean_tail (user : option string) (h : string) (port : option string)
      (p : string) :
  wellFormedUser user = true -> all isHostNameChar h = true ->
  wellFormedPort port = true -> all isPathChar p = true ->
  all isCleanChar (userPrefix user ++ (h ++ portSuffix port) ++ String "/" p)
  = true.
Proof.
  intros Hu Hh Hport Hp.
  assert (Hpc : all isCleanChar (portSuffix port) = true).
  { destruct port as [d|]; [|reflexivity]. simpl in Hport |- *.
    apply andb_true_iff in Hport as [_ Hd].
    revert Hd. apply all_impl. intros c. char_cases c. }
  rewrite !all_append. simpl.
  rewrite (all_impl _ _ hostNameChar_clean _ Hh), (all_impl _ _ pathChar_clean _ Hp),
    Hpc.
  destruct user as [u|]; simpl in *; [|reflexivity].
  apply andb_true_iff in Hu as [_ Hu].
  rewrite all_append, (all_impl _ _ hostNameChar_clean _ Hu). reflexivity.
Qed.

Lemma parse_clean (url : string) :
  all isCleanChar url = true ->
  NodeUrl.convertBackslashes (NodeUrl.urlTrimEnd (NodeUrl.urlTrimStart url)) = url
  /\ NodeUrl.contains "#" url = false.
Proof.
  intros H. rewrite (urlTrimStart_id _ H), (urlTrimEnd_id _ H),
    (convertBackslashes_id _ H), (contains_hash_clean _ H). now split.
Qed.

(** *** Recognized schemes *)

Lemma toLowerCase_append (a b : string) :
  toLowerCase (a ++ b) = (toLowerCase a ++ toLowerCase b)%string.
Proof. apply mapChars_append. Qed.

(** A class of characters that holds of a character when it holds of its
    lower-case form holds of a string when it holds of its lower-case
    form. *)
Lemma all_of_lower (P : ascii -> bool) (s : string) :
  (forall c, P (toLowerChar c) = true -> P c = true) ->
  all P (toLowerCase s) = true -> all P s = true.
Proof.
  intros HP. unfold toLowerCase.
  induction s as [|c s IH]; simpl; [reflexivity|].
  intros H. apply andb_true_iff in H as [Hc Hs].
  now rewrite (HP c Hc), (IH Hs).
Qed.

(** The lower-case form of a recognized scheme is one of the eleven names. *)
Lemma recognized_name (scheme : string) :
  isRecognizedScheme scheme = true ->
  In (toLowerCase scheme) recognizedSchemeNames.
Proof.
  unfold isRecognizedScheme, NodeUrl.inSet. intros H.
  apply existsb_exists in H as (name & Hin & Heq).
  apply String.eqb_eq in Heq. now subst name.
Qed.

(** What the parser needs to know of a recognized scheme. *)
Lemma recognized_scheme (scheme : string) :
  isRecognizedScheme scheme = true ->
  truthy scheme = true /\
  all (fun c => NodeUrl.isAlnum c || NodeUrl.anyCode [46; 43; 45]%N c) scheme = true /\
  all isCleanChar scheme = true /\
  all (fun c => negb (isCode 58 c || isCode 47 c)) scheme = true /\
  NodeUrl.inSet NodeUrl.hostlessProtocol (toLowerCase scheme ++ ":") = false /\
  NodeUrl.inSet NodeUrl.unsafeProtocol (toLowerCase scheme ++ ":") = false /\
  NodeUrl.inSet UrlNormalizer.recognizedSchemes (toLowerCase scheme ++ ":") = true.
Proof.
  intros H. apply recognized_name in H.
  assert (Hfacts :
    truthy (toLowerCase scheme) = true /\
    all (fun c => NodeUrl.isAlnum c || NodeUrl.anyCode [46; 43; 45]%N c)
        (toLowerCase scheme) = true /\
    all isCleanChar (toLowerCase scheme) = true /\
    all (fun c => negb (isCode 58 c || isCode 47 c)) (toLowerCase scheme) = true /\
    NodeUrl.inSet NodeUrl.hostlessProtocol (toLowerCase scheme ++ ":") = false /\
    NodeUrl.inSet NodeUrl.unsafeProtocol (toLowerCase scheme ++ ":") = false /\
    NodeUrl.inSet UrlNormalizer.recognizedSchemes (toLowerCase scheme ++ ":") = true).
  { simpl in H.
    repeat (destruct H as [<- | H]; [vm_compute; repeat split|]).
    contradiction. }
  destruct Hfacts as (H1 & H2 & H3 & H4 & H5 & H6 & H7).
  repeat split; auto.
  - destruct scheme; [discriminate H1|reflexivity].
  - revert H2. apply all_of_lower. intros c. char_cases c.
  - revert H3. apply all_of_lower. intros c. char_cases c.
  - revert H4. apply all_of_lower. intros c. char_cases c.
Qed.

Lemma simplePathPattern_scheme (scheme rest : string) :
  truthy scheme = true ->
  all (fun c => negb (isCode 58 c || isCode 47 c)) scheme = true ->
  NodeUrl.simplePathPattern (scheme ++ rest) = None.
Proof.
  destruct scheme as [|c scheme]; [discriminate|]. intros _ H.
  simpl in H. apply andb_true_iff in H as [Hc _].
  revert Hc. destruct c as [[] [] [] [] [] [] [] []];
    try reflexivity; vm_compute; discriminate.
Qed.

Lemma protocolPattern_scheme (scheme rest : string) :
  truthy scheme = true ->
  all (fun c => NodeUrl.isAlnum c || NodeUrl.anyCode [46; 43; 45]%N c) scheme = true ->
  NodeUrl.protocolPattern (scheme ++ String ":" rest)
  = Some ((scheme ++ ":")%string, rest).
Proof.
  intros Hne H. unfold NodeUrl.protocolPattern.
  rewrite (span_append_stop _ scheme ":" rest H eq_refl).
  now destruct scheme.
Qed.

(** What the parser reports for [scheme://[user@]host[:port]/path] with a
    recognized scheme. *)
Lemma parse_scheme_url (toASCII : string -> string) (scheme : string)
      (user : option string) (h : string) (port : option string) (p : string) :
  isRecognizedScheme scheme = true ->
  wellFormedUser user = true -> all isHostNameChar h = true ->
  wellFormedPort port = true -> all isPathChar p = true ->
  NodeUrl.parse toASCII
    (scheme ++ "://" ++ userPrefix user ++ (h ++ portSuffix port) ++ String "/" p)
  = Some (NodeUrl.mkUrl (Some (toLowerCase scheme ++ ":")%string)
                        (Some (toASCII (hostField h) ++ portSuffix port)%string)
                        (Some (String "/" p))).
Proof.
  intros Hs Hu Hh Hport Hp.
  destruct (recognized_scheme scheme Hs) as (Hne & Hproto & Hclean & Hnc & Hhl & Hus & _).
  pose proof (clean_tail user h port p Hu Hh Hport Hp) as Htail.
  pose proof (parseHostPart_wellFormed toASCII user h port p Hu Hh Hport) as Hhost.
  set (tail := (userPrefix user ++ (h ++ portSuffix port) ++ String "/" p)%string) in *.
  unfold NodeUrl.parse.
  destruct (parse_clean (scheme ++ "://" ++ tail)) as [-> ->].
  { rewrite all_append, Hclean. simpl. exact Htail. }
  rewrite (simplePathPattern_scheme scheme _ Hne Hnc).
  change (scheme ++ "://" ++ tail)%string
    with (scheme ++ String ":" (String "/" (String "/" tail)))%string.
  rewrite (protocolPattern_scheme scheme _ Hne Hproto).
  unfold NodeUrl.parseAfterProtocol.
  cbn [option_map NodeUrl.hasOpt].
  rewrite toLowerCase_append.
  change (toLowerCase ":") with ":"%string.
  rewrite Hhl, Hus.
  change (startsWith (String "/" (String "/" tail)) "//") with true.
  cbn [negb andb orb].
  change (drop 2 (String "/" (String "/" tail))) with tail.
  rewrite Hhost.
  rewrite (autoEscapeStr_path (String "/" p)) by (simpl; exact Hp).
  rewrite (span_pathname (String "/" p)) by (simpl; exact Hp).
  reflexivity.
Qed.

End NodeUrlFacts.

(* ================================================================== *)
(** ** Facts about the normalizer *)
(* ================================================================== *)

Module UrlNormalizerFacts.
Import JsString StringFacts UrlForms NodeUrlFacts UrlNormalizer.

Lemma endsWith_String (c : ascii) (s suffix : string) :
  endsWith (String c s) suffix
  = (String.eqb (String c s) suffix || endsWith s suffix).
Proof. reflexivity. Qed.

Lemma endsWith_refl (s : string) : endsWith s s = true.
Proof. destruct s; simpl; [reflexivity|]. now rewrite Ascii.eqb_refl, String.eqb_refl. Qed.

Lemma stripGitSuffix_String (c : ascii) (s : string) :
  stripGitSuffix (String c s)
  = if matchesDotGitAtStart (String c s) then EmptyString
    else String c (stripGitSuffix s).
Proof. reflexivity. Qed.

Lemma matchesDotGitAtStart_endsWith (s : string) :
  matchesDotGitAtStart s = true ->
  endsWith s "git" = true \/ endsWith s "git/" = true.
Proof.
  destruct s as [|c r]; [discriminate|].
  unfold matchesDotGitAtStart. intros H.
  apply andb_true_iff in H as [_ H]. apply orb_true_iff in H as [H|H];
    apply String.eqb_eq in H; subst r; [left | right];
    now rewrite endsWith_String, endsWith_refl, orb_true_r.
Qed.

(** The final step leaves alone every string that ends neither in [git] nor
    in [git/]. *)
Lemma stripGitSuffix_id (s : string) :
  endsWith s "git" = false -> endsWith s "git/" = false ->
  stripGitSuffix s = s.
Proof.
  induction s as [|c s IH]; [reflexivity|].
  intros H1 H2. rewrite stripGitSuffix_String.
  destruct (matchesDotGitAtStart (String c s)) eqn:Hm.
  - apply matchesDotGitAtStart_endsWith in Hm as [Hm|Hm]; congruence.
  - rewrite endsWith_String in H1, H2.
    apply orb_false_iff in H1 as [_ H1]. apply orb_false_iff in H2 as [_ H2].
    now rewrite (IH H1 H2).
Qed.

Lemma no_match_before_dot_git (c : ascii) (s : string) :
  matchesDotGitAtStart (String c (s ++ ".git")) = false.
Proof.
  unfold matchesDotGitAtStart.
  assert (H1 : String.eqb (s ++ ".git") "git" = false).
  { apply String.eqb_neq. intros H. apply (f_equal String.length) in H.
    rewrite length_append in H. simpl in H. lia. }
  assert (H2 : String.eqb (s ++ ".git") "git/" = false).
  { apply String.eqb_neq. intros H. destruct s as [|a s]; [discriminate|].
    apply (f_equal String.length) in H. simpl in H.
    rewrite length_append in H. simpl in H. lia. }
  now rewrite H1, H2, andb_false_r.
Qed.

Lemma no_match_before_dot_git_slash (c : ascii) (s : string) :
  matchesDotGitAtStart (String c (s ++ ".git/")) = false.
Proof.
  unfold matchesDotGitAtStart.
  assert (H1 : String.eqb (s ++ ".git/") "git" = false).
  { apply String.eqb_neq. intros H. apply (f_equal String.length) in H.
    rewrite length_append in H. simpl in H. lia. }
  assert (H2 : String.eqb (s ++ ".git/") "git/" = false).
  { apply String.eqb_neq. intros H. apply (f_equal String.length) in H.
    rewrite length_append in H. simpl in H. lia. }
  now rewrite H1, H2, andb_false_r.
Qed.

(** A trailing [.git] is removed, and nothing else. *)
Lemma stripGitSuffix_dot_git (s : string) :
  stripGitSuffix (s ++ ".git") = s.
Proof.
  induction s as [|c s IH]; [reflexivity|].
  change (String c s ++ ".git")%string with (String c (s ++ ".git")).
  now rewrite stripGitSuffix_String, no_match_before_dot_git, IH.
Qed.

(** A trailing [.git/] is removed, and nothing else. *)
Lemma stripGitSuffix_dot_git_slash (s : string) :
  stripGitSuffix (s ++ ".git/") = s.
Proof.
  induction s as [|c s IH]; [reflexivity|].
  change (String c s ++ ".git/")%string with (String c (s ++ ".git/")).
  now rewrite stripGitSuffix_String, no_match_before_dot_git_slash, IH.
Qed.

Lemma isCode_eq (n : N) (c : ascii) : isCode n c = true -> c = ascii_of_N n.
Proof.
  unfold isCode, charCode. intros H. apply N.eqb_eq in H.
  rewrite <- H. now rewrite ascii_N_embedding.
Qed.

(** The host class stops at the colon of [://]. *)
Lemma scpHostAndPath_scheme (x rest : string) :
  all (fun c => negb (isCode 58 c || isCode 47 c)) x = true ->
  scpHostAndPath (x ++ String ":" (String "/" (String "/" rest))) = None.
Proof.
  intros Hx. unfold scpHostAndPath.
  rewrite (span_append_stop _ x ":" _ Hx eq_refl).
  change (startsWith (String "/" (String "/" rest)) "//") with true.
  cbn [negb]. now rewrite andb_false_r.
Qed.

Lemma span_user_to_scheme (x rest : string) :
  all (fun c => negb (isCode 58 c || isCode 47 c)) x = true ->
  (exists u,
      span (fun c => negb (isCode 64 c || isCode 58 c || isCode 47 c))
           (x ++ String ":" (String "/" (String "/" rest)))
      = (u, String ":" (String "/" (String "/" rest))))
  \/
  (exists u x',
      span (fun c => negb (isCode 64 c || isCode 58 c || isCode 47 c))
           (x ++ String ":" (String "/" (String "/" rest)))
      = (u, String "@" (x' ++ String ":" (String "/" (String "/" rest))))
      /\ all (fun c => negb (isCode 58 c || isCode 47 c)) x' = true).
Proof.
  induction x as [|c x IH]; simpl; intros Hx.
  - left. now exists EmptyString.
  - apply andb_true_iff in Hx as [Hc Hx]. apply negb_true_iff in Hc.
    rewrite <- orb_assoc, Hc, orb_false_r.
    destruct (isCode 64 c) eqn:Hat; simpl.
    + apply isCode_eq in Hat. subst c. right. now exists EmptyString, x.
    + destruct (IH Hx) as [(u & ->) | (u & x' & -> & Hx')].
      * left. now exists (String c u).
      * right. now exists (String c u), x'.
Qed.

(** The SCP-like pattern never matches a string that starts with a scheme
    followed by [://]. *)
Lemma scp_scheme_url (scheme t : string) :
  all (fun c => negb (isCode 58 c || isCode 47 c)) scheme = true ->
  scpLikeSyntaxRegExp (scheme ++ "://" ++ t) = None.
Proof.
  intros Hx. unfold scpLikeSyntaxRegExp.
  change (scheme ++ "://" ++ t)%string
    with (scheme ++ String ":" (String "/" (String "/" t)))%string.
  destruct (span_user_to_scheme scheme t Hx) as [(u & ->) | (u & x' & -> & Hx')].
  - destruct u; now apply scpHostAndPath_scheme.
  - destruct u; [now apply scpHostAndPath_scheme|].
    rewrite (scpHostAndPath_scheme x' t Hx'). now apply scpHostAndPath_scheme.
Qed.

Lemma pathChar_no_lineTerminator (p : string) :
  all isPathChar p = true ->
  all (fun c => negb (isLineTerminator c)) p = true.
Proof. apply all_impl. intros c. char_cases c. Qed.

Lemma scpHostAndPath_host_path (h p : string) :
  all isHostNameChar h = true -> 2 <= String.length h ->
  wellFormedPath p = true ->
  scpHostAndPath (h ++ String ":" p) = Some (h, p).
Proof.
  intros Hh Hlen Hp. unfold scpHostAndPath.
  rewrite span_append_stop; [| |reflexivity].
  - unfold wellFormedPath in Hp.
    apply andb_true_iff in Hp as [Hp Hss]. apply andb_true_iff in Hp as [Hne Hp].
    rewrite Hss, Hne, (pathChar_no_lineTerminator _ Hp).
    apply Nat.leb_le in Hlen. now rewrite Hlen.
  - revert Hh. apply all_impl. intros c. char_cases c.
Qed.

Lemma scp_scpSpelling (user : option string) (h p : string) :
  wellFormedUser user = true -> wellFormedHostName h = true ->
  2 <= String.length h -> wellFormedPath p = true ->
  scpLikeSyntaxRegExp (scpSpelling user h p) = Some (h, p).
Proof.
  intros Hu Hh Hlen Hp.
  apply andb_true_iff in Hh as [_ Hh].
  unfold scpLikeSyntaxRegExp, scpSpelling.
  destruct user as [u|]; simpl in Hu |- *.
  - apply andb_true_iff in Hu as [Hne Hu].
    rewrite append_assoc. simpl.
    rewrite span_append_stop; [| |reflexivity].
    + destruct u; [discriminate|].
      now rewrite (scpHostAndPath_host_path _ _ Hh Hlen Hp).
    + revert Hu. apply all_impl. intros c. char_cases c.
  - rewrite span_append_stop; [| |reflexivity].
    + destruct h; now rewrite (scpHostAndPath_host_path _ _ Hh Hlen Hp).
    + revert Hh. apply all_impl. intros c. char_cases c.
Qed.


Lemma startsWith_slash (c : ascii) (p : string) :
  startsWith (String c p) "/" = Ascii.eqb "/" c.
Proof. cbn [startsWith]. apply andb_true_r. Qed.

Lemma leadingSlash_form (p : string) :
  wellFormedPath p = true ->
  exists p', leadingSlash p = String "/" p' /\ all isPathChar p' = true.
Proof.
  unfold wellFormedPath, leadingSlash. destruct p as [|c p]; [discriminate|].
  intros H. apply andb_true_iff in H as [H _]. apply andb_true_iff in H as [_ H].
  rewrite startsWith_slash. destruct (Ascii.eqb "/" c) eqn:E.
  - apply Ascii.eqb_eq in E. subst c. exists p. split; [reflexivity|].
    exact H.
  - exists (String c p). now split.
Qed.

Lemma trim_scheme_url (scheme : string) (user : option string) (h : string)
      (port : option string) (p : string) :
  all isCleanChar scheme = true ->
  wellFormedUser user = true -> all isHostNameChar h = true ->
  wellFormedPort port = true -> all isPathChar p = true ->
  trim (scheme ++ "://" ++ userPrefix user ++ (h ++ portSuffix port) ++ String "/" p)
  = (scheme ++ "://" ++ userPrefix user ++ (h ++ portSuffix port) ++ String "/" p)%string.
Proof.
  intros Hs Hu Hh Hport Hp. apply trim_id. apply clean_no_whitespace.
  rewrite all_append, Hs. simpl. now apply clean_tail.
Qed.

(** The steps before the final one, on a URL with a recognized scheme:
    [https://], the host as the parser reports it, and the path. *)
Lemma rebuild_scheme_url (toASCII : string -> string) (scheme : string)
      (user : option string) (h : string) (port : option string) (p : string) :
  isRecognizedScheme scheme = true ->
  wellFormedUser user = true -> all isHostNameChar h = true ->
  wellFormedPort port = true -> all isPathChar p = true ->
  rebuildGitUrl toASCII
    (scheme ++ "://" ++ userPrefix user ++ (h ++ portSuffix port) ++ String "/" p)
  = Some ("https://" ++ (toASCII (hostField h) ++ portSuffix port) ++ String "/" p)%string.
Proof.
  intros Hs Hu Hh Hport Hp.
  destruct (recognized_scheme scheme Hs) as (_ & _ & Hclean & Hnc & _ & _ & Hrec).
  unfold rebuildGitUrl.
  rewrite (scp_scheme_url scheme _ Hnc).
  rewrite (trim_scheme_url scheme user h port p Hclean Hu Hh Hport Hp).
  rewrite (parse_scheme_url toASCII scheme user h port p Hs Hu Hh Hport Hp).
  cbn [NodeUrl.protocol NodeUrl.host NodeUrl.pathname NodeUrl.hasOpt templateNull].
  now rewrite Hrec.
Qed.

Lemma schemeSpelling_form (scheme : string) (user : option string) (h : string)
      (port : option string) (p p' : string) :
  leadingSlash p = String "/" p' ->
  schemeSpelling scheme user h port p
  = (scheme ++ "://" ++ userPrefix user ++ (h ++ portSuffix port) ++ String "/" p')%string.
Proof.
  intros Hls. unfold schemeSpelling. rewrite Hls.
  now rewrite (append_assoc h (portSuffix port)).
Qed.

Lemma canonicalUrlWithPort_form (toASCII : string -> string) (h : string)
      (port : option string) (p p' : string) :
  leadingSlash p = String "/" p' ->
  ("https://" ++ (toASCII (hostField h) ++ portSuffix port) ++ String "/" p')%string
  = ("https://" ++ toASCII (hostField h) ++ portSuffix port ++ leadingSlash p)%string.
Proof.
  intros Hls. rewrite Hls. now rewrite (append_assoc (toASCII (hostField h))).
Qed.

(** The steps before the final one, on the spelling with a scheme. *)
Lemma rebuild_schemeSpelling (toASCII : string -> string) (scheme : string)
      (user : option string) (h : string) (port : option string) (p : string) :
  isRecognizedScheme scheme = true ->
  wellFormedUser user = true -> all isHostNameChar h = true ->
  wellFormedPort port = true -> wellFormedPath p = true ->
  rebuildGitUrl toASCII (schemeSpelling scheme user h port p)
  = Some ("https://" ++ toASCII (hostField h) ++ portSuffix port
            ++ leadingSlash p)%string.
Proof.
  intros Hs Hu Hh Hport Hp. destruct (leadingSlash_form p Hp) as [p' [Hls Hp']].
  rewrite (schemeSpelling_form scheme user h port p p' Hls).
  rewrite (rebuild_scheme_url toASCII scheme user h port p' Hs Hu Hh Hport Hp').
  now rewrite (canonicalUrlWithPort_form toASCII h port p p' Hls).
Qed.

(** The steps before the final one, on the SCP-like spelling. *)
Lemma rebuild_scp (toASCII : string -> string) (user : option string)
      (h p : string) :
  wellFormedUser user = true -> wellFormedHostName h = true ->
  2 <= String.length h -> wellFormedPath p = true ->
  rebuildGitUrl toASCII (scpSpelling user h p)
  = Some ("https://" ++ toASCII (hostField h) ++ leadingSlash p)%string.
Proof.
  intros Hu Hh Hlen Hp.
  pose proof Hh as Hh'. apply andb_true_iff in Hh' as [_ Hh'].
  destruct (leadingSlash_form p Hp) as [p' [Hls Hp']].
  pose proof (rebuild_scheme_url toASCII "https" None h None p'
                eq_refl eq_refl Hh' eq_refl Hp') as Hparse.
  unfold rebuildGitUrl in Hparse |- *.
  rewrite (scp_scpSpelling user h p Hu Hh Hlen Hp).
  assert (Hre : (if startsWith p "/" then ("https://" ++ h ++ p)%string
                 else ("https://" ++ h ++ "/" ++ p)%string)
                = ("https" ++ "://" ++ userPrefix None ++ (h ++ portSuffix None)
                     ++ String "/" p')%string).
  { cbn [userPrefix portSuffix]. rewrite append_nil_r.
    rewrite <- Hls. unfold leadingSlash. now destruct (startsWith p "/"). }
  rewrite Hre.
  rewrite (scp_scheme_url "https" _ eq_refl) in Hparse.
  rewrite (trim_scheme_url "https" None h None p' eq_refl eq_refl Hh' eq_refl Hp')
    in Hparse.
  destruct (NodeUrl.parse toASCII _) as [u|]; [|discriminate].
  rewrite Hparse. cbn [portSuffix]. rewrite append_nil_r. now rewrite Hls.
Qed.

(** The steps before the final one, on a URL written in a form. *)
Lemma rebuild_writeUrl (toASCII : string -> string) (form : UrlForm)
      (user : option string) (h p : string) :
  wellFormedForm form h = true ->
  wellFormedUser user = true -> wellFormedHostName h = true ->
  wellFormedPath p = true ->
  rebuildGitUrl toASCII (writeUrl form user h p)
  = Some ("https://" ++ toASCII (hostField h) ++ portSuffix (portOf form)
            ++ leadingSlash p)%string.
Proof.
  intros Hform Hu Hh Hp.
  pose proof Hh as Hh'. apply andb_true_iff in Hh' as [_ Hh'].
  destruct form as [|scheme port]; cbn [wellFormedForm writeUrl portOf] in *.
  - apply Nat.leb_le in Hform. cbn [portSuffix].
    change (EmptyString ++ leadingSlash p)%string with (leadingSlash p).
    now apply rebuild_scp.
  - apply andb_true_iff in Hform as [Hs Hport].
    now apply rebuild_schemeSpelling.
Qed.

Lemma rebuild_spell (toASCII : string -> string) (sp : Spelling)
      (user : option string) (h p : string) :
  wellFormedUser user = true -> wellFormedHostName h = true ->
  2 <= String.length h -> wellFormedPath p = true ->
  rebuildGitUrl toASCII (spell sp user h p)
  = Some ("https://" ++ toASCII (hostField h) ++ leadingSlash p)%string.
Proof.
  intros Hu Hh Hlen Hp.
  pose proof Hh as Hh'. apply andb_true_iff in Hh' as [_ Hh'].
  destruct sp; simpl.
  - now apply rebuild_scp.
  - exact (rebuild_schemeSpelling toASCII "ssh" user h None p eq_refl Hu Hh' eq_refl Hp).
  - exact (rebuild_schemeSpelling toASCII "https" None h None p
             eq_refl eq_refl Hh' eq_refl Hp).
Qed.

Lemma normalize_spell (toASCII : string -> string) (sp : Spelling)
      (user : option string) (h p : string) :
  wellFormedUser user = true -> wellFormedHostName h = true ->
  2 <= String.length h -> wellFormedPath p = true ->
  normalizeGitUrlForComparison toASCII (spell sp user h p)
  = Some (stripGitSuffix
            ("https://" ++ toASCII (hostField h) ++ leadingSlash p)%string).
Proof.
  intros Hu Hh Hlen Hp. unfold normalizeGitUrlForComparison.
  now rewrite rebuild_spell.
Qed.

Lemma normalize_writeUrl (toASCII : string -> string) (form : UrlForm)
      (user : option string) (h p : string) :
  wellFormedForm form h = true ->
  wellFormedUser user = true -> wellFormedHostName h = true ->
  wellFormedPath p = true ->
  toASCII (hostField h) = hostField h ->
  normalizeGitUrlForComparison toASCII (writeUrl form user h p)
  = Some (stripGitSuffix (canonicalUrlWithPort h (portOf form) p)).
Proof.
  intros Hform Hu Hh Hp Hfix. unfold normalizeGitUrlForComparison.
  rewrite rebuild_writeUrl by assumption.
  unfold canonicalUrlWithPort. now rewrite Hfix.
Qed.

Lemma toLowerChar_idem (c : ascii) : toLowerChar (toLowerChar c) = toLowerChar c.
Proof. char_cases c. Qed.

Lemma toLowerCase_idem (s : string) : toLowerCase (toLowerCase s) = toLowerCase s.
Proof.
  unfold toLowerCase. induction s as [|c s IH]; simpl; [reflexivity|].
  now rewrite toLowerChar_idem, IH.
Qed.

Lemma toLowerCase_hostName (s : string) :
  all isHostNameChar s = true -> all isHostNameChar (toLowerCase s) = true.
Proof.
  unfold toLowerCase. induction s as [|c s IH]; simpl; [reflexivity|].
  intros H. apply andb_true_iff in H as [Hc Hs]. rewrite (IH Hs), andb_true_r.
  revert Hc. char_cases c.
Qed.

Lemma hostField_hostName (h : string) :
  all isHostNameChar h = true -> all isHostNameChar (hostField h) = true.
Proof.
  intros H. unfold hostField.
  destruct (Nat.ltb NodeUrl.hostnameMaxLen (String.length h)); [reflexivity|].
  now apply toLowerCase_hostName.
Qed.

Lemma hostField_idem (h : string) : hostField (hostField h) = hostField h.
Proof.
  unfold hostField.
  destruct (Nat.ltb NodeUrl.hostnameMaxLen (String.length h)) eqn:E;
    [reflexivity|].
  unfold toLowerCase at 1. rewrite length_mapChars, E.
  apply toLowerCase_idem.
Qed.

(** The canonical URL is a fixed point of the steps before the final one. *)
Lemma rebuild_canonical (toASCII : string -> string) (h : string)
      (port : option string) (p : string) :
  all isHostNameChar h = true -> wellFormedPort port = true ->
  wellFormedPath p = true ->
  toASCII (hostField h) = hostField h ->
  rebuildGitUrl toASCII (canonicalUrlWithPort h port p)
  = Some (canonicalUrlWithPort h port p).
Proof.
  intros Hh Hport Hp Hfix.
  change (canonicalUrlWithPort h port p)
    with (schemeSpelling "https" None (hostField h) port p) at 1.
  rewrite rebuild_schemeSpelling by (auto using hostField_hostName).
  unfold canonicalUrlWithPort. now rewrite hostField_idem, Hfix.
Qed.

Lemma leadingSlash_append (q t : string) :
  truthy q = true -> leadingSlash (q ++ t) = (leadingSlash q ++ t)%string.
Proof.
  destruct q as [|c q]; [discriminate|]. intros _.
  unfold leadingSlash.
  change (String c q ++ t)%string with (String c (q ++ t)).
  rewrite !startsWith_slash. now destruct (Ascii.eqb "/" c).
Qed.

Lemma canonicalUrlWithPort_append (h : string) (port : option string)
      (q t : string) :
  truthy q = true ->
  canonicalUrlWithPort h port (q ++ t)
  = (canonicalUrlWithPort h port q ++ t)%string.
Proof.
  intros Hq. unfold canonicalUrlWithPort.
  now rewrite (leadingSlash_append _ _ Hq), <- !append_assoc.
Qed.

Lemma wellFormedPath_suffix (q : string) (sfx : GitSuffix) :
  wellFormedPath q = true -> wellFormedPath (q ++ suffixText sfx) = true.
Proof.
  unfold wellFormedPath. intros H.
  apply andb_true_iff in H as [H Hss]. apply andb_true_iff in H as [Hne Hq].
  apply negb_true_iff in Hss.
  destruct q as [|c q]; [discriminate|].
  assert (Ha : all isPathChar (String c q ++ suffixText sfx) = true)
    by (rewrite all_append, Hq; now destruct sfx).
  assert (Hn : startsWith (String c q ++ suffixText sfx) "//" = false).
  { destruct q as [|d q]; [|exact Hss].
    destruct c as [[] [] [] [] [] [] [] []]; destruct sfx; reflexivity. }
  now rewrite Ha, Hn.
Qed.

(** On a canonical URL that ends neither in [git] nor in [git/], followed by
    nothing, by [.git] or by [.git/], the final step removes exactly what
    follows. *)
Lemma stripGitSuffix_canonical (y : string) (sfx : GitSuffix) :
  endsWith y "git" = false -> endsWith y "git/" = false ->
  stripGitSuffix (y ++ suffixText sfx) = y.
Proof.
  intros H1 H2. destruct sfx; simpl.
  - rewrite append_nil_r. now apply stripGitSuffix_id.
  - apply stripGitSuffix_dot_git.
  - apply stripGitSuffix_dot_git_slash.
Qed.

End UrlNormalizerFacts.

(* ================================================================== *)
(** ** Properties of [normalizeGitUrlForComparison] *)
(* ================================================================== *)

Module UrlNormalizerSpec.
Import JsString StringFacts UrlForms UrlNormalizer UrlNormalizerFacts.

(** The example of the documentation of the method. *)
Example normalize_documented_example :
  normalizeGitUrlForComparison plainToASCII
    "git@github.com:ExampleOrg/ExampleProject.git"
  = Some "https://github.com/ExampleOrg/ExampleProject".
Proof. vm_compute. reflexivity. Qed.

Example normalize_https_with_suffix :
  normalizeGitUrlForComparison plainToASCII "https://github.com/Org/Repo.git/"
  = Some "https://github.com/Org/Repo".
Proof. vm_compute. reflexivity. Qed.

(** Credentials, query and fragment are dropped; the port stays in the host. *)
Example normalize_drops_credentials :
  normalizeGitUrlForComparison plainToASCII
    "ssh://git:pw@GitHub.com:2222/Org/Repo.git?a=b#c"
  = Some "https://github.com:2222/Org/Repo".
Proof. vm_compute. reflexivity. Qed.

(** A Windows path and an unknown scheme pass through. *)
Example normalize_windows_path :
  normalizeGitUrlForComparison plainToASCII "c:/windows/path.txt"
  = Some "c:/windows/path.txt".
Proof. vm_compute. reflexivity. Qed.

Example normalize_unknown_scheme :
  normalizeGitUrlForComparison plainToASCII "file:///srv/repo.git"
  = Some "file:///srv/repo".
Proof. vm_compute. reflexivity. Qed.

(** Credentials that are not a well-formed percent-encoding make [url.parse]
    throw, and with it the normalizer. *)
Example normalize_throws_on_malformed_credentials :
  normalizeGitUrlForComparison plainToASCII "https://100%@github.com/org/repo.git"
  = None.
Proof. vm_compute. reflexivity. Qed.

(** C1 (defect of the code).  The comment above the final step reads "Trim
    [.git] or [.git/] from the end", but the dot of the regular expression is
    not escaped and matches any character.  On [https://github.com/git/git],
    whose host the IDNA conversion leaves as it is, the steps before the
    final one return the URL as it is; it ends neither in [.git] nor in
    [.git/]; yet the final step removes [/git]. *)
Theorem stripGitSuffix_cuts_plain_git (toASCII : string -> string) :
  toASCII "github.com" = "github.com" ->
  rebuildGitUrl toASCII "https://github.com/git/git"
    = Some "https://github.com/git/git" /\
  endsWith "https://github.com/git/git" ".git" = false /\
  endsWith "https://github.com/git/git" ".git/" = false /\
  stripGitSuffix "https://github.com/git/git" = "https://github.com/git" /\
  normalizeGitUrlForComparison toASCII "https://github.com/git/git"
    = Some "https://github.com/git".
Proof.
  intros Hfix.
  assert (Hrebuild : rebuildGitUrl toASCII "https://github.com/git/git"
                     = Some "https://github.com/git/git").
  { change "https://github.com/git/git"
      with (schemeSpelling "https" None "github.com" None "git/git") at 1.
    rewrite rebuild_schemeSpelling by reflexivity.
    change (hostField "github.com") with "github.com". now rewrite Hfix. }
  split; [exact Hrebuild|].
  do 3 (split; [reflexivity|]).
  unfold normalizeGitUrlForComparison. now rewrite Hrebuild.
Qed.

(** C1 with the host left as it is. *)
Lemma stripGitSuffix_cuts_plain_git_witness :
  plainToASCII "github.com" = "github.com" /\
  rebuildGitUrl plainToASCII "https://github.com/git/git"
    = Some "https://github.com/git/git" /\
  endsWith "https://github.com/git/git" ".git" = false /\
  endsWith "https://github.com/git/git" ".git/" = false /\
  stripGitSuffix "https://github.com/git/git" = "https://github.com/git" /\
  normalizeGitUrlForComparison plainToASCII "https://github.com/git/git"
    = Some "https://github.com/git".
Proof.
  split; [reflexivity|].
  apply (stripGitSuffix_cuts_plain_git plainToASCII). reflexivity.
Defined.




(** C4, as stated, fails: a host of one character without a user is not
    taken for the SCP-like syntax (the pattern asks for two characters, so
    that a Windows drive letter is not mistaken for a host), and the string
    is returned as it is. *)
Lemma one_letter_host_spellings_differ :
  wellFormedHostName "x" = true /\
  wellFormedPath "repo" = true /\
  normalizeGitUrlForComparison plainToASCII (spell ScpLike None "x" "repo")
    = Some "x:repo" /\
  normalizeGitUrlForComparison plainToASCII (spell Https None "x" "repo")
    = Some "https://x/repo" /\
  normalizeGitUrlForComparison plainToASCII (spell ScpLike None "x" "repo")
    <> normalizeGitUrlForComparison plainToASCII (spell Https None "x" "repo").
Proof. vm_compute. repeat split. discriminate. Qed.

(** C4, amended.  For a host name of at least two characters, any two of the
    SCP-like, [ssh://] and [https://] spellings of the same host and path
    are normalized to equal strings, whatever the IDNA conversion makes of
    the host: each of them to [https://], the converted host and the path,
    with the final step applied. *)
Theorem spellings_normalize_equal
        (toASCII : string -> string) (sp1 sp2 : Spelling) (user : option string)
        (host path : string) :
  wellFormedUser user = true ->
  wellFormedHostName host = true ->
  2 <= String.length host ->
  wellFormedPath path = true ->
  normalizeGitUrlForComparison toASCII (spell sp1 user host path)
  = normalizeGitUrlForComparison toASCII (spell sp2 user host path)
  /\ normalizeGitUrlForComparison toASCII (spell sp1 user host path)
     = Some (stripGitSuffix
               ("https://" ++ toASCII (hostField host) ++ leadingSlash path)%string).
Proof.
  intros Hu Hh Hlen Hp. now rewrite !normalize_spell.
Qed.

(** The amended C4 on [git@github.com:Org/Repo.git] and its [ssh://]
    spelling. *)
Lemma spellings_normalize_equal_witness :
  wellFormedUser (Some "git") = true /\
  wellFormedHostName "github.com" = true /\
  2 <= String.length "github.com" /\
  wellFormedPath "Org/Repo.git" = true /\
  (normalizeGitUrlForComparison plainToASCII
     (spell ScpLike (Some "git") "github.com" "Org/Repo.git")
   = normalizeGitUrlForComparison plainToASCII
       (spell Ssh (Some "git") "github.com" "Org/Repo.git")
   /\ normalizeGitUrlForComparison plainToASCII
        (spell ScpLike (Some "git") "github.com" "Org/Repo.git")
      = Some (stripGitSuffix
                ("https://" ++ plainToASCII (hostField "github.com")
                   ++ leadingSlash "Org/Repo.git")%string)).
Proof.
  assert (Hlen : 2 <= String.length "github.com") by (simpl; lia).
  do 4 (split; [first [exact Hlen | vm_compute; reflexivity]|]).
  apply (spellings_normalize_equal plainToASCII ScpLike Ssh (Some "git")
           "github.com" "Org/Repo.git");
    first [exact Hlen | vm_compute; reflexivity].
Defined.

End UrlNormalizerSpec.

(* ================================================================== *)
(** ** Facts about the [Git] class *)
(* ================================================================== *)

Module GitFacts.
Import JsString GitModel GitSpec.
Local Open Scope git_scope.

Lemma state_eta (st : State) : mkState (self st) (trace st) = st.
Proof. now destruct st. Qed.

Section WithEnv.
Variable env : Env.

(** [bind] runs its second part from the state that the first part leaves. *)
Lemma bind_returned {A B} (m : M A) (k : A -> M B) (st st' : State) (a : A) :
  m st = (Returned a, st') -> bind m k st = k a st'.
Proof. intros H. unfold bind. now rewrite H. Qed.

Lemma bind_threw {A B} (m : M A) (k : A -> M B) (st st' : State) (e : Exn) :
  m st = (Threw e, st') -> bind m k st = (Threw e, st').
Proof. intros H. unfold bind. now rewrite H. Qed.

(** Once the path of Git is known to the instance, the getter answers from
    the fields and leaves the state as it is. *)
Lemma getGitPathOrThrow_cached (st : State) (gp : string) :
  _checkedGitPath (self st) = true -> _gitPath (self st) = Some gp ->
  truthy gp = true ->
  getGitPathOrThrow env st = (Returned gp, st).
Proof.
  intros Hc Hp Ht. unfold getGitPathOrThrow, gitPath, bind, getSelf, ret.
  now rewrite Hc, Hp, Ht.
Qed.

(** When the getter returns, the path is known to the instance; only the two
    path fields may have changed, and at most the search of the PATH has
    been added to the trace. *)
Lemma getGitPathOrThrow_returned (st st1 : State) (gp : string) :
  getGitPathOrThrow env st = (Returned gp, st1) ->
  truthy gp = true /\
  _checkedGitPath (self st1) = true /\ _gitPath (self st1) = Some gp /\
  _rushConfiguration (self st1) = _rushConfiguration (self st) /\
  _gitEmailResult (self st1) = _gitEmailResult (self st) /\
  _gitHooksPath (self st1) = _gitHooksPath (self st) /\
  (trace st1 = trace st \/ trace st1 = trace st ++ [TryResolveGit]).
Proof.
  unfold getGitPathOrThrow, gitPath, bind, getSelf, ret, modifySelf, call, throw.
  destruct (_checkedGitPath (self st)) eqn:Hc.
  - destruct (_gitPath (self st)) as [p|] eqn:Hp; [|discriminate].
    destruct (truthy p) eqn:Ht; [|discriminate].
    intros H. injection H as <- <-. repeat split; auto.
  - destruct (truthyOpt (gitBinaryPath env)); simpl.
    + destruct (gitBinaryPath env) as [p|]; [|discriminate].
      destruct (truthy p) eqn:Ht; [|discriminate].
      intros H. injection H as <- <-. simpl. repeat split; auto.
    + destruct (tryResolve env (trace st)) as [p|]; [|discriminate].
      destruct (truthy p) eqn:Ht; [|discriminate].
      intros H. injection H as <- <-. simpl. repeat split; auto.
Qed.

(** The getter throws one error only, and then no cache slot has changed. *)
Lemma getGitPathOrThrow_threw (st st1 : State) (e : Exn) :
  getGitPathOrThrow env st = (Threw e, st1) ->
  e = Error "Git is not present" /\
  _rushConfiguration (self st1) = _rushConfiguration (self st) /\
  _gitEmailResult (self st1) = _gitEmailResult (self st) /\
  (trace st1 = trace st \/ trace st1 = trace st ++ [TryResolveGit]).
Proof.
  unfold getGitPathOrThrow, gitPath, bind, getSelf, ret, modifySelf, call, throw.
  destruct (_checkedGitPath (self st)) eqn:Hc.
  - destruct (_gitPath (self st)) as [p|] eqn:Hp;
      [destruct (truthy p) eqn:Ht; [discriminate|]|];
      intros H; injection H as <- <-; repeat split; auto.
  - destruct (truthyOpt (gitBinaryPath env)); simpl.
    + destruct (gitBinaryPath env) as [p|];
        [destruct (truthy p) eqn:Ht; [discriminate|]|];
        intros H; injection H as <- <-; simpl; repeat split; auto.
    + destruct (tryResolve env (trace st)) as [p|];
        [destruct (truthy p) eqn:Ht; [discriminate|]|];
        intros H; injection H as <- <-; simpl; repeat split; auto.
Qed.

(** A command that the collaborator answers. *)
Lemma execute_returned (st : State) (gp : string) (args : list string) (out : string) :
  executeCommandAndCaptureOutput env (trace st) gp args (cwdOf st) = inr out ->
  _executeGitCommandAndCaptureOutput env gp args None st
  = (Returned out,
     mkState (self st) (trace st ++ [ExecuteCommand gp args (cwdOf st)])).
Proof.
  intros H. unfold _executeGitCommandAndCaptureOutput, bind, getSelf, tryCatch, call.
  fold (cwdOf st). now rewrite H.
Qed.

(** A command that the collaborator fails: the version check runs, then the
    error of the command is thrown again, unless the check throws its own. *)
Lemma execute_threw (st : State) (gp : string) (args : list string) (e : Exn) :
  executeCommandAndCaptureOutput env (trace st) gp args (cwdOf st) = inl e ->
  _executeGitCommandAndCaptureOutput env gp args None st
  = (Threw (match ensureGitMinimumVersion env
                    (trace st ++ [ExecuteCommand gp args (cwdOf st)]) gp with
            | Some e' => e'
            | None => e
            end),
     mkState (self st)
             (trace st ++ [ExecuteCommand gp args (cwdOf st);
                           EnsureGitMinimumVersion gp])).
Proof.
  intros H.
  unfold _executeGitCommandAndCaptureOutput, bind, getSelf, tryCatch, call, throw.
  fold (cwdOf st). rewrite H. simpl.
  rewrite <- app_assoc. simpl.
  now destruct (ensureGitMinimumVersion env _ gp).
Qed.

End WithEnv.

End GitFacts.

(* ================================================================== *)
(** ** Properties of the [Git] class *)
(* ================================================================== *)

Module GitProperties.
Import JsString GitModel GitSpec GitFacts.
Local Open Scope git_scope.

(** C8.  With no repository URL configured, [getRemoteDefaultBranch] prints
    the warning and returns the configured default fully-qualified remote
    branch; the warning is the only event, so no Git command runs, and the
    instance is left as it was. *)
Theorem getRemoteDefaultBranch_without_urls (env : Env) (st : State) :
  repositoryUrls (_rushConfiguration (self st)) = [] ->
  getRemoteDefaultBranch env st
  = (Returned (repositoryDefaultFullyQualifiedRemoteBranch
                 (_rushConfiguration (self st))),
     mkState (self st) (trace st ++ [ConsoleLog (yellow env noRemoteUrlText)]))
  /\ filter isGitInvocation (trace (snd (getRemoteDefaultBranch env st)))
     = filter isGitInvocation (trace st).
Proof.
  intros Hurls.
  assert (Hrun : getRemoteDefaultBranch env st
    = (Returned (repositoryDefaultFullyQualifiedRemoteBranch
                   (_rushConfiguration (self st))),
       mkState (self st) (trace st ++ [ConsoleLog (yellow env noRemoteUrlText)]))).
  { unfold getRemoteDefaultBranch, bind, getSelf. now rewrite Hurls. }
  split; [exact Hrun|].
  rewrite Hrun. simpl. rewrite filter_app. simpl. apply app_nil_r.
Qed.

(** C8 on a new instance without repository URLs. *)
Lemma getRemoteDefaultBranch_without_urls_witness :
  repositoryUrls (_rushConfiguration (self freshState)) = [] /\
  (getRemoteDefaultBranch failingEnv freshState
   = (Returned (repositoryDefaultFullyQualifiedRemoteBranch
                  (_rushConfiguration (self freshState))),
      mkState (self freshState)
              (trace freshState ++ [ConsoleLog (yellow failingEnv noRemoteUrlText)]))
   /\ filter isGitInvocation
        (trace (snd (getRemoteDefaultBranch failingEnv freshState)))
      = filter isGitInvocation (trace freshState)).
Proof.
  split; [reflexivity|].
  apply (getRemoteDefaultBranch_without_urls failingEnv freshState). reflexivity.
Defined.

(** The baseline URL [https://github.com/org/repo] is matched by the remote
    [origin], configured as [git@github.com:org/repo.git]. *)
Example getRemoteDefaultBranch_matches_origin :
  fst (getRemoteDefaultBranch remotesEnv
         (initialState (sampleConfiguration ["https://github.com/org/repo"])))
  = Returned "origin/main".
Proof. vm_compute. reflexivity. Qed.

(** With a good answer of [git config user.email], the address is returned. *)
Example getGitEmail_returns_address :
  fst (getGitEmail diffEnv freshState) = Returned "bob@x.y".
Proof. vm_compute. reflexivity. Qed.

Lemma changedFileOfLine_prefix (env : Env) (pathPrefix line : string) :
  changedFileOfLine env (Some pathPrefix) line = changedFileOfLine env None line
  \/ changedFileOfLine env (Some pathPrefix) line = None.
Proof.
  unfold changedFileOfLine. destruct (truthy line); [|now left].
  destruct (negb (truthy pathPrefix) || isUnderOrEqual env (trim line) pathPrefix);
    [now left | now right].
Qed.

Lemma changedFiles_subsequence (env : Env) (pathPrefix output : string) :
  Subsequence (changedFilesOfOutput env (Some pathPrefix) output)
              (changedFilesOfOutput env None output).
Proof.
  unfold changedFilesOfOutput.
  induction (splitLines output) as [|line lines IH]; cbn [map filter];
    [constructor|].
  destruct (changedFileOfLine_prefix env pathPrefix line) as [-> | ->].
  - destruct (isKeptLine (changedFileOfLine env None line)); cbn [map];
      [now constructor | exact IH].
  - cbn [isKeptLine].
    destruct (isKeptLine (changedFileOfLine env None line)); cbn [map];
      [now constructor | exact IH].
Qed.

(** C5.  On the same state, and so on the same output of [git diff],
    [getChangedFiles] with a path prefix and without one end in the same
    state; both throw the same error, or both return, and then the list
    with the prefix is a subsequence of the list without it. *)
Theorem getChangedFiles_prefix_subsequence
        (env : Env) (st : State) (targetBranch : string) (skipFetch : bool)
        (pathPrefix : string) :
  match getChangedFiles env targetBranch skipFetch (Some pathPrefix) st,
        getChangedFiles env targetBranch skipFetch None st with
  | (Returned filtered, st1), (Returned unfiltered, st0) =>
      Subsequence filtered unfiltered /\ st1 = st0
  | (Threw e1, st1), (Threw e0, st0) => e1 = e0 /\ st1 = st0
  | _, _ => False
  end.
Proof.
  unfold getChangedFiles, bind.
  destruct ((if negb skipFetch then _fetchRemoteBranch env targetBranch else ret tt) st)
    as [[[]|e] st1]; [|now split].
  destruct (getGitPathOrThrow env st1) as [[gp|e] st2]; [|now split].
  destruct (_executeGitCommandAndCaptureOutput env gp _ None st2)
    as [[output|e] st3]; [|now split].
  simpl. split; [apply changedFiles_subsequence | reflexivity].
Qed.

Lemma ltb_length_truthy (s : string) : Nat.ltb 0 (String.length s) = truthy s.
Proof. now destruct s. Qed.

(** C6, as stated, fails: a line is not trimmed on its own; with the output
    [sampleUntrackedOutput] of [ls-files] the entry of the first file keeps
    its trailing space. *)
Lemma getUncommittedChanges_keeps_untrimmed_line :
  fst (getUncommittedChanges untrackedEnv freshState) = Returned ["a "; "b"] /\
  uncommittedChangesAsClaimed sampleUntrackedOutput EmptyString = ["a"; "b"] /\
  fst (getUncommittedChanges untrackedEnv freshState)
    <> Returned (uncommittedChangesAsClaimed sampleUntrackedOutput EmptyString).
Proof. vm_compute. repeat split. discriminate. Qed.

(** C6, amended.  When Git is found and the two queries answer,
    [getUncommittedChanges] returns the entries of the untracked-files
    output followed by the entries of the diff-against-HEAD output, where
    each output is trimmed as a whole and split on newlines and the entries
    that are blank are removed (an entry that is kept is returned as it is);
    two empty outputs give the empty list. *)
Theorem getUncommittedChanges_of_outputs
        (env : Env) (st st1 : State) (gp untracked diff : string) :
  getGitPathOrThrow env st = (Returned gp, st1) ->
  executeCommandAndCaptureOutput env (trace st1) gp
    ["ls-files"; "--exclude-standard"; "--others"] (cwdOf st1) = inr untracked ->
  executeCommandAndCaptureOutput env
    (trace st1 ++ [ExecuteCommand gp ["ls-files"; "--exclude-standard"; "--others"]
                                  (cwdOf st1)])
    gp ["diff"; "HEAD"; "--name-only"] (cwdOf st1) = inr diff ->
  fst (getUncommittedChanges env st)
    = Returned (uncommittedChangesOfOutputs untracked diff)
  /\ uncommittedChangesOfOutputs EmptyString EmptyString = [].
Proof.
  intros Hgit Hls Hdiff.
  destruct (getGitPathOrThrow_returned env st st1 gp Hgit)
    as (Ht & Hc & Hp & _).
  split; [|reflexivity].
  unfold getUncommittedChanges, _getUntrackedChanges, _getDiffOnHEAD, bind, ret.
  rewrite Hgit, (execute_returned env st1 gp _ _ Hls).
  set (st2 := mkState (self st1) _).
  rewrite (getGitPathOrThrow_cached env st2 gp Hc Hp Ht).
  rewrite (execute_returned env st2 gp _ diff Hdiff).
  unfold uncommittedChangesOfOutputs. simpl. f_equal.
  apply filter_ext. intros change. apply ltb_length_truthy.
Qed.

(** The amended C6 on a new instance, with [sampleUntrackedOutput]. *)
Lemma getUncommittedChanges_of_outputs_witness :
  getGitPathOrThrow untrackedEnv freshState
    = (Returned "/usr/bin/git", snd (getGitPathOrThrow untrackedEnv freshState)) /\
  fst (getUncommittedChanges untrackedEnv freshState)
    = Returned (uncommittedChangesOfOutputs sampleUntrackedOutput EmptyString) /\
  uncommittedChangesOfOutputs EmptyString EmptyString = [].
Proof.
  split; [reflexivity|].
  apply (getUncommittedChanges_of_outputs untrackedEnv freshState
           (snd (getGitPathOrThrow untrackedEnv freshState)) "/usr/bin/git"
           sampleUntrackedOutput EmptyString); reflexivity.
Defined.

Lemma indexOfChar_append (c : ascii) (a b : string) :
  indexOfChar c a = None ->
  indexOfChar c (a ++ String c b) = Some (String.length a).
Proof.
  induction a as [|x a IH]; simpl.
  - intros _. now rewrite Ascii.eqb_refl.
  - destruct (Ascii.eqb x c); [discriminate|].
    destruct (indexOfChar c a); [discriminate|].
    intros _. now rewrite IH.
Qed.

Lemma indexOfChar_remoteBranch (remote branch : string) :
  indexOfChar "/" remote = None ->
  indexOfChar "/" (remoteBranch remote branch) = Some (String.length remote).
Proof. intros H. now apply indexOfChar_append. Qed.

Lemma substr_remoteBranch (remote branch : string) :
  substr 0 (String.length remote) (remoteBranch remote branch) = remote.
Proof. unfold substr, remoteBranch. simpl drop. apply StringFacts.take_append. Qed.

Lemma substrFrom_remoteBranch (remote branch : string) :
  substrFrom (String.length remote + 1) (remoteBranch remote branch) = branch.
Proof.
  unfold substrFrom, remoteBranch.
  now rewrite (StringFacts.drop_add_append 1 remote).
Qed.

(** For a branch name without [/] the fetch step throws at its guard, once
    the announcement is printed and before Git is looked up. *)
Lemma fetch_throws_at_guard (env : Env) (st : State) (name : string) :
  indexOfChar "/" name = None ->
  _fetchRemoteBranch env name st
  = (Threw (branchFormatError name), afterFetchAnnouncement st name).
Proof.
  intros Hname.
  unfold _fetchRemoteBranch, _tryFetchRemoteBranch, consoleLog, emit, bind, throw.
  fold (afterFetchAnnouncement st name). now rewrite Hname.
Qed.

(** C3, as stated, fails: for a branch name without [/] the fetch step
    throws before Git is looked up, and the caller's operation is aborted:
    the announcement of the fetch is the only event. *)
Lemma fetch_throws_without_slash :
  getMergeBase diffEnv "main" true freshState
  = (Threw (Error "Unexpected git remote branch format: main. Expected branch to be in the <remote>/<branch name> format."),
     afterFetchAnnouncement freshState "main") /\
  getChangedFiles diffEnv "main" false None freshState
  = (Threw (Error "Unexpected git remote branch format: main. Expected branch to be in the <remote>/<branch name> format."),
     afterFetchAnnouncement freshState "main").
Proof. vm_compute. split; reflexivity. Qed.

(** C3, amended.  For a branch name of the form [<remote>/<branch name>],
    when Git is found and the fetch ends with a status other than zero, the
    fetch step returns after writing the warning to the terminal, and
    [getMergeBase] (with [shouldFetch]) and [getChangedFiles] (without
    [skipFetch]) go on as they do without a fetch.  For every branch name
    without [/], the fetch step throws the error [Unexpected git remote
    branch format: <name>. Expected branch to be in the <remote>/<branch
    name> format.], and [getMergeBase] (with [shouldFetch]) and
    [getChangedFiles] (without [skipFetch]) throw that error too; the
    announcement of the fetch is the only event. *)
Theorem fetch_failure_warns_and_continues :
  (forall (env : Env) (st st1 : State) (remote branch gp : string)
          (status : option nat) (pathPrefix : option string),
     indexOfChar "/" remote = None ->
     getGitPathOrThrow env (afterFetchAnnouncement st (remoteBranch remote branch))
       = (Returned gp, st1) ->
     spawnSync env (trace st1) gp ["fetch"; remote; branch] = inr status ->
     status <> Some 0 ->
     _fetchRemoteBranch env (remoteBranch remote branch) st
       = (Returned tt, afterFetchWarning st1 gp remote branch) /\
     getMergeBase env (remoteBranch remote branch) true st
       = getMergeBase env (remoteBranch remote branch) false
           (afterFetchWarning st1 gp remote branch) /\
     getChangedFiles env (remoteBranch remote branch) false pathPrefix st
       = getChangedFiles env (remoteBranch remote branch) true pathPrefix
           (afterFetchWarning st1 gp remote branch))
  /\
  (forall (env : Env) (st : State) (name : string) (pathPrefix : option string),
     indexOfChar "/" name = None ->
     _fetchRemoteBranch env name st
       = (Threw (branchFormatError name), afterFetchAnnouncement st name) /\
     getMergeBase env name true st
       = (Threw (branchFormatError name), afterFetchAnnouncement st name) /\
     getChangedFiles env name false pathPrefix st
       = (Threw (branchFormatError name), afterFetchAnnouncement st name)).
Proof.
  split.
  - intros env st st1 remote branch gp status pathPrefix Hremote Hgit Hspawn Hstatus.
    assert (Hfetch : _fetchRemoteBranch env (remoteBranch remote branch) st
                     = (Returned tt, afterFetchWarning st1 gp remote branch)).
    { unfold _fetchRemoteBranch, _tryFetchRemoteBranch, consoleLog, emit, bind, call, ret.
      fold (afterFetchAnnouncement st (remoteBranch remote branch)).
      rewrite (indexOfChar_remoteBranch remote branch Hremote), Hgit.
      rewrite substr_remoteBranch, substrFrom_remoteBranch.
      rewrite Hspawn. unfold afterFetchWarning.
      destruct status as [[|n]|]; [congruence| |];
        simpl; now rewrite <- app_assoc. }
    split; [exact Hfetch|].
    unfold getMergeBase, getChangedFiles. simpl negb. cbv iota.
    split.
    + now rewrite (bind_returned _ _ _ _ _ Hfetch).
    + now rewrite (bind_returned _ _ _ _ _ Hfetch).
  - intros env st name pathPrefix Hname.
    pose proof (fetch_throws_at_guard env st name Hname) as Hfetch.
    split; [exact Hfetch|].
    unfold getMergeBase, getChangedFiles. simpl negb. cbv iota.
    unfold bind. now rewrite Hfetch.
Qed.

(** The amended C3 on [origin/main], with a fetch that exits with status 1,
    and on [main]. *)
Lemma fetch_failure_warns_and_continues_witness :
  (indexOfChar "/" "origin" = None /\
   spawnSync diffEnv
     (trace (snd (getGitPathOrThrow diffEnv
                    (afterFetchAnnouncement freshState (remoteBranch "origin" "main")))))
     "/usr/bin/git" ["fetch"; "origin"; "main"] = inr (Some 1) /\
   Some 1 <> Some 0 /\
   (_fetchRemoteBranch diffEnv (remoteBranch "origin" "main") freshState
     = (Returned tt,
        afterFetchWarning
          (snd (getGitPathOrThrow diffEnv
                  (afterFetchAnnouncement freshState (remoteBranch "origin" "main"))))
          "/usr/bin/git" "origin" "main") /\
    getMergeBase diffEnv (remoteBranch "origin" "main") true freshState
     = getMergeBase diffEnv (remoteBranch "origin" "main") false
         (afterFetchWarning
            (snd (getGitPathOrThrow diffEnv
                    (afterFetchAnnouncement freshState (remoteBranch "origin" "main"))))
            "/usr/bin/git" "origin" "main") /\
    getChangedFiles diffEnv (remoteBranch "origin" "main") false None freshState
     = getChangedFiles diffEnv (remoteBranch "origin" "main") true None
         (afterFetchWarning
            (snd (getGitPathOrThrow diffEnv
                    (afterFetchAnnouncement freshState (remoteBranch "origin" "main"))))
            "/usr/bin/git" "origin" "main")))
  /\
  (indexOfChar "/" "main" = None /\
   _fetchRemoteBranch diffEnv "main" freshState
     = (Threw (branchFormatError "main"), afterFetchAnnouncement freshState "main") /\
   getMergeBase diffEnv "main" true freshState
     = (Threw (branchFormatError "main"), afterFetchAnnouncement freshState "main") /\
   getChangedFiles diffEnv "main" false None freshState
     = (Threw (branchFormatError "main"), afterFetchAnnouncement freshState "main")).
Proof.
  split.
  - split; [reflexivity|]. split; [reflexivity|]. split; [discriminate|].
    apply (proj1 fetch_failure_warns_and_continues diffEnv freshState
             (snd (getGitPathOrThrow diffEnv
                     (afterFetchAnnouncement freshState (remoteBranch "origin" "main"))))
             "origin" "main" "/usr/bin/git" (Some 1) None);
      first [reflexivity | discriminate].
  - split; [reflexivity|].
    apply (proj2 fetch_failure_warns_and_continues diffEnv freshState "main" None).
    reflexivity.
Defined.

Lemma countEmailProbes_app (a b : list Event) :
  countEmailProbes (a ++ b) = countEmailProbes a + countEmailProbes b.
Proof. unfold countEmailProbes. now rewrite filter_app, length_app. Qed.

(** C7.  On an instance whose email slot is empty, when Git is found and
    [git config user.email] fails, two calls of [getGitEmail] both throw
    [AlreadyReportedError]; the query has run once after the first call and
    still once after the second, which starts no Git process at all. *)
Theorem getGitEmail_failing_probe_runs_once
        (env : Env) (st st1 : State) (gp : string) (e : Exn) :
  _gitEmailResult (self st) = None ->
  getGitPathOrThrow env st = (Returned gp, st1) ->
  executeCommandAndCaptureOutput env (trace st1) gp emailArgs (cwdOf st1) = inl e ->
  fst (getGitEmail env st) = Threw AlreadyReportedError /\
  fst (getGitEmail env (snd (getGitEmail env st))) = Threw AlreadyReportedError /\
  countEmailProbes (trace (snd (getGitEmail env st)))
    = countEmailProbes (trace st) + 1 /\
  countEmailProbes (trace (snd (getGitEmail env (snd (getGitEmail env st)))))
    = countEmailProbes (trace st) + 1 /\
  filter isGitInvocation (trace (snd (getGitEmail env (snd (getGitEmail env st)))))
    = filter isGitInvocation (trace (snd (getGitEmail env st))).
Proof.
  intros Hslot Hgit Hexec.
  destruct (getGitPathOrThrow_returned env st st1 gp Hgit)
    as (Ht & Hc & Hp & Hcfg & Hemail & Hhooks & Htrace).
  pose proof (execute_threw env st1 gp emailArgs e Hexec) as Hrun.
  set (e' := match ensureGitMinimumVersion env _ gp with
             | Some e'' => e''
             | None => e
             end) in Hrun.
  set (cached := mkResultOrError (Some e') None).
  set (st2 := mkState (set_gitEmailResult cached (self st1))
                      (trace st1 ++ [ExecuteCommand gp emailArgs (cwdOf st1);
                                     EnsureGitMinimumVersion gp])).
  set (st3 := mkState (self st2)
                      (trace st2 ++ [ConsoleLog (gitEmailErrorText env e')])).
  assert (Hfirst : getGitEmail env st = (Threw AlreadyReportedError, st3)).
  { unfold getGitEmail, _tryGetGitEmail, bind, getSelf, tryCatch, ret,
      modifySelf, consoleLog, emit, throw.
    rewrite Hslot, Hgit. fold emailArgs. rewrite Hrun. reflexivity. }
  assert (Hsecond : getGitEmail env st3
                    = (Threw AlreadyReportedError,
                       mkState (self st3)
                               (trace st3 ++ [ConsoleLog (gitEmailErrorText env e')]))).
  { reflexivity. }
  rewrite Hfirst. cbn [fst snd]. rewrite Hsecond. cbn [fst snd].
  assert (Hcount1 : countEmailProbes (trace st1) = countEmailProbes (trace st)).
  { destruct Htrace as [Htr | Htr]; rewrite Htr; [reflexivity|].
    rewrite countEmailProbes_app.
    change (countEmailProbes [TryResolveGit]) with 0. lia. }
  assert (Hprobe : countEmailProbes
                     [ExecuteCommand gp emailArgs (cwdOf st1);
                      EnsureGitMinimumVersion gp] = 1).
  { unfold countEmailProbes. cbn [filter isEmailProbe].
    destruct (list_eq_dec string_dec emailArgs emailArgs); [reflexivity|congruence]. }
  repeat split.
  - unfold st3, st2. cbn [trace self].
    rewrite !countEmailProbes_app, Hprobe, Hcount1.
    change (countEmailProbes [ConsoleLog (gitEmailErrorText env e')]) with 0. lia.
  - unfold st3, st2. cbn [trace self].
    rewrite !countEmailProbes_app, Hprobe, Hcount1.
    change (countEmailProbes [ConsoleLog (gitEmailErrorText env e')]) with 0. lia.
  - cbn [trace]. rewrite filter_app. simpl. apply app_nil_r.
Qed.

(** C7 on a new instance, with a Git whose every command fails. *)
Lemma getGitEmail_failing_probe_runs_once_witness :
  _gitEmailResult (self freshState) = None /\
  executeCommandAndCaptureOutput failingEnv
    (trace (snd (getGitPathOrThrow failingEnv freshState))) "/usr/bin/git"
    emailArgs (cwdOf (snd (getGitPathOrThrow failingEnv freshState)))
    = inl (Error "exit code 1") /\
  (fst (getGitEmail failingEnv freshState) = Threw AlreadyReportedError /\
   fst (getGitEmail failingEnv (snd (getGitEmail failingEnv freshState)))
     = Threw AlreadyReportedError /\
   countEmailProbes (trace (snd (getGitEmail failingEnv freshState)))
     = countEmailProbes (trace freshState) + 1 /\
   countEmailProbes
     (trace (snd (getGitEmail failingEnv (snd (getGitEmail failingEnv freshState)))))
     = countEmailProbes (trace freshState) + 1 /\
   filter isGitInvocation
     (trace (snd (getGitEmail failingEnv (snd (getGitEmail failingEnv freshState)))))
     = filter isGitInvocation (trace (snd (getGitEmail failingEnv freshState)))).
Proof.
  split; [reflexivity|]. split; [reflexivity|].
  apply (getGitEmail_failing_probe_runs_once failingEnv freshState
           (snd (getGitPathOrThrow failingEnv freshState)) "/usr/bin/git"
           (Error "exit code 1")); reflexivity.
Defined.

(** *** The cache slots hold exactly one of a result and an error *)

Lemma keeps_ret {A} (Q : A -> Prop) (a : A) : Q a -> keeps Q (ret a).
Proof. intros H st Hst. now split. Qed.

Lemma keeps_throw {A} (Q : A -> Prop) (e : Exn) : keeps Q (throw e).
Proof. intros st Hst. now split. Qed.

Lemma keeps_bind {A B} (Q1 : A -> Prop) (Q2 : B -> Prop) (m : M A) (k : A -> M B) :
  keeps Q1 m -> (forall a, Q1 a -> keeps Q2 (k a)) -> keeps Q2 (bind m k).
Proof.
  intros Hm Hk st Hst. unfold bind.
  destruct (Hm st Hst) as [Hinv Hq].
  destruct (m st) as [[a|e] st1]; simpl in *.
  - exact (Hk a Hq st1 Hinv).
  - now split.
Qed.

Lemma keeps_tryCatch {A} (Q : A -> Prop) (m : M A) (handler : Exn -> M A) :
  keeps Q m -> (forall e, keeps Q (handler e)) -> keeps Q (tryCatch m handler).
Proof.
  intros Hm Hh st Hst. unfold tryCatch.
  destruct (Hm st Hst) as [Hinv Hq].
  destruct (m st) as [[a|e] st1]; simpl in *.
  - now split.
  - exact (Hh e st1 Hinv).
Qed.

Lemma keeps_weaken {A} (Q Q' : A -> Prop) (m : M A) :
  keeps Q m -> (forall a, Q a -> Q' a) -> keeps Q' m.
Proof.
  intros Hm HQ st Hst. destruct (Hm st Hst) as [Hinv Hq]. split; [exact Hinv|].
  destruct (fst (m st)); auto.
Qed.

Lemma keeps_anything {A} (Q : A -> Prop) (m : M A) : keeps Q m -> keeps anything m.
Proof. intros Hm. apply (keeps_weaken Q); [exact Hm | now intros]. Qed.

(** [this] read at any time has well-formed slots. *)
Lemma keeps_getSelf : keeps cachesWellFormed getSelf.
Proof. intros st Hst. now split. Qed.

Lemma keeps_modifySelf (f : Git -> Git) :
  (forall g, cachesWellFormed g -> cachesWellFormed (f g)) ->
  keeps anything (modifySelf f).
Proof. intros Hf st Hst. split; [now apply Hf | exact I]. Qed.

Lemma keeps_emit (ev : Event) : keeps anything (emit ev).
Proof. intros st Hst. now split. Qed.

Lemma keeps_consoleLog (text : string) : keeps anything (consoleLog text).
Proof. apply keeps_emit. Qed.

Lemma keeps_call {A} (ev : Event) (answer : list Event -> Exn + A) :
  keeps anything (call ev answer).
Proof.
  intros st Hst. unfold call. now destruct (answer (trace st)); split.
Qed.

Lemma keeps_bind_anything {A B} (Q : B -> Prop) (m : M A) (k : A -> M B) :
  keeps anything m -> (forall a, keeps Q (k a)) -> keeps Q (bind m k).
Proof. intros Hm Hk. apply (keeps_bind anything); auto. Qed.

Lemma keeps_ret_anything {A} (a : A) : keeps anything (ret a).
Proof. now apply keeps_ret. Qed.

Lemma keeps_getSelf_anything : keeps anything getSelf.
Proof. exact (keeps_anything _ _ keeps_getSelf). Qed.

Lemma set_gitPath_wellFormed (p : option string) (g : Git) :
  cachesWellFormed g -> cachesWellFormed (set_gitPath p g).
Proof. now destruct g. Qed.

Lemma set_gitInfo_wellFormed (i : GitRepoInfo) (g : Git) :
  cachesWellFormed g -> cachesWellFormed (set_gitInfo i g).
Proof. now destruct g. Qed.

Lemma set_checkedGitInfo_wellFormed (g : Git) :
  cachesWellFormed g -> cachesWellFormed (set_checkedGitInfo g).
Proof. now destruct g. Qed.

Lemma set_gitEmailResult_wellFormed (r : IResultOrError) (g : Git) :
  holdsExactlyOne r = true ->
  cachesWellFormed g -> cachesWellFormed (set_gitEmailResult r g).
Proof. intros Hr [_ Hh]. now split. Qed.

Lemma set_gitHooksPath_wellFormed (r : IResultOrError) (g : Git) :
  holdsExactlyOne r = true ->
  cachesWellFormed g -> cachesWellFormed (set_gitHooksPath r g).
Proof. intros Hr [He _]. now split. Qed.

Create HintDb keeps.

#[local] Hint Resolve keeps_ret_anything keeps_throw keeps_getSelf_anything
  keeps_emit keeps_consoleLog keeps_call
  set_gitPath_wellFormed set_gitInfo_wellFormed set_checkedGitInfo_wellFormed
  : keeps.

(** One step of the proof that a method keeps the slots well formed: the
    rule of the construct at the head of the method. *)
Ltac keeps_step :=
  match goal with
  | |- keeps _ (bind _ _) => apply keeps_bind_anything; [|intros ?]
  | |- keeps _ (tryCatch _ _) => apply keeps_tryCatch; [|intros ?]
  | |- keeps _ (modifySelf _) => apply keeps_modifySelf; solve [eauto with keeps]
  | |- keeps _ (if ?b then _ else _) => destruct b
  | |- keeps _ (match ?x with _ => _ end) => destruct x
  | |- keeps _ _ => solve [eauto with keeps]
  | |- keeps _ _ => progress cbv zeta
  end.

Ltac keeps_all := repeat keeps_step.

Section Preservation.
Variable env : Env.

Lemma keeps_gitPath : keeps anything (gitPath env).
Proof. unfold gitPath. keeps_all. Qed.
#[local] Hint Resolve keeps_gitPath : keeps.

Lemma keeps_getGitPathOrThrow : keeps anything (getGitPathOrThrow env).
Proof. unfold getGitPathOrThrow. keeps_all. Qed.
#[local] Hint Resolve keeps_getGitPathOrThrow : keeps.

Lemma keeps_isGitPresent : keeps anything (isGitPresent env).
Proof. unfold isGitPresent. keeps_all. Qed.
#[local] Hint Resolve keeps_isGitPresent : keeps.

Lemma keeps_isPathUnderGitWorkingTreeOf (repoInfo : GitRepoInfo) :
  keeps anything (isPathUnderGitWorkingTreeOf env repoInfo).
Proof. unfold isPathUnderGitWorkingTreeOf. keeps_all. Qed.
#[local] Hint Resolve keeps_isPathUnderGitWorkingTreeOf : keeps.

Lemma keeps_getGitInfo : keeps anything (getGitInfo env).
Proof. unfold getGitInfo. keeps_all. Qed.
#[local] Hint Resolve keeps_getGitInfo : keeps.

Lemma keeps_isPathUnderGitWorkingTree (repoInfo : option GitRepoInfo) :
  keeps anything (isPathUnderGitWorkingTree env repoInfo).
Proof. unfold isPathUnderGitWorkingTree. keeps_all. Qed.
#[local] Hint Resolve keeps_isPathUnderGitWorkingTree : keeps.

Lemma keeps_execute (gp : string) (args : list string) (cwd : option string) :
  keeps anything (_executeGitCommandAndCaptureOutput env gp args cwd).
Proof. unfold _executeGitCommandAndCaptureOutput. keeps_all. Qed.
#[local] Hint Resolve keeps_execute : keeps.

(** The two methods that fill a slot: the value they store and return holds
    exactly one of a result and an error. *)
Lemma keeps_fill (gp : string) (args : list string) :
  keeps (fun r => holdsExactlyOne r = true)
        (tryCatch
           (out <- _executeGitCommandAndCaptureOutput env gp args None ;;
            ret (mkResultOrError None (Some (trim out))))
           (fun e => ret (mkResultOrError (Some e) None))).
Proof.
  apply keeps_tryCatch.
  - apply keeps_bind_anything; [apply keeps_execute|].
    intros out. now apply keeps_ret.
  - intros e. now apply keeps_ret.
Qed.

Lemma keeps_tryGetGitEmail_slot :
  keeps (fun r => holdsExactlyOne r = true) (_tryGetGitEmail env).
Proof.
  unfold _tryGetGitEmail.
  apply (keeps_bind cachesWellFormed); [apply keeps_getSelf|]. intros g [He Hh].
  destruct (_gitEmailResult g) as [r|].
  - apply keeps_ret. exact He.
  - apply keeps_bind_anything; [auto with keeps|]. intros gp.
    apply (keeps_bind (fun r => holdsExactlyOne r = true)); [apply keeps_fill|].
    intros r Hr. apply keeps_bind_anything.
    + apply keeps_modifySelf. intros g'. now apply set_gitEmailResult_wellFormed.
    + intros _. now apply keeps_ret.
Qed.

Lemma keeps_tryGetGitHooksPath_slot :
  keeps (fun r => holdsExactlyOne r = true) (_tryGetGitHooksPath env).
Proof.
  unfold _tryGetGitHooksPath.
  apply (keeps_bind cachesWellFormed); [apply keeps_getSelf|]. intros g [He Hh].
  destruct (_gitHooksPath g) as [r|].
  - apply keeps_ret. exact Hh.
  - apply keeps_bind_anything; [auto with keeps|]. intros gp.
    apply (keeps_bind (fun r => holdsExactlyOne r = true)); [apply keeps_fill|].
    intros r Hr. apply keeps_bind_anything.
    + apply keeps_modifySelf. intros g'. now apply set_gitHooksPath_wellFormed.
    + intros _. now apply keeps_ret.
Qed.

Lemma keeps__tryGetGitEmail : keeps anything (_tryGetGitEmail env).
Proof. exact (keeps_anything _ _ keeps_tryGetGitEmail_slot). Qed.
#[local] Hint Resolve keeps__tryGetGitEmail : keeps.

Lemma keeps__tryGetGitHooksPath : keeps anything (_tryGetGitHooksPath env).
Proof. exact (keeps_anything _ _ keeps_tryGetGitHooksPath_slot). Qed.
#[local] Hint Resolve keeps__tryGetGitHooksPath : keeps.

Lemma keeps_tryGetGitEmail : keeps anything (tryGetGitEmail env).
Proof. unfold tryGetGitEmail. keeps_all. Qed.

Lemma keeps_getGitEmail : keeps anything (getGitEmail env).
Proof. unfold getGitEmail. keeps_all. Qed.

Lemma keeps_getHooksFolder : keeps anything (getHooksFolder env).
Proof. unfold getHooksFolder. keeps_all. Qed.

Lemma keeps_isHooksPathDefaultIn (i : GitRepoInfo) (d : string) :
  keeps anything (isHooksPathDefaultIn env i d).
Proof. unfold isHooksPathDefaultIn. keeps_all. Qed.
#[local] Hint Resolve keeps_isHooksPathDefaultIn : keeps.

Lemma keeps_isHooksPathDefault : keeps anything (isHooksPathDefault env).
Proof. unfold isHooksPathDefault. keeps_all. Qed.

Lemma keeps_getConfigHooksPath : keeps anything (getConfigHooksPath env).
Proof. unfold getConfigHooksPath. keeps_all. Qed.

Lemma keeps__tryFetchRemoteBranch (name : string) :
  keeps anything (_tryFetchRemoteBranch env name).
Proof. unfold _tryFetchRemoteBranch. keeps_all. Qed.
#[local] Hint Resolve keeps__tryFetchRemoteBranch : keeps.

Lemma keeps__fetchRemoteBranch (name : string) :
  keeps anything (_fetchRemoteBranch env name).
Proof. unfold _fetchRemoteBranch. keeps_all. Qed.
#[local] Hint Resolve keeps__fetchRemoteBranch : keeps.

Lemma keeps_getMergeBase (targetBranch : string) (shouldFetch : bool) :
  keeps anything (getMergeBase env targetBranch shouldFetch).
Proof. unfold getMergeBase. keeps_all. Qed.

Lemma keeps_getBlobContent (blobSpec repositoryRoot : string) :
  keeps anything (getBlobContent env blobSpec repositoryRoot).
Proof. unfold getBlobContent. keeps_all. Qed.

Lemma keeps_getChangedFiles (targetBranch : string) (skipFetch : bool)
      (pathPrefix : option string) :
  keeps anything (getChangedFiles env targetBranch skipFetch pathPrefix).
Proof. unfold getChangedFiles. keeps_all. Qed.

Lemma keeps_filterM {A} (f : A -> M bool) (l : list A) :
  (forall x, keeps anything (f x)) -> keeps anything (filterM f l).
Proof.
  intros Hf. induction l as [|x l IH]; simpl; [apply keeps_ret_anything|].
  apply keeps_bind_anything; [apply Hf|]. intros keep.
  apply keeps_bind_anything; [exact IH|]. intros kept. apply keeps_ret_anything.
Qed.

Lemma keeps_orThrowURIError {A} (normalized : option A) :
  keeps anything (orThrowURIError normalized).
Proof. unfold orThrowURIError. keeps_all. Qed.
#[local] Hint Resolve keeps_orThrowURIError : keeps.

Lemma keeps_isMatchingRemote (gp : string) (normalized : list (list N))
      (remoteName : string) :
  keeps anything (isMatchingRemote env gp normalized remoteName).
Proof. unfold isMatchingRemote. keeps_all. Qed.

Lemma keeps_getRemoteDefaultBranch : keeps anything (getRemoteDefaultBranch env).
Proof.
  unfold getRemoteDefaultBranch.
  apply keeps_bind_anything; [auto with keeps|]. intros g. cbv zeta.
  destruct (Nat.ltb 0 (List.length (repositoryUrls (_rushConfiguration g))));
    [|keeps_all].
  apply keeps_bind_anything; [auto with keeps|]. intros gp.
  apply keeps_bind_anything; [auto with keeps|]. intros rawOutput.
  apply keeps_bind_anything; [auto with keeps|]. intros normalized.
  apply keeps_bind_anything.
  - apply keeps_filterM. intros remoteName. apply keeps_isMatchingRemote.
  - intros matchingRemotes. keeps_all.
Qed.

Lemma keeps__getUntrackedChanges : keeps anything (_getUntrackedChanges env).
Proof. unfold _getUntrackedChanges. keeps_all. Qed.
#[local] Hint Resolve keeps__getUntrackedChanges : keeps.

Lemma keeps__getDiffOnHEAD : keeps anything (_getDiffOnHEAD env).
Proof. unfold _getDiffOnHEAD. keeps_all. Qed.
#[local] Hint Resolve keeps__getDiffOnHEAD : keeps.

Lemma keeps_getUncommittedChanges : keeps anything (getUncommittedChanges env).
Proof. unfold getUncommittedChanges. keeps_all. Qed.
#[local] Hint Resolve keeps_getUncommittedChanges : keeps.

Lemma keeps_hasUncommittedChanges : keeps anything (hasUncommittedChanges env).
Proof. unfold hasUncommittedChanges. keeps_all. Qed.

Lemma keeps_getTagSeparator : keeps anything getTagSeparator.
Proof. unfold getTagSeparator. keeps_all. Qed.

(** Every public member keeps the slots well formed. *)
Lemma perform_wellFormed (c : Call) (st : State) :
  cachesWellFormed (self st) -> cachesWellFormed (self (perform env c st)).
Proof.
  intros Hst. destruct c; simpl.
  - exact (proj1 (keeps_gitPath st Hst)).
  - exact (proj1 (keeps_getGitPathOrThrow st Hst)).
  - exact (proj1 (keeps_isGitPresent st Hst)).
  - exact (proj1 (keeps_isPathUnderGitWorkingTree repoInfo st Hst)).
  - exact (proj1 (keeps_tryGetGitEmail st Hst)).
  - exact (proj1 (keeps_getGitEmail st Hst)).
  - exact (proj1 (keeps_getHooksFolder st Hst)).
  - exact (proj1 (keeps_isHooksPathDefault st Hst)).
  - exact (proj1 (keeps_getConfigHooksPath st Hst)).
  - exact (proj1 (keeps_getGitInfo st Hst)).
  - exact (proj1 (keeps_getMergeBase targetBranch shouldFetch st Hst)).
  - exact (proj1 (keeps_getBlobContent blobSpec repositoryRoot st Hst)).
  - exact (proj1 (keeps_getChangedFiles targetBranch skipFetch pathPrefix st Hst)).
  - exact (proj1 (keeps_getRemoteDefaultBranch st Hst)).
  - exact (proj1 (keeps_hasUncommittedChanges st Hst)).
  - exact (proj1 (keeps_getUncommittedChanges st Hst)).
  - exact (proj1 (keeps_getTagSeparator st Hst)).
Qed.

Lemma performAll_wellFormed (calls : list Call) (st : State) :
  cachesWellFormed (self st) -> cachesWellFormed (self (performAll env calls st)).
Proof.
  revert st. induction calls as [|c calls IH]; intros st Hst; simpl; [exact Hst|].
  apply IH. now apply perform_wellFormed.
Qed.

End Preservation.

(** C9.  After any sequence of calls of public members on a new instance,
    each of the two cache slots is either empty or holds exactly one of a
    result and an error; and from such a state the two memoized queries,
    when they return, return a value that holds exactly one of the two, and
    leave the slots well formed. *)
Theorem caches_hold_exactly_one
        (env : Env) (rushConfiguration : RushConfiguration) (calls : list Call) :
  cachesWellFormed
    (self (performAll env calls (initialState rushConfiguration))) /\
  match _tryGetGitEmail env (performAll env calls (initialState rushConfiguration)) with
  | (Returned r, st') => holdsExactlyOne r = true /\ cachesWellFormed (self st')
  | (Threw _, st') => cachesWellFormed (self st')
  end /\
  match _tryGetGitHooksPath env (performAll env calls (initialState rushConfiguration)) with
  | (Returned r, st') => holdsExactlyOne r = true /\ cachesWellFormed (self st')
  | (Threw _, st') => cachesWellFormed (self st')
  end.
Proof.
  assert (Hst : cachesWellFormed
                  (self (performAll env calls (initialState rushConfiguration)))).
  { apply performAll_wellFormed. now split. }
  split; [exact Hst|]. split.
  - destruct (keeps_tryGetGitEmail_slot env _ Hst) as [Hinv Hr].
    destruct (_tryGetGitEmail env _) as [[r|e] st']; simpl in *; auto.
  - destruct (keeps_tryGetGitHooksPath_slot env _ Hst) as [Hinv Hr].
    destruct (_tryGetGitHooksPath env _) as [[r|e] st']; simpl in *; auto.
Qed.

End GitProperties.

(* ================================================================== *)
(** ** Memoization: each probe runs once at most *)
(* ================================================================== *)

Module GitInvariantFacts.
Import JsString GitModel GitSpec GitInvariants GitFacts.
Local Open Scope git_scope.

Lemma countEvents_app (p : Event -> bool) (a b : list Event) :
  countEvents p (a ++ b) = countEvents p a + countEvents p b.
Proof. unfold countEvents. now rewrite filter_app, length_app. Qed.

Lemma countEvents_snoc_other (p : Event -> bool) (tr : list Event) (ev : Event) :
  p ev = false -> countEvents p (tr ++ [ev]) = countEvents p tr.
Proof.
  intros H. rewrite countEvents_app. unfold countEvents at 2. simpl.
  rewrite H. simpl. lia.
Qed.

Lemma probedOnce_snoc_other
      (b : bool) (p : Event -> bool) (tr : list Event) (ev : Event) :
  p ev = false -> probedOnce b p tr -> probedOnce b p (tr ++ [ev]).
Proof.
  intros H. unfold probedOnce. now rewrite (countEvents_snoc_other p tr ev H).
Qed.

(** The first run of a probe raises its flag. *)
Lemma probedOnce_first (p : Event -> bool) (tr : list Event) (ev : Event) :
  probedOnce false p tr -> probedOnce true p (tr ++ [ev]).
Proof.
  unfold probedOnce. intros H. rewrite countEvents_app, H.
  unfold countEvents. simpl. destruct (p ev); simpl; lia.
Qed.

Lemma probedOnce_raise (b : bool) (p : Event -> bool) (tr : list Event) :
  probedOnce b p tr -> probedOnce true p tr.
Proof. destruct b; unfold probedOnce; [auto | intros ->; lia]. Qed.

Section WithEnv.
Variable env : Env.

(** An event that is none of the four probes leaves the instance and its
    trace consistent. *)
Lemma Consistent_append (st : State) (ev : Event) :
  isUntracked ev = true ->
  Consistent env st ->
  Consistent env (mkState (self st) (trace st ++ [ev])).
Proof.
  unfold isUntracked. intros Hev [H1 H2 H3 H4 H5 H6 H7].
  apply negb_true_iff in Hev.
  apply orb_false_iff in Hev as [Hev He4]. apply orb_false_iff in Hev as [Hev He3].
  apply orb_false_iff in Hev as [He1 He2].
  constructor; simpl; auto using probedOnce_snoc_other.
  intros Ho. rewrite (countEvents_snoc_other _ _ _ He1). auto.
Qed.

(** The getter [gitPath] never throws; it returns the field and leaves the
    state [afterGitPath]. *)
Lemma gitPath_run (st : State) :
  gitPath env st
  = (Returned (_gitPath (self (afterGitPath env st))), afterGitPath env st).
Proof.
  unfold gitPath, afterGitPath, bind, getSelf, ret, modifySelf, call.
  destruct (_checkedGitPath (self st)); [reflexivity|].
  now destruct (truthyOpt (gitBinaryPath env)).
Qed.

Lemma afterGitPath_checked (st : State) :
  _checkedGitPath (self (afterGitPath env st)) = true.
Proof.
  unfold afterGitPath. destruct (_checkedGitPath (self st)) eqn:H; [exact H|].
  now destruct (truthyOpt (gitBinaryPath env)).
Qed.

(** The fields of [Consistent], one by one, on explicit states. *)
Ltac consistent_fields :=
  constructor;
  unfold probedOnce, gitFound in *;
  simpl in *;
  repeat match goal with
         | H : match ?x with Some _ => _ | None => _ end |- _ =>
             destruct x; simpl in *
         | |- match ?x with Some _ => _ | None => _ end =>
             destruct x; simpl in *
         | H : context [if ?b then _ else _] |- _ => destruct b; simpl in *
         | |- context [if ?b then _ else _] => destruct b; simpl in *
         end;
  rewrite ?countEvents_app; unfold countEvents in *; simpl;
  intuition (try congruence; try lia).

Lemma Consistent_afterGitPath (st : State) :
  Consistent env st -> Consistent env (afterGitPath env st).
Proof.
  unfold afterGitPath. destruct st as [[cfg cp gp ci gi em hk] tr].
  cbn [self trace _checkedGitPath].
  destruct cp; [auto|].
  destruct (truthyOpt (gitBinaryPath env)) eqn:Ho; intros [H1 H2 H3 H4 H5 H6 H7].
  - consistent_fields.
  - consistent_fields.
Qed.

Lemma maintains_ret {A} (a : A) : maintains env (ret a).
Proof. intros st H. exact H. Qed.

Lemma maintains_throw {A} (e : Exn) : maintains env (@throw A e).
Proof. intros st H. exact H. Qed.

Lemma maintains_getSelf : maintains env getSelf.
Proof. intros st H. exact H. Qed.

Lemma maintains_bind {A B} (m : M A) (k : A -> M B) :
  maintains env m -> (forall a, maintains env (k a)) -> maintains env (bind m k).
Proof.
  intros Hm Hk st H. unfold bind. specialize (Hm st H).
  destruct (m st) as [[a|e] st1]; simpl in *; [exact (Hk a st1 Hm) | exact Hm].
Qed.

Lemma maintains_tryCatch {A} (m : M A) (handler : Exn -> M A) :
  maintains env m -> (forall e, maintains env (handler e)) ->
  maintains env (tryCatch m handler).
Proof.
  intros Hm Hh st H. unfold tryCatch. specialize (Hm st H).
  destruct (m st) as [[a|e] st1]; simpl in *; [exact Hm | exact (Hh e st1 Hm)].
Qed.

Lemma maintains_emit (ev : Event) :
  isUntracked ev = true -> maintains env (emit ev).
Proof. intros Hev st H. now apply Consistent_append. Qed.

Lemma maintains_consoleLog (text : string) : maintains env (consoleLog text).
Proof. now apply maintains_emit. Qed.

Lemma maintains_call {A} (ev : Event) (answer : list Event -> Exn + A) :
  isUntracked ev = true -> maintains env (call ev answer).
Proof.
  intros Hev st H. unfold call.
  destruct (answer (trace st)); now apply Consistent_append.
Qed.

Lemma maintains_gitPath : maintains env (gitPath env).
Proof. intros st H. rewrite gitPath_run. now apply Consistent_afterGitPath. Qed.

Lemma isUntracked_command (gp : string) (args : list string) (cwd : string) :
  args <> emailArgs -> args <> hooksArgs ->
  isUntracked (ExecuteCommand gp args cwd) = true.
Proof.
  intros H1 H2. unfold isUntracked, isEmailProbe, isHooksProbe. simpl.
  destruct (list_eq_dec string_dec args emailArgs); [contradiction|].
  now destruct (list_eq_dec string_dec args hooksArgs).
Qed.

(** A command other than the two memoized ones. *)
Lemma maintains_execute (gp : string) (args : list string) (cwd : option string) :
  args <> emailArgs -> args <> hooksArgs ->
  maintains env (_executeGitCommandAndCaptureOutput env gp args cwd).
Proof.
  intros H1 H2. unfold _executeGitCommandAndCaptureOutput.
  apply maintains_bind; [apply maintains_getSelf|]. intros g. cbv zeta.
  apply maintains_tryCatch.
  - apply maintains_call. now apply isUntracked_command.
  - intros e. apply maintains_bind; [now apply maintains_call|].
    intros _. apply maintains_throw.
Qed.

Create HintDb maintains.

#[local] Hint Resolve maintains_ret maintains_throw maintains_getSelf
  maintains_consoleLog maintains_gitPath : maintains.

(** One step of the proof that a method maintains consistency: the rule of
    the construct at the head of the method. *)
Ltac maintains_step :=
  match goal with
  | |- maintains _ (bind _ _) => apply maintains_bind; [|intros ?]
  | |- maintains _ (tryCatch _ _) => apply maintains_tryCatch; [|intros ?]
  | |- maintains _ (_executeGitCommandAndCaptureOutput _ _ _ _) =>
      apply maintains_execute; unfold emailArgs, hooksArgs; discriminate
  | |- maintains _ (call _ _) => apply maintains_call; reflexivity
  | |- maintains _ (emit _) => apply maintains_emit; reflexivity
  | |- maintains _ (if ?b then _ else _) => destruct b
  | |- maintains _ (match ?x with _ => _ end) => destruct x
  | |- maintains _ _ => solve [eauto with maintains]
  | |- maintains _ _ => progress cbv zeta
  end.

Ltac maintains_all := repeat maintains_step.

Lemma maintains_getGitPathOrThrow : maintains env (getGitPathOrThrow env).
Proof. unfold getGitPathOrThrow. maintains_all. Qed.
#[local] Hint Resolve maintains_getGitPathOrThrow : maintains.

Lemma maintains_isGitPresent : maintains env (isGitPresent env).
Proof. unfold isGitPresent. maintains_all. Qed.
#[local] Hint Resolve maintains_isGitPresent : maintains.

(** Reading the repository information: it is cached only when Git is
    found and the information has a commit hash. *)
Lemma maintains_getGitInfo : maintains env (getGitInfo env).
Proof.
  intros st HC.
  unfold getGitInfo, isPathUnderGitWorkingTreeOf, isGitPresent, bind, getSelf,
    tryCatch, call, ret, modifySelf.
  destruct (_checkedGitInfo (self st)) eqn:Hci; [exact HC|].
  destruct (readGitInfo env (trace st)) as [e|i]; cbn [fst snd].
  - destruct st as [[cfg cp gp ci gi em hk] tr]. simpl in Hci. subst ci.
    destruct HC as [H1 H2 H3 H4 H5 H6 H7]. consistent_fields.
  - rewrite gitPath_run. unfold afterGitPath.
    destruct st as [[cfg cp gp ci gi em hk] tr]. simpl in Hci. subst ci.
    destruct HC as [H1 H2 H3 H4 H5 H6 H7].
    cbn [self trace _checkedGitPath].
    destruct cp.
    + cbn [self _gitPath]. destruct (truthyOpt gp) eqn:Hgp;
        [destruct (truthyOpt (sha i)) eqn:Hsha|]; consistent_fields.
    + destruct (truthyOpt (gitBinaryPath env)) eqn:Ho.
      * cbn [self set_gitPath _gitPath]. rewrite Ho.
        destruct (truthyOpt (sha i)) eqn:Hsha; consistent_fields.
      * cbn [self set_gitPath _gitPath].
        destruct (truthyOpt (tryResolve env (tr ++ [ReadGitInfo]))) eqn:Hp;
          [destruct (truthyOpt (sha i)) eqn:Hsha|]; consistent_fields.
Qed.
#[local] Hint Resolve maintains_getGitInfo : maintains.

(** Filling the email slot: the probe runs when the slot is empty, and the
    slot is filled whatever the probe answers. *)
Lemma maintains__tryGetGitEmail : maintains env (_tryGetGitEmail env).
Proof.
  intros st HC. unfold _tryGetGitEmail, bind, getSelf.
  destruct (_gitEmailResult (self st)) as [r|] eqn:Hslot; [exact HC|].
  pose proof (maintains_getGitPathOrThrow st HC) as HC1.
  destruct (getGitPathOrThrow env st) as [[gp|e] st1] eqn:Hgit; [|exact HC1].
  destruct (getGitPathOrThrow_returned env st st1 gp Hgit)
    as (Ht & Hc & Hp & Hcfg & Hemail & Hhooks & Htrace).
  rewrite Hslot in Hemail. cbn [snd] in HC1.
  unfold tryCatch, ret, modifySelf. fold emailArgs.
  destruct (executeCommandAndCaptureOutput env (trace st1) gp emailArgs (cwdOf st1))
    as [e|out] eqn:Hexec.
  - rewrite (execute_threw env st1 gp emailArgs e Hexec). cbn [fst snd].
    destruct st1 as [[cfg cp gpath ci gi em hk] tr]. simpl in *. subst.
    destruct HC1 as [H1 H2 H3 H4 H5 H6 H7]. consistent_fields.
  - rewrite (execute_returned env st1 gp emailArgs out Hexec). cbn [fst snd].
    destruct st1 as [[cfg cp gpath ci gi em hk] tr]. simpl in *. subst.
    destruct HC1 as [H1 H2 H3 H4 H5 H6 H7]. consistent_fields.
Qed.
#[local] Hint Resolve maintains__tryGetGitEmail : maintains.

Lemma maintains__tryGetGitHooksPath : maintains env (_tryGetGitHooksPath env).
Proof.
  intros st HC. unfold _tryGetGitHooksPath, bind, getSelf.
  destruct (_gitHooksPath (self st)) as [r|] eqn:Hslot; [exact HC|].
  pose proof (maintains_getGitPathOrThrow st HC) as HC1.
  destruct (getGitPathOrThrow env st) as [[gp|e] st1] eqn:Hgit; [|exact HC1].
  destruct (getGitPathOrThrow_returned env st st1 gp Hgit)
    as (Ht & Hc & Hp & Hcfg & Hemail & Hhooks & Htrace).
  rewrite Hslot in Hhooks. cbn [snd] in HC1.
  unfold tryCatch, ret, modifySelf. fold hooksArgs.
  destruct (executeCommandAndCaptureOutput env (trace st1) gp hooksArgs (cwdOf st1))
    as [e|out] eqn:Hexec.
  - rewrite (execute_threw env st1 gp hooksArgs e Hexec). cbn [fst snd].
    destruct st1 as [[cfg cp gpath ci gi em hk] tr]. simpl in *. subst.
    destruct HC1 as [H1 H2 H3 H4 H5 H6 H7]. consistent_fields.
  - rewrite (execute_returned env st1 gp hooksArgs out Hexec). cbn [fst snd].
    destruct st1 as [[cfg cp gpath ci gi em hk] tr]. simpl in *. subst.
    destruct HC1 as [H1 H2 H3 H4 H5 H6 H7]. consistent_fields.
Qed.
#[local] Hint Resolve maintains__tryGetGitHooksPath : maintains.

Lemma maintains_isPathUnderGitWorkingTree (repoInfo : option GitRepoInfo) :
  maintains env (isPathUnderGitWorkingTree env repoInfo).
Proof. unfold isPathUnderGitWorkingTree. maintains_all. Qed.

Lemma maintains_tryGetGitEmail : maintains env (tryGetGitEmail env).
Proof. unfold tryGetGitEmail. maintains_all. Qed.

Lemma maintains_getGitEmail : maintains env (getGitEmail env).
Proof. unfold getGitEmail. maintains_all. Qed.

Lemma maintains_getHooksFolder : maintains env (getHooksFolder env).
Proof. unfold getHooksFolder. maintains_all. Qed.

Lemma maintains_isHooksPathDefaultIn (i : GitRepoInfo) (d : string) :
  maintains env (isHooksPathDefaultIn env i d).
Proof. unfold isHooksPathDefaultIn. maintains_all. Qed.
#[local] Hint Resolve maintains_isHooksPathDefaultIn : maintains.

Lemma maintains_isHooksPathDefault : maintains env (isHooksPathDefault env).
Proof. unfold isHooksPathDefault. maintains_all. Qed.

Lemma maintains_getConfigHooksPath : maintains env (getConfigHooksPath env).
Proof. unfold getConfigHooksPath. maintains_all. Qed.

Lemma maintains__tryFetchRemoteBranch (name : string) :
  maintains env (_tryFetchRemoteBranch env name).
Proof. unfold _tryFetchRemoteBranch. maintains_all. Qed.
#[local] Hint Resolve maintains__tryFetchRemoteBranch : maintains.

Lemma maintains__fetchRemoteBranch (name : string) :
  maintains env (_fetchRemoteBranch env name).
Proof. unfold _fetchRemoteBranch. maintains_all. Qed.
#[local] Hint Resolve maintains__fetchRemoteBranch : maintains.

Lemma maintains_getMergeBase (targetBranch : string) (shouldFetch : bool) :
  maintains env (getMergeBase env targetBranch shouldFetch).
Proof. unfold getMergeBase. maintains_all. Qed.

Lemma maintains_getBlobContent (blobSpec repositoryRoot : string) :
  maintains env (getBlobContent env blobSpec repositoryRoot).
Proof. unfold getBlobContent. maintains_all. Qed.

Lemma maintains_getChangedFiles (targetBranch : string) (skipFetch : bool)
      (pathPrefix : option string) :
  maintains env (getChangedFiles env targetBranch skipFetch pathPrefix).
Proof. unfold getChangedFiles. maintains_all. Qed.

Lemma maintains_filterM {A} (f : A -> M bool) (l : list A) :
  (forall x, maintains env (f x)) -> maintains env (filterM f l).
Proof.
  intros Hf. induction l as [|x l IH]; simpl; [apply maintains_ret|].
  apply maintains_bind; [apply Hf|]. intros keep.
  apply maintains_bind; [exact IH|]. intros kept. apply maintains_ret.
Qed.

Lemma maintains_orThrowURIError {A} (normalized : option A) :
  maintains env (orThrowURIError normalized).
Proof. unfold orThrowURIError. maintains_all. Qed.
#[local] Hint Resolve maintains_orThrowURIError : maintains.

Lemma maintains_isMatchingRemote (gp : string) (normalized : list (list N))
      (remoteName : string) :
  maintains env (isMatchingRemote env gp normalized remoteName).
Proof. unfold isMatchingRemote. maintains_all. Qed.

Lemma maintains_getRemoteDefaultBranch : maintains env (getRemoteDefaultBranch env).
Proof.
  unfold getRemoteDefaultBranch.
  apply maintains_bind; [apply maintains_getSelf|]. intros g. cbv zeta.
  destruct (Nat.ltb 0 (List.length (repositoryUrls (_rushConfiguration g))));
    [|maintains_all].
  apply maintains_bind; [auto with maintains|]. intros gp.
  apply maintains_bind; [maintains_all|]. intros rawOutput.
  apply maintains_bind; [auto with maintains|]. intros normalized.
  apply maintains_bind.
  - apply maintains_filterM. intros remoteName. apply maintains_isMatchingRemote.
  - intros matchingRemotes. maintains_all.
Qed.

Lemma maintains__getUntrackedChanges : maintains env (_getUntrackedChanges env).
Proof. unfold _getUntrackedChanges. maintains_all. Qed.
#[local] Hint Resolve maintains__getUntrackedChanges : maintains.

Lemma maintains__getDiffOnHEAD : maintains env (_getDiffOnHEAD env).
Proof. unfold _getDiffOnHEAD. maintains_all. Qed.
#[local] Hint Resolve maintains__getDiffOnHEAD : maintains.

Lemma maintains_getUncommittedChanges : maintains env (getUncommittedChanges env).
Proof. unfold getUncommittedChanges. maintains_all. Qed.
#[local] Hint Resolve maintains_getUncommittedChanges : maintains.

Lemma maintains_hasUncommittedChanges : maintains env (hasUncommittedChanges env).
Proof. unfold hasUncommittedChanges. maintains_all. Qed.

Lemma maintains_getTagSeparator : maintains env getTagSeparator.
Proof. unfold getTagSeparator. maintains_all. Qed.

Lemma Consistent_perform (c : Call) (st : State) :
  Consistent env st -> Consistent env (perform env c st).
Proof.
  intros H. destruct c; simpl.
  - now apply maintains_gitPath.
  - now apply maintains_getGitPathOrThrow.
  - now apply maintains_isGitPresent.
  - now apply maintains_isPathUnderGitWorkingTree.
  - now apply maintains_tryGetGitEmail.
  - now apply maintains_getGitEmail.
  - now apply maintains_getHooksFolder.
  - now apply maintains_isHooksPathDefault.
  - now apply maintains_getConfigHooksPath.
  - now apply maintains_getGitInfo.
  - now apply maintains_getMergeBase.
  - now apply maintains_getBlobContent.
  - now apply maintains_getChangedFiles.
  - now apply maintains_getRemoteDefaultBranch.
  - now apply maintains_hasUncommittedChanges.
  - now apply maintains_getUncommittedChanges.
  - now apply maintains_getTagSeparator.
Qed.

Lemma Consistent_initial (cfg : RushConfiguration) :
  Consistent env (initialState cfg).
Proof. constructor; simpl; unfold probedOnce; auto; discriminate. Qed.

(** Whatever public members are called on a new instance, and in whatever
    order, the instance and its trace stay consistent. *)
Lemma Consistent_performAll (cfg : RushConfiguration) (calls : list Call) :
  Consistent env (performAll env calls (initialState cfg)).
Proof.
  unfold performAll. generalize (Consistent_initial cfg).
  generalize (initialState cfg). induction calls as [|c calls IH]; intros st H.
  - exact H.
  - simpl. apply IH. now apply Consistent_perform.
Qed.

Lemma returns_bind {A B} (m : M A) (k : A -> M B) (st : State) :
  returns (m st) ->
  (forall a st', m st = (Returned a, st') -> returns (k a st')) ->
  returns (bind m k st).
Proof.
  unfold returns, verdictOf, bind. intros Hm Hk.
  destruct (m st) as [[a|e] st1]; simpl in *; [|discriminate].
  now apply Hk.
Qed.

Lemma returns_gitPath (st : State) : returns (gitPath env st).
Proof. now rewrite gitPath_run. Qed.

Lemma returns_isGitPresent (st : State) : returns (isGitPresent env st).
Proof. unfold isGitPresent, bind. now rewrite gitPath_run. Qed.

(** [getGitInfo] never throws: a failure of the collaborator is caught. *)
Lemma getGitInfo_run (st : State) :
  exists st', getGitInfo env st = (Returned (_gitInfo (self st')), st').
Proof.
  unfold getGitInfo, isPathUnderGitWorkingTreeOf, isGitPresent, bind, getSelf,
    tryCatch, call, ret, modifySelf.
  destruct (_checkedGitInfo (self st)); [now exists st|].
  destruct (readGitInfo env (trace st)) as [e|i]; cbn [fst snd];
    [eexists; reflexivity|].
  rewrite gitPath_run.
  destruct (truthyOpt (_gitPath (self (afterGitPath env _))));
    [destruct (truthyOpt (sha i))|]; eexists; reflexivity.
Qed.

Lemma returns_getGitInfo (st : State) : returns (getGitInfo env st).
Proof. destruct (getGitInfo_run st) as [st' ->]. reflexivity. Qed.

Lemma returns_isPathUnderGitWorkingTree (repoInfo : option GitRepoInfo) (st : State) :
  returns (isPathUnderGitWorkingTree env repoInfo st).
Proof.
  unfold isPathUnderGitWorkingTree. apply returns_bind; [apply returns_isGitPresent|].
  intros present st1 _. destruct present; [|reflexivity].
  apply returns_bind; [destruct repoInfo; [reflexivity|apply returns_getGitInfo]|].
  reflexivity.
Qed.

Lemma returns_getHooksFolder (st : State) : returns (getHooksFolder env st).
Proof.
  unfold getHooksFolder. apply returns_bind; [apply returns_getGitInfo|].
  intros [i|] st1 _; [|reflexivity].
  destruct (worktreeGitDir i) as [d|]; [destruct (truthy d)|]; reflexivity.
Qed.

Lemma gitFound_path (g : Git) :
  gitFound g ->
  exists gp, _checkedGitPath g = true /\ _gitPath g = Some gp /\ truthy gp = true.
Proof.
  intros [Hc Hp]. destruct (_gitPath g) as [gp|]; [|discriminate].
  now exists gp.
Qed.

(** With Git found, the hooks path query returns: a failure of the command
    is stored in the slot, not thrown. *)
Lemma returns__tryGetGitHooksPath (st : State) :
  gitFound (self st) -> returns (_tryGetGitHooksPath env st).
Proof.
  intros Hg. destruct (gitFound_path _ Hg) as (gp & Hc & Hp & Ht).
  unfold _tryGetGitHooksPath, bind, getSelf.
  destruct (_gitHooksPath (self st)); [reflexivity|].
  rewrite (getGitPathOrThrow_cached env st gp Hc Hp Ht).
  unfold tryCatch, ret, modifySelf.
  now destruct (_executeGitCommandAndCaptureOutput env gp _ None st) as [[out|e] st1].
Qed.

Lemma returns_isHooksPathDefault (st : State) :
  Consistent env st -> returns (isHooksPathDefault env st).
Proof.
  intros HC. pose proof (maintains_getGitInfo st HC) as HC1.
  unfold isHooksPathDefault, bind.
  destruct (getGitInfo_run st) as [st1 Hrun]. rewrite Hrun in *. cbn [snd] in HC1.
  pose proof (gitInfoNeedsGit env st1 HC1) as Hneeds.
  destruct (_gitInfo (self st1)) as [i|]; [|reflexivity].
  destruct Hneeds as [_ Hg].
  destruct (commonGitDir i) as [d|]; [|reflexivity].
  destruct (truthy d); [|reflexivity].
  unfold isHooksPathDefaultIn. apply returns_bind.
  - now apply returns__tryGetGitHooksPath.
  - intros r st2 _. destruct (error r); [reflexivity|].
    destruct (result r) as [v|]; [destruct (truthy v)|]; reflexivity.
Qed.

End WithEnv.

(** X1.  Whatever public members are called on a new instance, the PATH is
    searched for the Git binary once at most. *)
Theorem path_searched_at_most_once
        (env : Env) (cfg : RushConfiguration) (calls : list Call) :
  countEvents isPathSearch (trace (performAll env calls (initialState cfg))) <= 1.
Proof.
  pose proof (pathSearchedOnce env _ (Consistent_performAll env cfg calls)) as H.
  exact (probedOnce_raise _ _ _ H).
Qed.

(** X2.  Whatever public members are called on a new instance, the
    repository information is read once at most. *)
Theorem git_info_read_at_most_once
        (env : Env) (cfg : RushConfiguration) (calls : list Call) :
  countEvents isGitInfoRead (trace (performAll env calls (initialState cfg))) <= 1.
Proof.
  pose proof (gitInfoReadOnce env _ (Consistent_performAll env cfg calls)) as H.
  exact (probedOnce_raise _ _ _ H).
Qed.

(** X3.  Whatever public members are called on a new instance, and whatever
    [git config user.email] answers, it runs once at most. *)
Theorem email_probed_at_most_once
        (env : Env) (cfg : RushConfiguration) (calls : list Call) :
  countEvents isEmailProbe (trace (performAll env calls (initialState cfg))) <= 1.
Proof.
  pose proof (emailProbedOnce env _ (Consistent_performAll env cfg calls)) as H.
  exact (probedOnce_raise _ _ _ H).
Qed.

(** X4.  Whatever public members are called on a new instance, and whatever
    [git rev-parse --git-path hooks] answers, it runs once at most. *)
Theorem hooks_probed_at_most_once
        (env : Env) (cfg : RushConfiguration) (calls : list Call) :
  countEvents isHooksProbe (trace (performAll env calls (initialState cfg))) <= 1.
Proof.
  pose proof (hooksProbedOnce env _ (Consistent_performAll env cfg calls)) as H.
  exact (probedOnce_raise _ _ _ H).
Qed.

(** X5.  When the environment names the Git binary, the PATH is never
    searched, whatever public members are called. *)
Theorem override_skips_path_search
        (env : Env) (cfg : RushConfiguration) (calls : list Call) :
  truthyOpt (gitBinaryPath env) = true ->
  countEvents isPathSearch (trace (performAll env calls (initialState cfg))) = 0.
Proof.
  exact (overrideSkipsSearch env _ (Consistent_performAll env cfg calls)).
Qed.

(** X5 with the binary named, after a lookup and three queries. *)
Lemma override_skips_path_search_witness :
  truthyOpt (gitBinaryPath diffEnv) = true /\
  countEvents isPathSearch
    (trace (performAll diffEnv
              [CallGetGitPathOrThrow; CallGetGitEmail; CallGetUncommittedChanges;
               CallIsHooksPathDefault]
              (initialState (sampleConfiguration [])))) = 0.
Proof.
  split; [reflexivity|].
  apply (override_skips_path_search diffEnv (sampleConfiguration [])
           [CallGetGitPathOrThrow; CallGetGitEmail; CallGetUncommittedChanges;
            CallIsHooksPathDefault]).
  reflexivity.
Defined.

(** X6.  After any calls on a new instance, [getGitInfo] does not throw,
    and the information it returns, if any, has a commit hash and comes
    with the Git binary found. *)
Theorem getGitInfo_needs_git_and_sha
        (env : Env) (cfg : RushConfiguration) (calls : list Call) :
  match getGitInfo env (performAll env calls (initialState cfg)) with
  | (Returned (Some i), st') => truthyOpt (sha i) = true /\ gitFound (self st')
  | (Returned None, _) => True
  | (Threw _, _) => False
  end.
Proof.
  pose proof (Consistent_performAll env cfg calls) as HC.
  pose proof (maintains_getGitInfo env _ HC) as HC1.
  destruct (getGitInfo_run env (performAll env calls (initialState cfg)))
    as [st1 Hrun].
  rewrite Hrun in *. cbn [snd] in HC1.
  pose proof (gitInfoNeedsGit env st1 HC1) as H.
  now destruct (_gitInfo (self st1)).
Qed.

(** X7.  After any calls on a new instance, the members that only consult
    the caches return and never throw, with or without Git. *)
Theorem cache_queries_never_throw
        (env : Env) (cfg : RushConfiguration) (calls : list Call) (c : Call) :
  isCacheQuery c = true ->
  verdict env c (performAll env calls (initialState cfg)) = ReturnedNormally.
Proof.
  intros Hc. pose proof (Consistent_performAll env cfg calls) as HC.
  destruct c; try discriminate; simpl.
  - apply returns_gitPath.
  - apply returns_isGitPresent.
  - apply returns_isPathUnderGitWorkingTree.
  - apply returns_getHooksFolder.
  - now apply returns_isHooksPathDefault.
  - apply returns_getGitInfo.
  - reflexivity.
Qed.

(** X7 without a Git binary. *)
Lemma cache_queries_never_throw_witness :
  isCacheQuery CallIsHooksPathDefault = true /\
  verdict noGitEnv CallIsHooksPathDefault
    (performAll noGitEnv [CallGetGitInfo; CallGetGitEmail]
       (initialState (sampleConfiguration [])))
  = ReturnedNormally.
Proof.
  split; [reflexivity|].
  apply (cache_queries_never_throw noGitEnv (sampleConfiguration [])
           [CallGetGitInfo; CallGetGitEmail] CallIsHooksPathDefault).
  reflexivity.
Defined.

Section WithoutGit.
Variable env : Env.

Lemma afterGitPath_invocations (st : State) :
  filter isGitInvocation (trace (afterGitPath env st))
  = filter isGitInvocation (trace st).
Proof.
  unfold afterGitPath.
  destruct (_checkedGitPath (self st)); [reflexivity|].
  destruct (truthyOpt (gitBinaryPath env)); [reflexivity|].
  simpl. rewrite filter_app. simpl. now rewrite app_nil_r.
Qed.

Lemma afterGitPath_fields (st : State) :
  _rushConfiguration (self (afterGitPath env st)) = _rushConfiguration (self st) /\
  _gitEmailResult (self (afterGitPath env st)) = _gitEmailResult (self st).
Proof.
  unfold afterGitPath.
  destruct (_checkedGitPath (self st)); [now split|].
  now destruct (truthyOpt (gitBinaryPath env)).
Qed.

(** When [isGitPresent] answers no, [getGitPathOrThrow] throws. *)
Lemma absent_getGitPathOrThrow (st : State) :
  fst (isGitPresent env st) = Returned false ->
  getGitPathOrThrow env st
  = (Threw (Error "Git is not present"), afterGitPath env st).
Proof.
  unfold isGitPresent, getGitPathOrThrow, bind. rewrite gitPath_run.
  unfold ret, throw. cbn [fst]. intros H. injection H as H.
  destruct (_gitPath (self (afterGitPath env st))) as [p|]; [|reflexivity].
  simpl in H. now rewrite H.
Qed.

Lemma absent_not_found (st : State) :
  fst (isGitPresent env st) = Returned false -> ~ gitFound (self st).
Proof.
  unfold isGitPresent, bind. rewrite gitPath_run. unfold ret. cbn [fst].
  intros H [Hc Hp]. injection H as H.
  unfold afterGitPath in H. rewrite Hc in H. congruence.
Qed.

Lemma absent_conclusion {A} (run : Outcome A * State) (st : State) (e : Exn) :
  run = (Threw e, afterGitPath env st) ->
  verdictOf run = ThrewError e /\
  filter isGitInvocation (trace (snd run)) = filter isGitInvocation (trace st).
Proof. intros ->. split; [reflexivity|apply afterGitPath_invocations]. Qed.

Lemma absent_perform (c : Call) (st : State) :
  Consistent env st ->
  fst (isGitPresent env st) = Returned false ->
  needsGitAtOnce st c = true ->
  verdict env c st = ThrewError (Error "Git is not present") /\
  filter isGitInvocation (trace (perform env c st))
  = filter isGitInvocation (trace st).
Proof.
  intros HC Habs Hc.
  pose proof (absent_getGitPathOrThrow st Habs) as Hthrow.
  pose proof (absent_not_found st Habs) as Hnot.
  assert (Hslot : _gitEmailResult (self st) = None).
  { destruct (_gitEmailResult (self st)) eqn:E; [|reflexivity].
    exfalso. apply Hnot. apply (slotsNeedGit env st HC). now rewrite E. }
  destruct c; try discriminate; simpl in Hc; simpl verdict; simpl perform;
    apply absent_conclusion.
  - exact Hthrow.
  - unfold tryGetGitEmail, _tryGetGitEmail, bind, getSelf.
    now rewrite Hslot, Hthrow.
  - unfold getGitEmail, _tryGetGitEmail, bind, getSelf.
    now rewrite Hslot, Hthrow.
  - unfold getConfigHooksPath, bind. now rewrite Hthrow.
  - destruct shouldFetch; [discriminate|].
    unfold getMergeBase, bind, ret. now rewrite Hthrow.
  - unfold getBlobContent, bind. now rewrite Hthrow.
  - subst skipFetch. unfold getChangedFiles, bind, ret. simpl.
    now rewrite Hthrow.
  - unfold getRemoteDefaultBranch, bind, getSelf. rewrite Hc.
    now rewrite Hthrow.
  - unfold hasUncommittedChanges, getUncommittedChanges, _getUntrackedChanges, bind.
    now rewrite Hthrow.
  - unfold getUncommittedChanges, _getUntrackedChanges, bind.
    now rewrite Hthrow.
Qed.

End WithoutGit.

(** X8.  After any calls on a new instance, if [isGitPresent] answers no,
    then every member that needs Git before anything else throws the error
    [Git is not present], and no Git process is started. *)
Theorem git_absent_throws_before_any_process
        (env : Env) (cfg : RushConfiguration) (calls : list Call) (c : Call) :
  fst (isGitPresent env (performAll env calls (initialState cfg)))
  = Returned false ->
  needsGitAtOnce (performAll env calls (initialState cfg)) c = true ->
  verdict env c (performAll env calls (initialState cfg))
  = ThrewError (Error "Git is not present") /\
  filter isGitInvocation
         (trace (perform env c (performAll env calls (initialState cfg))))
  = filter isGitInvocation (trace (performAll env calls (initialState cfg))).
Proof.
  intros Habs Hc. apply absent_perform; [|exact Habs|exact Hc].
  apply Consistent_performAll.
Qed.

(** X8 for [getUncommittedChanges], after the repository information was
    asked for. *)
Lemma git_absent_throws_before_any_process_witness :
  fst (isGitPresent noGitEnv
         (performAll noGitEnv [CallGetGitInfo]
            (initialState (sampleConfiguration []))))
  = Returned false /\
  needsGitAtOnce
    (performAll noGitEnv [CallGetGitInfo] (initialState (sampleConfiguration [])))
    CallGetUncommittedChanges = true /\
  verdict noGitEnv CallGetUncommittedChanges
    (performAll noGitEnv [CallGetGitInfo] (initialState (sampleConfiguration [])))
  = ThrewError (Error "Git is not present") /\
  filter isGitInvocation
         (trace (perform noGitEnv CallGetUncommittedChanges
                   (performAll noGitEnv [CallGetGitInfo]
                      (initialState (sampleConfiguration [])))))
  = filter isGitInvocation
      (trace (performAll noGitEnv [CallGetGitInfo]
                (initialState (sampleConfiguration [])))).
Proof.
  split; [reflexivity|]. split; [reflexivity|].
  apply (git_absent_throws_before_any_process noGitEnv (sampleConfiguration [])
           [CallGetGitInfo] CallGetUncommittedChanges);
    reflexivity.
Defined.

(** X9.  On an instance whose email slot is well formed, [tryGetGitEmail]
    and [getGitEmail] agree and leave the same cache: the first returns an
    address exactly when the second returns that address; the first returns
    nothing exactly when the second throws [AlreadyReportedError]; and the
    first throws exactly when the second throws the same error. *)
Theorem tryGetGitEmail_agrees_with_getGitEmail (env : Env) (st : State) :
  cachesWellFormed (self st) ->
  match tryGetGitEmail env st, getGitEmail env st with
  | (Returned (Some address), st1), (Returned address', st2) =>
      address' = address /\ st2 = st1
  | (Returned None, st1), (Threw e, st2) =>
      e = AlreadyReportedError /\ self st2 = self st1
  | (Threw e, st1), (Threw e', st2) => e' = e /\ st2 = st1
  | _, _ => False
  end.
Proof.
  intros Hwf.
  destruct (GitProperties.keeps_tryGetGitEmail_slot env st Hwf) as [_ Hone].
  unfold tryGetGitEmail, getGitEmail, bind.
  destruct (_tryGetGitEmail env st) as [[r|e] st1]; cbn [fst] in Hone;
    [|now split].
  destruct r as [[e|] [v|]]; try discriminate; cbn [error result].
  - unfold consoleLog, emit, throw. now split.
  - destruct (truthy v); unfold ret, getSelf, consoleLog, emit, throw;
      now split.
Qed.

(** X9 on a new instance whose Git prints an address. *)
Lemma tryGetGitEmail_agrees_with_getGitEmail_witness :
  cachesWellFormed (self freshState) /\
  match tryGetGitEmail diffEnv freshState, getGitEmail diffEnv freshState with
  | (Returned (Some address), st1), (Returned address', st2) =>
      address' = address /\ st2 = st1
  | (Returned None, st1), (Threw e, st2) =>
      e = AlreadyReportedError /\ self st2 = self st1
  | (Threw e, st1), (Threw e', st2) => e' = e /\ st2 = st1
  | _, _ => False
  end.
Proof.
  split; [split; exact I|].
  apply (tryGetGitEmail_agrees_with_getGitEmail diffEnv freshState).
  split; exact I.
Defined.

End GitInvariantFacts.

(* ================================================================== *)
(** ** What the members make of the output of Git *)
(* ================================================================== *)

Module GitOutputFacts.
Import JsString GitModel GitSpec GitInvariants GitFacts.
Local Open Scope git_scope.

Lemma trimEnd_cons (c : ascii) (s : string) :
  trimEnd (String c s)
  = match trimEnd s with
    | EmptyString => if isWhiteSpace c then EmptyString else String c EmptyString
    | r => String c r
    end.
Proof. reflexivity. Qed.

(** What [trimStart] leaves is empty or starts with a character that is not
    white space. *)
Lemma trimStart_shape (s : string) :
  trimStart s = EmptyString \/
  exists c s', trimStart s = String c s' /\ isWhiteSpace c = false.
Proof.
  induction s as [|c s IH]; simpl; [now left|].
  destruct (isWhiteSpace c) eqn:W; [exact IH|].
  right. now exists c, s.
Qed.

Lemma trimEnd_head (c : ascii) (s : string) :
  isWhiteSpace c = false -> exists r, trimEnd (String c s) = String c r.
Proof.
  intros W. rewrite trimEnd_cons.
  destruct (trimEnd s); [rewrite W|]; eexists; reflexivity.
Qed.

Lemma trimEnd_idempotent (s : string) : trimEnd (trimEnd s) = trimEnd s.
Proof.
  induction s as [|c s IH]; [reflexivity|].
  rewrite (trimEnd_cons c s).
  destruct (trimEnd s) as [|d r] eqn:E.
  - destruct (isWhiteSpace c) eqn:W; [reflexivity|].
    rewrite trimEnd_cons. simpl. now rewrite W.
  - rewrite trimEnd_cons, IH. reflexivity.
Qed.

(** [trim] does nothing to a string that it has returned. *)
Lemma trim_idempotent (s : string) : trim (trim s) = trim s.
Proof.
  unfold trim.
  destruct (trimStart_shape s) as [-> | (c & s' & -> & W)]; [reflexivity|].
  destruct (trimEnd_head c s' W) as [r E]. rewrite E.
  simpl trimStart. rewrite W, <- E. apply trimEnd_idempotent.
Qed.

Lemma all_trimStart (P : ascii -> bool) (s : string) :
  all P s = true -> all P (trimStart s) = true.
Proof.
  induction s as [|c s IH]; simpl; [reflexivity|].
  intros H. destruct (isWhiteSpace c); [|exact H].
  apply andb_true_iff in H as [_ H]. now apply IH.
Qed.

Lemma all_trimEnd (P : ascii -> bool) (s : string) :
  all P s = true -> all P (trimEnd s) = true.
Proof.
  induction s as [|c s IH]; [reflexivity|].
  rewrite trimEnd_cons. simpl. intros H. apply andb_true_iff in H as [Hc Hs].
  specialize (IH Hs).
  destruct (trimEnd s) as [|d r].
  - destruct (isWhiteSpace c); simpl; [reflexivity|now rewrite Hc].
  - simpl in *. now rewrite Hc, IH.
Qed.

Lemma all_trim (P : ascii -> bool) (s : string) :
  all P s = true -> all P (trim s) = true.
Proof. intros H. unfold trim. now apply all_trimEnd, all_trimStart. Qed.

(** No piece of [split('\n')] has a newline. *)
Lemma splitLines_oneLine (s : string) :
  Forall (fun line => isOneLine line = true) (splitLines s).
Proof.
  induction s as [|c s IH]; simpl; [now constructor|].
  destruct (isCode 10 c) eqn:E; [now constructor|].
  destruct (splitLines s) as [|l ls]; [constructor; [|constructor]|].
  - unfold isOneLine. simpl. now rewrite E.
  - inversion IH as [|? ? Hl Hls]; subst. constructor; [|exact Hls].
    unfold isOneLine in *. simpl. now rewrite E, Hl.
Qed.

Lemma trimStart_blank (s : string) :
  isBlank s = true -> trimStart s = EmptyString.
Proof.
  unfold isBlank. induction s as [|c s IH]; simpl; [reflexivity|].
  intros H. apply andb_true_iff in H as [Hc Hs]. now rewrite Hc, IH.
Qed.

Lemma trimStart_not_blank (s : string) :
  isBlank s = false ->
  exists c s', trimStart s = String c s' /\ isWhiteSpace c = false.
Proof.
  unfold isBlank. induction s as [|c s IH]; simpl; [discriminate|].
  destruct (isWhiteSpace c) eqn:W; simpl; [exact IH|].
  intros _. now exists c, s.
Qed.

Lemma newline_isWhiteSpace (c : ascii) :
  isWhiteSpace c = false -> isCode 10 c = false.
Proof.
  unfold isWhiteSpace, inRange, isCode. intros H.
  apply orb_false_iff in H as [H _]. apply orb_false_iff in H as [H _].
  destruct (N.eqb_spec (charCode c) 10) as [E|]; [|reflexivity].
  rewrite E in H. discriminate.
Qed.

Lemma trim_head (c : ascii) (s : string) :
  isWhiteSpace c = false -> exists r, trim (String c s) = String c r.
Proof.
  intros W. unfold trim. simpl trimStart. rewrite W. now apply trimEnd_head.
Qed.

(** The entries that [getUncommittedChanges] keeps of one output. *)
Lemma entries_of_blank_output (output : string) :
  isBlank output = true ->
  filter (fun change => Nat.ltb 0 (String.length (trim change)))
         (splitLines (trim output)) = [].
Proof.
  intros H. unfold trim at 2. now rewrite (trimStart_blank _ H).
Qed.

Lemma entries_of_other_output (output : string) :
  isBlank output = false ->
  exists change changes,
    filter (fun change => Nat.ltb 0 (String.length (trim change)))
           (splitLines (trim output)) = change :: changes.
Proof.
  intros H. destruct (trimStart_not_blank _ H) as (c & s' & E & W).
  unfold trim at 2. rewrite E.
  destruct (trimEnd_head c s' W) as [r ->].
  simpl splitLines. rewrite (newline_isWhiteSpace c W).
  assert (Hhead : forall l, Nat.ltb 0 (String.length (trim (String c l))) = true).
  { intros l. destruct (trim_head c l W) as [r' ->]. reflexivity. }
  destruct (splitLines r) as [|l ls]; simpl filter; rewrite Hhead;
    eexists; eexists; reflexivity.
Qed.

Section WithEnv.
Variable env : Env.

Lemma changedFilesOfOutput_entries (pathPrefix : option string) (output : string) :
  Forall (fun file =>
            truthy file = true /\ trim file = file /\ isOneLine file = true /\
            match pathPrefix with
            | Some p => negb (truthy p) || isUnderOrEqual env file p = true
            | None => True
            end)
         (changedFilesOfOutput env pathPrefix output).
Proof.
  unfold changedFilesOfOutput.
  pose proof (splitLines_oneLine output) as Hlines.
  induction (splitLines output) as [|line lines IH]; cbn [map filter];
    [constructor|].
  inversion Hlines as [|? ? Hline Hrest]; subst. specialize (IH Hrest).
  destruct (isKeptLine (changedFileOfLine env pathPrefix line)) eqn:Hkept;
    [|exact IH].
  cbn [map]. constructor; [|exact IH].
  unfold changedFileOfLine in *.
  destruct (truthy line); [|discriminate].
  assert (Hone : isOneLine (trim line) = true) by now apply all_trim.
  destruct pathPrefix as [p|].
  - destruct (negb (truthy p) || isUnderOrEqual env (trim line) p) eqn:Hp;
      [|discriminate].
    simpl in Hkept. repeat split; auto using trim_idempotent.
  - simpl in Hkept. repeat split; auto using trim_idempotent.
Qed.

(** What [getUncommittedChanges] does when Git is found and the two
    commands answer. *)
Lemma getUncommittedChanges_run (st st1 : State) (gp untracked diff : string) :
  getGitPathOrThrow env st = (Returned gp, st1) ->
  executeCommandAndCaptureOutput env (trace st1) gp
    ["ls-files"; "--exclude-standard"; "--others"] (cwdOf st1) = inr untracked ->
  executeCommandAndCaptureOutput env
    (trace (afterCommand st1 gp ["ls-files"; "--exclude-standard"; "--others"]))
    gp ["diff"; "HEAD"; "--name-only"] (cwdOf st1) = inr diff ->
  getUncommittedChanges env st
  = (Returned
       (filter (fun change => Nat.ltb 0 (String.length (trim change)))
               (splitLines (trim untracked) ++ splitLines (trim diff))),
     afterCommand
       (afterCommand st1 gp ["ls-files"; "--exclude-standard"; "--others"])
       gp ["diff"; "HEAD"; "--name-only"]).
Proof.
  intros Hgit Hls Hdiff.
  destruct (getGitPathOrThrow_returned env st st1 gp Hgit)
    as (Ht & Hc & Hp & _).
  unfold getUncommittedChanges, _getUntrackedChanges, _getDiffOnHEAD, bind, ret.
  rewrite Hgit, (execute_returned env st1 gp _ _ Hls).
  fold (afterCommand st1 gp ["ls-files"; "--exclude-standard"; "--others"]).
  set (st2 := afterCommand st1 gp _) in *.
  rewrite (getGitPathOrThrow_cached env st2 gp Hc Hp Ht).
  rewrite (execute_returned env st2 gp _ diff Hdiff).
  reflexivity.
Qed.

End WithEnv.

(** X10.  Every path that [getChangedFiles] returns is not empty, is
    trimmed, has no newline, and, when a path prefix that is not empty is
    given, is under that prefix according to [Path.isUnderOrEqual]. *)
Theorem getChangedFiles_entries
        (env : Env) (st : State) (targetBranch : string) (skipFetch : bool)
        (pathPrefix : option string) :
  match getChangedFiles env targetBranch skipFetch pathPrefix st with
  | (Returned files, _) =>
      Forall (fun file =>
                truthy file = true /\ trim file = file /\ isOneLine file = true /\
                match pathPrefix with
                | Some p => negb (truthy p) || isUnderOrEqual env file p = true
                | None => True
                end)
             files
  | (Threw _, _) => True
  end.
Proof.
  unfold getChangedFiles, bind.
  destruct ((if negb skipFetch then _fetchRemoteBranch env targetBranch else ret tt) st)
    as [[[]|e] st1]; [|exact I].
  destruct (getGitPathOrThrow env st1) as [[gp|e] st2]; [|exact I].
  destruct (_executeGitCommandAndCaptureOutput env gp _ None st2)
    as [[output|e] st3]; [|exact I].
  apply changedFilesOfOutput_entries.
Qed.

(** X11.  Every entry that [getUncommittedChanges] returns has no newline
    and has a character that is not white space. *)
Theorem getUncommittedChanges_entries (env : Env) (st : State) :
  match getUncommittedChanges env st with
  | (Returned changes, _) =>
      Forall (fun change =>
                isBlank change = false /\ isOneLine change = true)
             changes
  | (Threw _, _) => True
  end.
Proof.
  unfold getUncommittedChanges, _getUntrackedChanges, _getDiffOnHEAD, bind, ret.
  destruct (getGitPathOrThrow env st) as [[gp|e] st1]; [|exact I].
  destruct (_executeGitCommandAndCaptureOutput env gp _ None st1)
    as [[untracked|e] st2]; [|exact I].
  destruct (getGitPathOrThrow env st2) as [[gp'|e] st3]; [|exact I].
  destruct (_executeGitCommandAndCaptureOutput env gp' _ None st3)
    as [[diff|e] st4]; [|exact I].
  apply Forall_forall. intros change Hin.
  apply filter_In in Hin as [Hin Hkept]. simpl in Hin.
  split.
  - destruct (isBlank change) eqn:B; [|reflexivity].
    unfold trim in Hkept. now rewrite (trimStart_blank _ B) in Hkept.
  - apply in_app_or in Hin as [Hin|Hin].
    + exact (proj1 (Forall_forall _ _) (splitLines_oneLine (trim untracked)) _ Hin).
    + exact (proj1 (Forall_forall _ _) (splitLines_oneLine (trim diff)) _ Hin).
Qed.

(** X12.  When Git is found and the two queries answer,
    [hasUncommittedChanges] returns true exactly when one of the two
    outputs has a character that is not white space. *)
Theorem hasUncommittedChanges_of_outputs
        (env : Env) (st st1 : State) (gp untracked diff : string) :
  getGitPathOrThrow env st = (Returned gp, st1) ->
  executeCommandAndCaptureOutput env (trace st1) gp
    ["ls-files"; "--exclude-standard"; "--others"] (cwdOf st1) = inr untracked ->
  executeCommandAndCaptureOutput env
    (trace (afterCommand st1 gp ["ls-files"; "--exclude-standard"; "--others"]))
    gp ["diff"; "HEAD"; "--name-only"] (cwdOf st1) = inr diff ->
  fst (hasUncommittedChanges env st)
  = Returned (negb (isBlank untracked && isBlank diff)).
Proof.
  intros Hgit Hls Hdiff.
  unfold hasUncommittedChanges, bind.
  rewrite (getUncommittedChanges_run env st st1 gp untracked diff Hgit Hls Hdiff).
  unfold ret. cbn [fst]. f_equal.
  rewrite filter_app, length_app.
  destruct (isBlank untracked) eqn:Bu.
  - rewrite (entries_of_blank_output _ Bu).
    destruct (isBlank diff) eqn:Bd.
    + now rewrite (entries_of_blank_output _ Bd).
    + now destruct (entries_of_other_output _ Bd) as (c & cs & ->).
  - now destruct (entries_of_other_output _ Bu) as (c & cs & ->).
Qed.

(** X12 on a new instance, with [sampleUntrackedOutput]. *)
Lemma hasUncommittedChanges_of_outputs_witness :
  getGitPathOrThrow untrackedEnv freshState
    = (Returned "/usr/bin/git", snd (getGitPathOrThrow untrackedEnv freshState)) /\
  fst (hasUncommittedChanges untrackedEnv freshState)
  = Returned (negb (isBlank sampleUntrackedOutput && isBlank EmptyString)).
Proof.
  split; [reflexivity|].
  apply (hasUncommittedChanges_of_outputs untrackedEnv freshState
           (snd (getGitPathOrThrow untrackedEnv freshState)) "/usr/bin/git"
           sampleUntrackedOutput EmptyString); reflexivity.
Defined.

(** X13.  [getConfigHooksPath] swallows every failure of the command: the
    one error it throws is [Git is not present], before any Git process is
    started; and the path it returns is trimmed. *)
Theorem getConfigHooksPath_outcome (env : Env) (st : State) :
  match getConfigHooksPath env st with
  | (Returned path, _) => trim path = path
  | (Threw e, st') =>
      e = Error "Git is not present" /\
      filter isGitInvocation (trace st') = filter isGitInvocation (trace st)
  end.
Proof.
  unfold getConfigHooksPath, bind, tryCatch, ret.
  destruct (getGitPathOrThrow env st) as [[gp|e] st1] eqn:Hgit.
  - destruct (_executeGitCommandAndCaptureOutput env gp _ None st1)
      as [[output|e] st2]; [apply trim_idempotent|reflexivity].
  - destruct (getGitPathOrThrow_threw env st st1 e Hgit) as (-> & _ & _ & Htr).
    split; [reflexivity|].
    destruct Htr as [-> | ->]; [reflexivity|].
    rewrite filter_app. simpl. now rewrite app_nil_r.
Qed.

(** X14.  For a branch name of the form [<remote>/<branch name>], when Git
    is found and the fetch ends with status zero, the fetch step writes no
    warning: the announcement and the fetch are all that happens, and
    [getMergeBase] (with [shouldFetch]) and [getChangedFiles] (without
    [skipFetch]) go on as they do without a fetch. *)
Theorem fetch_success_is_silent
        (env : Env) (st st1 : State) (remote branch gp : string)
        (pathPrefix : option string) :
  indexOfChar "/" remote = None ->
  getGitPathOrThrow env (afterFetchAnnouncement st (remoteBranch remote branch))
    = (Returned gp, st1) ->
  spawnSync env (trace st1) gp ["fetch"; remote; branch] = inr (Some 0) ->
  _fetchRemoteBranch env (remoteBranch remote branch) st
    = (Returned tt, afterFetch st1 gp remote branch) /\
  getMergeBase env (remoteBranch remote branch) true st
    = getMergeBase env (remoteBranch remote branch) false
        (afterFetch st1 gp remote branch) /\
  getChangedFiles env (remoteBranch remote branch) false pathPrefix st
    = getChangedFiles env (remoteBranch remote branch) true pathPrefix
        (afterFetch st1 gp remote branch).
Proof.
  intros Hremote Hgit Hspawn.
  assert (Hfetch : _fetchRemoteBranch env (remoteBranch remote branch) st
                   = (Returned tt, afterFetch st1 gp remote branch)).
  { unfold _fetchRemoteBranch, _tryFetchRemoteBranch, consoleLog, emit, bind, call, ret.
    fold (afterFetchAnnouncement st (remoteBranch remote branch)).
    rewrite (GitProperties.indexOfChar_remoteBranch remote branch Hremote), Hgit.
    rewrite GitProperties.substr_remoteBranch, GitProperties.substrFrom_remoteBranch.
    now rewrite Hspawn. }
  split; [exact Hfetch|].
  unfold getMergeBase, getChangedFiles. simpl negb. cbv iota.
  split.
  - now rewrite (bind_returned _ _ _ _ _ Hfetch).
  - now rewrite (bind_returned _ _ _ _ _ Hfetch).
Qed.

(** X14 on [origin/main]. *)
Lemma fetch_success_is_silent_witness :
  indexOfChar "/" "origin" = None /\
  spawnSync fetchingEnv
    (trace (snd (getGitPathOrThrow fetchingEnv
                   (afterFetchAnnouncement freshState (remoteBranch "origin" "main")))))
    "/usr/bin/git" ["fetch"; "origin"; "main"] = inr (Some 0) /\
  (_fetchRemoteBranch fetchingEnv (remoteBranch "origin" "main") freshState
    = (Returned tt,
       afterFetch
         (snd (getGitPathOrThrow fetchingEnv
                 (afterFetchAnnouncement freshState (remoteBranch "origin" "main"))))
         "/usr/bin/git" "origin" "main") /\
   getMergeBase fetchingEnv (remoteBranch "origin" "main") true freshState
    = getMergeBase fetchingEnv (remoteBranch "origin" "main") false
        (afterFetch
           (snd (getGitPathOrThrow fetchingEnv
                   (afterFetchAnnouncement freshState (remoteBranch "origin" "main"))))
           "/usr/bin/git" "origin" "main") /\
   getChangedFiles fetchingEnv (remoteBranch "origin" "main") false None freshState
    = getChangedFiles fetchingEnv (remoteBranch "origin" "main") true None
        (afterFetch
           (snd (getGitPathOrThrow fetchingEnv
                   (afterFetchAnnouncement freshState (remoteBranch "origin" "main"))))
           "/usr/bin/git" "origin" "main")).
Proof.
  split; [reflexivity|]. split; [reflexivity|].
  apply (fetch_success_is_silent fetchingEnv freshState
           (snd (getGitPathOrThrow fetchingEnv
                   (afterFetchAnnouncement freshState (remoteBranch "origin" "main"))))
           "origin" "main" "/usr/bin/git" None);
    reflexivity.
Defined.

Section Remotes.
Variable env : Env.
Variable answer : list string -> Exn + string.
Hypothesis answers :
  forall tr gp args cwd,
    executeCommandAndCaptureOutput env tr gp args cwd = answer args.

Lemma execute_answered (st : State) (gp : string) (args : list string)
      (out : string) :
  answer args = inr out ->
  _executeGitCommandAndCaptureOutput env gp args None st
  = (Returned out, afterCommand st gp args).
Proof.
  intros H. apply execute_returned. now rewrite answers.
Qed.

Lemma filterM_remotes (gp : string) (normalized : list (list N))
      (remotes : list string) (st : State) :
  forallb (remoteAnswered (toASCII env) answer) remotes = true ->
  exists st',
    filterM (isMatchingRemote env gp normalized) remotes st
    = (Returned (filter (remoteMatches (toASCII env) answer normalized) remotes),
       st').
Proof.
  revert st. induction remotes as [|name rest IH]; intros st Hall.
  - now exists st.
  - cbn [forallb] in Hall. apply andb_true_iff in Hall as [Hname Hrest].
    cbn [filterM filter]. unfold bind at 1.
    assert (Hcall : exists st1,
               isMatchingRemote env gp normalized name st
               = (Returned (remoteMatches (toASCII env) answer normalized name),
                  st1)).
    { unfold isMatchingRemote, remoteAnswered, remoteMatches in *.
      destruct (truthy name); [|now exists st].
      simpl in Hname.
      destruct (answer ["remote"; "get-url"; name]) as [e|rawUrl] eqn:Ha;
        [discriminate|].
      unfold bind at 1. rewrite (execute_answered st gp _ rawUrl Ha).
      cbv zeta. destruct (truthy (trim rawUrl)); [|eexists; reflexivity].
      simpl in Hname. cbn [negb andb].
      destruct (UrlNormalizer.normalizedUpperCase (toASCII env) (trim rawUrl))
        as [normalizedRemoteUrl|]; [|discriminate].
      eexists. reflexivity. }
    destruct Hcall as [st1 ->].
    unfold bind at 1. destruct (IH st1 Hrest) as [st' ->].
    eexists. reflexivity.
Qed.

Lemma getRemoteDefaultBranch_answered (st st1 : State) (gp remotes : string)
      (normalized : list (list N)) :
  Nat.ltb 0 (List.length (repositoryUrls (_rushConfiguration (self st)))) = true ->
  getGitPathOrThrow env st = (Returned gp, st1) ->
  answer ["remote"] = inr remotes ->
  UrlNormalizer.normalizedUpperCaseAll
    (toASCII env) (repositoryUrls (_rushConfiguration (self st)))
    = Some normalized ->
  forallb (remoteAnswered (toASCII env) answer) (splitLines (trim remotes)) = true ->
  fst (getRemoteDefaultBranch env st)
  = Returned
      match filter (remoteMatches (toASCII env) answer normalized)
                   (splitLines (trim remotes)) with
      | first :: _ =>
          (first ++ "/" ++ repositoryDefaultBranch (_rushConfiguration (self st)))%string
      | [] =>
          repositoryDefaultFullyQualifiedRemoteBranch (_rushConfiguration (self st))
      end.
Proof.
  intros Hurls Hgit Hremote Hnormalized Hall.
  unfold getRemoteDefaultBranch. unfold bind at 1. unfold getSelf at 1.
  cbv zeta. rewrite Hurls.
  unfold bind at 1. rewrite Hgit.
  unfold bind at 1. rewrite (execute_answered st1 gp _ remotes Hremote).
  cbv zeta. unfold bind at 1. rewrite Hnormalized.
  unfold orThrowURIError at 1, ret at 1.
  unfold bind at 1.
  destruct (filterM_remotes gp normalized (splitLines (trim remotes))
              (afterCommand st1 gp ["remote"]) Hall) as [st' ->].
  destruct (filter _ (splitLines (trim remotes))) as [|first [|second others]];
    reflexivity.
Qed.

(** A configured URL that [url.parse] refuses makes the method throw, once
    [git remote] has answered. *)
Lemma getRemoteDefaultBranch_refused_url (st st1 : State) (gp remotes : string) :
  Nat.ltb 0 (List.length (repositoryUrls (_rushConfiguration (self st)))) = true ->
  getGitPathOrThrow env st = (Returned gp, st1) ->
  answer ["remote"] = inr remotes ->
  UrlNormalizer.normalizedUpperCaseAll
    (toASCII env) (repositoryUrls (_rushConfiguration (self st))) = None ->
  getRemoteDefaultBranch env st
  = (Threw URIError, afterCommand st1 gp ["remote"]).
Proof.
  intros Hurls Hgit Hremote Hnormalized.
  unfold getRemoteDefaultBranch. unfold bind at 1. unfold getSelf at 1.
  cbv zeta. rewrite Hurls.
  unfold bind at 1. rewrite Hgit.
  unfold bind at 1. rewrite (execute_answered st1 gp _ remotes Hremote).
  cbv zeta. unfold bind at 1. now rewrite Hnormalized.
Qed.

End Remotes.

(** A configured URL whose credentials are not a well-formed
    percent-encoding: [getRemoteDefaultBranch] throws [URIError]. *)
Example getRemoteDefaultBranch_throws_URIError :
  fst (getRemoteDefaultBranch remotesEnv
         (initialState
            (sampleConfiguration ["https://100%@github.com/org/repo.git"])))
  = Threw URIError.
Proof. vm_compute. reflexivity. Qed.

(** X15.  When the answer of a command depends on its arguments only, the
    repository has configured URLs, Git is found, [git remote] answers,
    every configured URL can be normalized ([url.parse] does not throw on
    it), and for every listed remote with a name [git remote get-url]
    answers with a URL that is empty or can be normalized, then
    [getRemoteDefaultBranch] returns the default branch on the first listed
    remote whose URL, normalized and in upper case, is one of the
    configured URLs, normalized and in upper case; without such a remote it
    returns the configured fully qualified default branch. *)
Theorem getRemoteDefaultBranch_first_match
        (env : Env) (answer : list string -> Exn + string)
        (st st1 : State) (gp remotes : string) (normalized : list (list N)) :
  (forall tr gp args cwd,
      executeCommandAndCaptureOutput env tr gp args cwd = answer args) ->
  Nat.ltb 0 (List.length (repositoryUrls (_rushConfiguration (self st)))) = true ->
  getGitPathOrThrow env st = (Returned gp, st1) ->
  answer ["remote"] = inr remotes ->
  UrlNormalizer.normalizedUpperCaseAll
    (toASCII env) (repositoryUrls (_rushConfiguration (self st)))
    = Some normalized ->
  forallb (remoteAnswered (toASCII env) answer) (splitLines (trim remotes)) = true ->
  fst (getRemoteDefaultBranch env st)
  = Returned
      match filter (remoteMatches (toASCII env) answer normalized)
                   (splitLines (trim remotes)) with
      | first :: _ =>
          (first ++ "/" ++ repositoryDefaultBranch (_rushConfiguration (self st)))%string
      | [] =>
          repositoryDefaultFullyQualifiedRemoteBranch (_rushConfiguration (self st))
      end.
Proof.
  intros Hanswers.
  exact (getRemoteDefaultBranch_answered env answer Hanswers st st1 gp remotes
           normalized).
Qed.

(** X15 with the remotes [origin] and [upstream], the first of which is the
    configured repository in another spelling. *)
Lemma getRemoteDefaultBranch_first_match_witness :
  Nat.ltb 0 (List.length
               (repositoryUrls
                  (_rushConfiguration
                     (self (initialState
                              (sampleConfiguration ["https://github.com/org/repo"]))))))
  = true /\
  remotesAnswer ["remote"] = inr sampleRemotesOutput /\
  UrlNormalizer.normalizedUpperCaseAll
    (toASCII remotesEnv)
    (repositoryUrls
       (_rushConfiguration
          (self (initialState
                   (sampleConfiguration ["https://github.com/org/repo"])))))
    = Some [toUpperCase "https://github.com/org/repo"] /\
  forallb (remoteAnswered (toASCII remotesEnv) remotesAnswer)
          (splitLines (trim sampleRemotesOutput)) = true /\
  fst (getRemoteDefaultBranch remotesEnv
         (initialState (sampleConfiguration ["https://github.com/org/repo"])))
  = Returned
      match filter (remoteMatches (toASCII remotesEnv) remotesAnswer
                      [toUpperCase "https://github.com/org/repo"])
                   (splitLines (trim sampleRemotesOutput)) with
      | first :: _ =>
          (first ++ "/" ++ repositoryDefaultBranch
                            (_rushConfiguration
                               (self (initialState
                                        (sampleConfiguration
                                           ["https://github.com/org/repo"])))))%string
      | [] =>
          repositoryDefaultFullyQualifiedRemoteBranch
            (_rushConfiguration
               (self (initialState
                        (sampleConfiguration ["https://github.com/org/repo"]))))
      end.
Proof.
  split; [reflexivity|]. split; [reflexivity|].
  split; [vm_compute; reflexivity|]. split; [vm_compute; reflexivity|].
  apply (getRemoteDefaultBranch_first_match remotesEnv remotesAnswer
           (initialState (sampleConfiguration ["https://github.com/org/repo"]))
           (snd (getGitPathOrThrow remotesEnv
                   (initialState
                      (sampleConfiguration ["https://github.com/org/repo"]))))
           "/usr/bin/git" sampleRemotesOutput
           [toUpperCase "https://github.com/org/repo"]).
  - intros tr gp args cwd. reflexivity.
  - reflexivity.
  - reflexivity.
  - reflexivity.
  - vm_compute. reflexivity.
  - vm_compute. reflexivity.
Defined.

End GitOutputFacts.

(* ================================================================== *)
(** ** What the SCP-like pattern refuses, and what passes through *)
(* ================================================================== *)

Module UrlPatternFacts.
Import JsString StringFacts UrlForms UrlNormalizer NodeUrlFacts UrlNormalizerFacts.
Import GitOutputFacts.

(** The host class stops at a slash that no colon precedes. *)
Lemma span_host_to_slash (a b : string) :
  all (fun c => negb (isCode 58 c)) a = true ->
  exists h t,
    span (fun c => negb (isCode 58 c || isCode 47 c)) (a ++ String "/" b)
    = (h, String "/" t).
Proof.
  induction a as [|c a IH]; simpl; intros Ha.
  - now exists EmptyString, b.
  - apply andb_true_iff in Ha as [Hc Ha]. apply negb_true_iff in Hc.
    rewrite Hc. simpl.
    destruct (isCode 47 c) eqn:Hs; simpl.
    + apply isCode_eq in Hs. subst c. now exists EmptyString, (a ++ String "/" b)%string.
    + destruct (IH Ha) as (h & t & ->). now exists (String c h), t.
Qed.

Lemma scpHostAndPath_slash (a b : string) :
  all (fun c => negb (isCode 58 c)) a = true ->
  scpHostAndPath (a ++ String "/" b) = None.
Proof.
  intros Ha. unfold scpHostAndPath.
  now destruct (span_host_to_slash a b Ha) as (h & t & ->).
Qed.

(** The user class stops at that slash, or at an [@] before it. *)
Lemma span_user_to_slash (a b : string) :
  all (fun c => negb (isCode 58 c)) a = true ->
  (exists u t,
      span (fun c => negb (isCode 64 c || isCode 58 c || isCode 47 c))
           (a ++ String "/" b)
      = (u, String "/" t))
  \/
  (exists u a',
      span (fun c => negb (isCode 64 c || isCode 58 c || isCode 47 c))
           (a ++ String "/" b)
      = (u, String "@" (a' ++ String "/" b))
      /\ all (fun c => negb (isCode 58 c)) a' = true).
Proof.
  induction a as [|c a IH]; simpl; intros Ha.
  - left. now exists EmptyString, b.
  - apply andb_true_iff in Ha as [Hc Ha]. apply negb_true_iff in Hc.
    rewrite Hc. rewrite orb_false_r.
    destruct (isCode 64 c) eqn:Hat; simpl.
    + apply isCode_eq in Hat. subst c. right. now exists EmptyString, a.
    + destruct (isCode 47 c) eqn:Hs; simpl.
      * apply isCode_eq in Hs. subst c. left.
        now exists EmptyString, (a ++ String "/" b)%string.
      * destruct (IH Ha) as [(u & t & ->) | (u & a' & -> & Ha')].
        -- left. now exists (String c u), t.
        -- right. now exists (String c u), a'.
Qed.

Lemma trim_second_colon (c : ascii) (rest : string) :
  exists t,
    trim (String c (String ":" rest)) = String ":" t \/
    (trim (String c (String ":" rest)) = String c (String ":" t) /\
     isWhiteSpace c = false).
Proof.
  destruct (trimEnd_head ":" rest eq_refl) as [t Ht].
  exists t. unfold trim. simpl trimStart.
  destruct (isWhiteSpace c) eqn:W.
  - left. exact Ht.
  - right. split; [|reflexivity]. rewrite trimEnd_cons. now rewrite Ht.
Qed.

Lemma urlWs_isWhiteSpace (c : ascii) :
  isWhiteSpace c = false -> NodeUrl.isUrlWs c = false.
Proof. char_cases c. Qed.

Lemma urlTrimEnd_colon (rest : string) :
  exists t, NodeUrl.urlTrimEnd (String ":" rest) = String ":" t.
Proof.
  simpl. destruct (NodeUrl.urlTrimEnd rest); eexists; reflexivity.
Qed.

(** What the parser works on, for a text whose first or second character is
    a colon: a colon again, or one character and a colon. *)
Lemma cleaned_second_colon (url : string) (c : ascii) (t : string) :
  url = String ":" t \/ (url = String c (String ":" t) /\ isWhiteSpace c = false) ->
  (exists r,
      NodeUrl.convertBackslashes (NodeUrl.urlTrimEnd (NodeUrl.urlTrimStart url))
      = String ":" r)
  \/
  (exists c' r,
      NodeUrl.convertBackslashes (NodeUrl.urlTrimEnd (NodeUrl.urlTrimStart url))
      = String c' (String ":" r)).
Proof.
  intros [-> | [-> W]].
  - left. change (NodeUrl.urlTrimStart (String ":" t)) with (String ":" t).
    destruct (urlTrimEnd_colon t) as [t' ->].
    eexists. reflexivity.
  - right. simpl NodeUrl.urlTrimStart. rewrite (urlWs_isWhiteSpace c W).
    destruct (urlTrimEnd_colon t) as [t' Ht].
    assert (He : NodeUrl.urlTrimEnd (String c (String ":" t))
                 = String c (String ":" t')).
    { change (NodeUrl.urlTrimEnd (String c (String ":" t)))
        with (match NodeUrl.urlTrimEnd (String ":" t) with
              | EmptyString =>
                  if NodeUrl.isUrlWs c then EmptyString else String c EmptyString
              | r => String c r
              end).
      now rewrite Ht. }
    rewrite He.
    change (NodeUrl.convertBackslashes (String c (String ":" t')))
      with (if isCode 35 c || isCode 63 c then String c (String ":" t')
            else String (if isCode 92 c then "/"%char else c)
                        (String ":" (NodeUrl.convertBackslashes t'))).
    destruct (isCode 35 c || isCode 63 c); eexists; eexists; reflexivity.
Qed.

Lemma parseAfterProtocol_protocol
      (toASCII : string -> string) (proto : option string) (rest : string)
      (parsedUrl : NodeUrl.UrlWithStringQuery) :
  NodeUrl.parseAfterProtocol toASCII proto rest = Some parsedUrl ->
  NodeUrl.protocol parsedUrl = option_map toLowerCase proto.
Proof.
  unfold NodeUrl.parseAfterProtocol. cbv zeta. intros H.
  match type of H with
  | match ?X with _ => _ end = _ =>
      destruct X as [[[host hostname] rest']|]; [|discriminate]
  end.
  match type of H with
  | context [span ?P ?t] => destruct (span P t)
  end.
  now injection H as <-.
Qed.

(** The [protocol] field that the parser reports, when it returns. *)
Lemma parse_protocol (toASCII : string -> string) (url : string)
      (parsedUrl : NodeUrl.UrlWithStringQuery) :
  NodeUrl.parse toASCII url = Some parsedUrl ->
  NodeUrl.protocol parsedUrl
  = match (if NodeUrl.contains "#" url then None
           else NodeUrl.simplePathPattern
                  (NodeUrl.convertBackslashes
                     (NodeUrl.urlTrimEnd (NodeUrl.urlTrimStart url)))) with
    | Some _ => None
    | None =>
        match NodeUrl.protocolPattern
                (NodeUrl.convertBackslashes
                   (NodeUrl.urlTrimEnd (NodeUrl.urlTrimStart url))) with
        | Some (p, _) => Some (toLowerCase p)
        | None => None
        end
    end.
Proof.
  unfold NodeUrl.parse. cbv zeta.
  destruct (if NodeUrl.contains "#" url then None else _).
  - intros H. now injection H as <-.
  - destruct (NodeUrl.protocolPattern _) as [[p r]|]; intros H;
      now rewrite (parseAfterProtocol_protocol _ _ _ _ H).
Qed.

Lemma protocolPattern_colon (r : string) :
  NodeUrl.protocolPattern (String ":" r) = None.
Proof. reflexivity. Qed.

Lemma protocolPattern_second_colon (c : ascii) (r : string) :
  NodeUrl.protocolPattern (String c (String ":" r)) = None \/
  NodeUrl.protocolPattern (String c (String ":" r))
  = Some (String c (String ":" EmptyString), r).
Proof.
  unfold NodeUrl.protocolPattern. simpl span.
  match goal with
  | |- context [if ?b then _ else _] => destruct b
  end; [right|left]; reflexivity.
Qed.

(** No recognized scheme has one character before its colon. *)
Lemma one_letter_scheme_unrecognized (c : ascii) :
  NodeUrl.inSet recognizedSchemes (String c (String ":" EmptyString)) = false.
Proof. char_cases c. Qed.

Lemma second_colon_unrecognized
      (toASCII : string -> string) (url : string) (c : ascii) (t : string)
      (parsedUrl : NodeUrl.UrlWithStringQuery) :
  url = String ":" t \/ (url = String c (String ":" t) /\ isWhiteSpace c = false) ->
  NodeUrl.parse toASCII url = Some parsedUrl ->
  NodeUrl.hasOpt recognizedSchemes (NodeUrl.protocol parsedUrl) = false.
Proof.
  intros Hurl Hparse. rewrite (parse_protocol toASCII url parsedUrl Hparse).
  destruct (if NodeUrl.contains "#" url then None else _); [reflexivity|].
  destruct (cleaned_second_colon url c t Hurl) as [(r & ->) | (c' & r & ->)].
  - now rewrite protocolPattern_colon.
  - destruct (protocolPattern_second_colon c' r) as [-> | ->]; [reflexivity|].
    apply one_letter_scheme_unrecognized.
Qed.

(** *** Texts without [@] *)

Lemma atFree_trimStart (s : string) :
  all isNotAt s = true -> all isNotAt (trimStart s) = true.
Proof.
  induction s as [|c s IH]; simpl; [reflexivity|]. intros H.
  destruct (isWhiteSpace c); [|exact H].
  apply andb_true_iff in H as [_ H]. now apply IH.
Qed.

Lemma atFree_trimEnd (s : string) :
  all isNotAt s = true -> all isNotAt (trimEnd s) = true.
Proof.
  induction s as [|c s IH]; simpl; [reflexivity|]. intros H.
  apply andb_true_iff in H as [Hc H]. specialize (IH H).
  destruct (trimEnd s) as [|d r].
  - destruct (isWhiteSpace c); simpl; [reflexivity | now rewrite Hc].
  - cbn [all]. cbn [all] in IH. now rewrite Hc, IH.
Qed.

Lemma atFree_urlTrimStart (s : string) :
  all isNotAt s = true -> all isNotAt (NodeUrl.urlTrimStart s) = true.
Proof.
  induction s as [|c s IH]; simpl; [reflexivity|]. intros H.
  destruct (NodeUrl.isUrlWs c); [|exact H].
  apply andb_true_iff in H as [_ H]. now apply IH.
Qed.

Lemma atFree_urlTrimEnd (s : string) :
  all isNotAt s = true -> all isNotAt (NodeUrl.urlTrimEnd s) = true.
Proof.
  induction s as [|c s IH]; simpl; [reflexivity|]. intros H.
  apply andb_true_iff in H as [Hc H]. specialize (IH H).
  destruct (NodeUrl.urlTrimEnd s) as [|d r].
  - destruct (NodeUrl.isUrlWs c); simpl; [reflexivity | now rewrite Hc].
  - cbn [all]. cbn [all] in IH. now rewrite Hc, IH.
Qed.

Lemma atFree_convertBackslashes (s : string) :
  all isNotAt s = true -> all isNotAt (NodeUrl.convertBackslashes s) = true.
Proof.
  induction s as [|c s IH]; simpl; [reflexivity|]. intros H.
  destruct (isCode 35 c || isCode 63 c); [exact H|].
  apply andb_true_iff in H as [Hc H]. cbn [all]. rewrite (IH H), andb_true_r.
  destruct (isCode 92 c); [reflexivity | exact Hc].
Qed.

Lemma atFree_span (P : ascii -> bool) (s : string) :
  all isNotAt s = true -> all isNotAt (snd (span P s)) = true.
Proof.
  induction s as [|c s IH]; simpl; [reflexivity|]. intros H.
  destruct (P c); [|exact H].
  apply andb_true_iff in H as [_ H]. specialize (IH H).
  now destruct (span P s).
Qed.

Lemma atFree_drop (n : nat) (s : string) :
  all isNotAt s = true -> all isNotAt (drop n s) = true.
Proof.
  revert s. induction n as [|n IH]; intros [|c s] H; simpl; try exact H.
  apply andb_true_iff in H as [_ H]. now apply IH.
Qed.

Lemma atFree_protocolPattern (s p r : string) :
  all isNotAt s = true ->
  NodeUrl.protocolPattern s = Some (p, r) -> all isNotAt r = true.
Proof.
  intros H. unfold NodeUrl.protocolPattern.
  pose proof (atFree_span
                (fun c => NodeUrl.isAlnum c || NodeUrl.anyCode [46; 43; 45]%N c)
                s H) as Hr.
  destruct (span _ s) as [p0 r0]. simpl in Hr.
  destruct p0 as [|x p0]; [discriminate|].
  destruct r0 as [|d r0]; [discriminate|].
  destruct (Ascii.eqb d ":") eqn:Hd.
  - apply Ascii.eqb_eq in Hd. subst d. intros Heq. injection Heq as _ <-.
    cbn [all] in Hr. now apply andb_true_iff in Hr as [_ Hr].
  - intros Heq. exfalso. revert Heq Hd. char_cases d.
Qed.

(** Without [@] the scan of the host finds no credentials. *)
Lemma hostScan_atFree (s : string) (i : nat) (atSign nonHost : option nat) :
  all isNotAt s = true -> fst (NodeUrl.hostScan s i atSign nonHost) = atSign.
Proof.
  revert i atSign nonHost. induction s as [|c s IH]; intros i atSign nonHost H;
    simpl; [reflexivity|].
  apply andb_true_iff in H as [Hc H]. unfold isNotAt in Hc.
  apply negb_true_iff in Hc.
  destruct (NodeUrl.isNeverHostChar c); [now apply IH|].
  destruct (NodeUrl.isHostEndChar c); [reflexivity|].
  rewrite Hc. now apply IH.
Qed.

Lemma splitHost_atFree (rest : string) :
  all isNotAt rest = true -> exists cut, NodeUrl.splitHost rest = Some cut.
Proof.
  intros H. unfold NodeUrl.splitHost.
  pose proof (hostScan_atFree rest 0 None None H) as Hscan.
  destruct (NodeUrl.hostScan rest 0 None None) as [atSign nonHost].
  simpl in Hscan. subst atSign. eexists. reflexivity.
Qed.

(** Without [@] in the text, [decodeURIComponent] is not called, and the
    parser returns. *)
Lemma parseAfterProtocol_atFree
      (toASCII : string -> string) (proto : option string) (rest : string) :
  all isNotAt rest = true ->
  exists parsedUrl,
    NodeUrl.parseAfterProtocol toASCII proto rest = Some parsedUrl.
Proof.
  intros H. unfold NodeUrl.parseAfterProtocol. cbv zeta.
  match goal with
  | |- context [NodeUrl.parseHostPart toASCII ?r] =>
      assert (Hr : all isNotAt r = true)
        by (match goal with
            | |- context [if ?b then _ else _] => destruct b
            end; [now apply atFree_drop | exact H]);
      destruct (splitHost_atFree r Hr) as [[host0 rest1] Hsplit]
  end.
  unfold NodeUrl.parseHostPart. rewrite Hsplit.
  destruct (NodeUrl.finishHost toASCII host0 rest1) as [[h hn] r].
  match goal with
  | |- context [if ?b then Some (Some h, Some hn, r) else _] => destruct b
  end;
    match goal with
    | |- context [span ?P ?t] => destruct (span P t)
    end;
    eexists; reflexivity.
Qed.

Lemma parse_atFree (toASCII : string -> string) (url : string) :
  all isNotAt url = true ->
  exists parsedUrl, NodeUrl.parse toASCII url = Some parsedUrl.
Proof.
  intros H. unfold NodeUrl.parse. cbv zeta.
  destruct (if NodeUrl.contains "#" url then None else _);
    [eexists; reflexivity|].
  assert (Hrest : all isNotAt
                    (NodeUrl.convertBackslashes
                       (NodeUrl.urlTrimEnd (NodeUrl.urlTrimStart url))) = true)
    by now apply atFree_convertBackslashes, atFree_urlTrimEnd, atFree_urlTrimStart.
  destruct (NodeUrl.protocolPattern _) as [[p r]|] eqn:Hp.
  - apply parseAfterProtocol_atFree.
    exact (atFree_protocolPattern _ p r Hrest Hp).
  - now apply parseAfterProtocol_atFree.
Qed.

Lemma hostField_lower (h1 h2 : string) :
  toLowerCase h1 = toLowerCase h2 -> hostField h1 = hostField h2.
Proof.
  intros H. unfold hostField.
  assert (Hlen : String.length h1 = String.length h2).
  { rewrite <- (length_mapChars toLowerChar h1), <- (length_mapChars toLowerChar h2).
    unfold toLowerCase in H. now rewrite H. }
  now rewrite Hlen, H.
Qed.

(** X16.  The SCP-like pattern does not match a string with a slash before
    its first colon: a local path that contains a colon stays a path. *)
Theorem scp_pattern_refuses_slash_before_colon (a b : string) :
  all (fun c => negb (isCode 58 c)) a = true ->
  scpLikeSyntaxRegExp (a ++ String "/" b) = None.
Proof.
  intros Ha. unfold scpLikeSyntaxRegExp.
  destruct (span_user_to_slash a b Ha) as [(u & t & ->) | (u & a' & -> & Ha')].
  - destruct u; now apply scpHostAndPath_slash.
  - destruct u; [now apply scpHostAndPath_slash|].
    rewrite (scpHostAndPath_slash a' b Ha'). now apply scpHostAndPath_slash.
Qed.

(** X16 on [./dir:name/file]. *)
Lemma scp_pattern_refuses_slash_before_colon_witness :
  all (fun c => negb (isCode 58 c)) "." = true /\
  scpLikeSyntaxRegExp ("." ++ String "/" "dir:name/file") = None.
Proof.
  split; [reflexivity|].
  apply (scp_pattern_refuses_slash_before_colon "." "dir:name/file").
  reflexivity.
Defined.

(** X17.  The SCP-like pattern does not match a URL with a scheme: a text
    without colon and slash, followed by [://]. *)
Theorem scp_pattern_refuses_scheme_url (scheme rest : string) :
  all (fun c => negb (isCode 58 c || isCode 47 c)) scheme = true ->
  scpLikeSyntaxRegExp (scheme ++ String ":" (String "/" (String "/" rest))) = None.
Proof.
  intros Hx. unfold scpLikeSyntaxRegExp.
  destruct (span_user_to_scheme scheme rest Hx) as [(u & ->) | (u & x' & -> & Hx')].
  - destruct u; now apply scpHostAndPath_scheme.
  - destruct u; [now apply scpHostAndPath_scheme|].
    rewrite (scpHostAndPath_scheme x' rest Hx'). now apply scpHostAndPath_scheme.
Qed.

(** X17 on [http://blah]. *)
Lemma scp_pattern_refuses_scheme_url_witness :
  all (fun c => negb (isCode 58 c || isCode 47 c)) "http" = true /\
  scpLikeSyntaxRegExp ("http" ++ String ":" (String "/" (String "/" "blah"))) = None.
Proof.
  split; [reflexivity|].
  apply (scp_pattern_refuses_scheme_url "http" "blah").
  reflexivity.
Defined.

(** X18.  A string whose second character is a colon, such as a Windows
    path with its drive letter, is not taken for the SCP-like syntax, and
    no scheme is recognized in it.  So the normalizer throws when
    [url.parse] throws on the trimmed string, and otherwise it returns the
    trimmed string with the final step applied, and nothing else changed;
    and on such a string without [@], [url.parse] returns. *)
Theorem normalize_leaves_drive_letter_path
        (toASCII : string -> string) (c : ascii) (rest : string) :
  scpLikeSyntaxRegExp (String c (String ":" rest)) = None /\
  normalizeGitUrlForComparison toASCII (String c (String ":" rest))
  = option_map (fun _ => stripGitSuffix (trim (String c (String ":" rest))))
               (NodeUrl.parse toASCII (trim (String c (String ":" rest)))) /\
  (all isNotAt (String c (String ":" rest)) = true ->
   normalizeGitUrlForComparison toASCII (String c (String ":" rest))
   = Some (stripGitSuffix (trim (String c (String ":" rest))))).
Proof.
  assert (Hscp : scpLikeSyntaxRegExp (String c (String ":" rest)) = None)
    by (char_cases c).
  assert (Hrun :
    normalizeGitUrlForComparison toASCII (String c (String ":" rest))
    = option_map (fun _ => stripGitSuffix (trim (String c (String ":" rest))))
                 (NodeUrl.parse toASCII (trim (String c (String ":" rest))))).
  { unfold normalizeGitUrlForComparison, rebuildGitUrl. rewrite Hscp. cbv zeta.
    destruct (NodeUrl.parse toASCII (trim (String c (String ":" rest))))
      as [parsedUrl|] eqn:Hparse; [|reflexivity].
    destruct (trim_second_colon c rest) as [t Ht].
    now rewrite (second_colon_unrecognized toASCII _ c t parsedUrl Ht Hparse). }
  split; [exact Hscp|]. split; [exact Hrun|].
  intros Hfree. rewrite Hrun.
  assert (Htrim : all isNotAt (trim (String c (String ":" rest))) = true)
    by now apply atFree_trimEnd, atFree_trimStart.
  now destruct (parse_atFree toASCII _ Htrim) as [parsedUrl ->].
Qed.

(** X18 on [c:/windows/path.git], and on [c:%@x], where [url.parse]
    throws. *)
Lemma normalize_leaves_drive_letter_path_witness :
  all isNotAt (String "c" (String ":" "/windows/path.git")) = true /\
  normalizeGitUrlForComparison plainToASCII
    (String "c" (String ":" "/windows/path.git"))
  = Some (stripGitSuffix (trim (String "c" (String ":" "/windows/path.git")))) /\
  normalizeGitUrlForComparison plainToASCII (String "c" (String ":" "%@x"))
  = option_map (fun _ => stripGitSuffix (trim (String "c" (String ":" "%@x"))))
               (NodeUrl.parse plainToASCII (trim (String "c" (String ":" "%@x")))) /\
  NodeUrl.parse plainToASCII (trim (String "c" (String ":" "%@x"))) = None.
Proof.
  split; [reflexivity|].
  split.
  - apply (proj2 (proj2 (normalize_leaves_drive_letter_path
                           plainToASCII "c" "/windows/path.git"))).
    reflexivity.
  - split; [|vm_compute; reflexivity].
    exact (proj1 (proj2 (normalize_leaves_drive_letter_path
                           plainToASCII "c" "%@x"))).
Defined.

(** X19.  The final step removes a suffix of its input, and one only: what
    it removes is nothing, or one character that is not a line terminator
    followed by [git] or by [git/]. *)
Theorem stripGitSuffix_removes_one_suffix (s : string) :
  exists removed,
    s = (stripGitSuffix s ++ removed)%string /\
    (removed = EmptyString \/
     exists c,
       isLineTerminator c = false /\
       (removed = String c "git" \/ removed = String c "git/")).
Proof.
  induction s as [|c s IH].
  - exists EmptyString. split; [reflexivity|now left].
  - rewrite stripGitSuffix_String.
    destruct (matchesDotGitAtStart (String c s)) eqn:Hm.
    + exists (String c s). split; [reflexivity|]. right. exists c.
      simpl in Hm. apply andb_true_iff in Hm as [Hc Hm].
      apply negb_true_iff in Hc. split; [exact Hc|].
      apply orb_true_iff in Hm as [Hm|Hm]; apply String.eqb_eq in Hm; subst s;
        [now left|now right].
    + destruct IH as (removed & Heq & Hremoved). exists removed.
      split; [|exact Hremoved]. simpl. now rewrite <- Heq.
Qed.

(** X20.  For a host name of at least two characters, the normalizer
    ignores the user name and the letter case of the host: two spellings
    that differ in these only are normalized to equal strings, whatever the
    IDNA conversion makes of the host in lower case. *)
Theorem normalize_ignores_user_and_host_case
        (toASCII : string -> string)
        (sp1 sp2 : Spelling) (user1 user2 : option string)
        (host1 host2 path : string) :
  wellFormedUser user1 = true ->
  wellFormedUser user2 = true ->
  wellFormedHostName host1 = true ->
  wellFormedHostName host2 = true ->
  2 <= String.length host1 ->
  2 <= String.length host2 ->
  wellFormedPath path = true ->
  toLowerCase host1 = toLowerCase host2 ->
  normalizeGitUrlForComparison toASCII (spell sp1 user1 host1 path)
  = normalizeGitUrlForComparison toASCII (spell sp2 user2 host2 path).
Proof.
  intros Hu1 Hu2 Hh1 Hh2 Hl1 Hl2 Hp Hlower.
  rewrite !normalize_spell by assumption.
  now rewrite (hostField_lower host1 host2 Hlower).
Qed.

(** X20 on [git@GitHub.com:Org/Repo.git] and
    [ssh://deploy@github.com/Org/Repo.git]. *)
Lemma normalize_ignores_user_and_host_case_witness :
  wellFormedUser (Some "git") = true /\
  wellFormedUser (Some "deploy") = true /\
  wellFormedHostName "GitHub.com" = true /\
  wellFormedHostName "github.com" = true /\
  2 <= String.length "GitHub.com" /\
  2 <= String.length "github.com" /\
  wellFormedPath "Org/Repo.git" = true /\
  toLowerCase "GitHub.com" = toLowerCase "github.com" /\
  normalizeGitUrlForComparison plainToASCII
    (spell ScpLike (Some "git") "GitHub.com" "Org/Repo.git")
  = normalizeGitUrlForComparison plainToASCII
      (spell Ssh (Some "deploy") "github.com" "Org/Repo.git").
Proof.
  assert (Hl1 : 2 <= String.length "GitHub.com") by (simpl; lia).
  assert (Hl2 : 2 <= String.length "github.com") by (simpl; lia).
  do 8 (split; [first [exact Hl1 | exact Hl2 | vm_compute; reflexivity]|]).
  apply (normalize_ignores_user_and_host_case plainToASCII ScpLike Ssh
           (Some "git") (Some "deploy") "GitHub.com" "github.com" "Org/Repo.git");
    first [exact Hl1 | exact Hl2 | vm_compute; reflexivity].
Defined.

End UrlPatternFacts.

(* ================================================================== *)
(** ** Properties of [parsePackageSpecifier] *)
(* ================================================================== *)

Module InstallRunFacts.
Import JsString StringFacts InstallRun.
Import GitOutputFacts.

Lemma substring_0 (i : nat) (s : string) : substring 0 i s = take i s.
Proof. unfold substring. simpl. now rewrite Nat.sub_0_r. Qed.

(** The text is cut at the index that [lastIndexOf] gives, and what follows
    has no further occurrence. *)
Lemma lastIndexOfChar_split (c : ascii) (s : string) (i : nat) :
  lastIndexOfChar c s = Some i ->
  s = (take i s ++ String c (drop (S i) s))%string /\
  lastIndexOfChar c (drop (S i) s) = None.
Proof.
  revert i. induction s as [|d s IH]; intros i; simpl; [discriminate|].
  destruct (lastIndexOfChar c s) as [j|] eqn:E.
  - intros H. injection H as <-. destruct (IH j eq_refl) as [Hs Hn].
    split; [|exact Hn].
    change (take (S j) (String d s)) with (String d (take j s)).
    change (drop (S (S j)) (String d s)) with (drop (S j) s).
    cbn [append]. f_equal. exact Hs.
  - destruct (Ascii.eqb d c) eqn:Hd; [|discriminate].
    intros H. injection H as <-. apply Ascii.eqb_eq in Hd. subst d.
    split; [reflexivity|]. simpl. now destruct s.
Qed.

Lemma drop_1 (d : ascii) (s : string) : drop 1 (String d s) = s.
Proof. now destruct s. Qed.

Lemma lastIndexOfChar_append (c : ascii) (n v : string) :
  lastIndexOfChar c v = None ->
  lastIndexOfChar c (n ++ String c v) = Some (String.length n).
Proof.
  intros Hv. induction n as [|d n IH]; simpl.
  - now rewrite Hv, Ascii.eqb_refl.
  - now rewrite IH.
Qed.

Lemma trim_blank (s : string) :
  all isWhiteSpace s = true -> trim s = EmptyString.
Proof. intros H. unfold trim. now rewrite (trimStart_blank s H). Qed.

Lemma trim_not_blank (s : string) :
  all isWhiteSpace s = false -> truthy (trim s) = true.
Proof.
  intros H. destruct (trimStart_not_blank s H) as (c & s' & E & W).
  unfold trim. rewrite E. now destruct (trimEnd_head c s' W) as [r ->].
Qed.

Lemma lastIndexOfChar_empty (c : ascii) (s : string) (i : nat) :
  lastIndexOfChar c s = Some i -> truthy s = true.
Proof. now destruct s. Qed.

(** X21.  [parsePackageSpecifier] throws for a blank specifier only, [undefined]
    included; the message then ends after its colon and space, since the
    trimmed specifier that it quotes is empty.  When the function returns,
    the name is not empty. *)
Theorem parsePackageSpecifier_rejects_blank_only (raw : option string) :
  match parsePackageSpecifier raw with
  | inl e =>
      all isWhiteSpace (orEmpty raw) = true /\
      e = Error "Invalid package specifier: "
  | inr spec =>
      all isWhiteSpace (orEmpty raw) = false /\ truthy (name spec) = true
  end.
Proof.
  unfold parsePackageSpecifier.
  destruct (all isWhiteSpace (orEmpty raw)) eqn:B.
  - rewrite (trim_blank _ B). simpl. now split.
  - pose proof (trim_not_blank _ B) as Hne.
    destruct (lastIndexOfChar "@" (trim (orEmpty raw))) as [[|i]|] eqn:E.
    + rewrite Hne. now split.
    + rewrite substring_0.
      destruct (trim (orEmpty raw)) as [|c r]; [discriminate|].
      simpl. now split.
    + rewrite Hne. now split.
Qed.

(** X22.  What [parsePackageSpecifier] returns, written out as
    [name@version] or as the name alone, is the trimmed specifier.  A
    version, when there is one, has no [@]; without a version, the name is
    the whole trimmed specifier, and the only [@] that it may have is its
    first character. *)
Theorem parsePackageSpecifier_reassembles (raw : option string) :
  match parsePackageSpecifier raw with
  | inl _ => True
  | inr spec =>
      specifierText spec = trim (orEmpty raw) /\
      match version spec with
      | Some v => lastIndexOfChar "@" v = None
      | None =>
          lastIndexOfChar "@" (name spec) = None \/
          lastIndexOfChar "@" (name spec) = Some 0
      end
  end.
Proof.
  unfold parsePackageSpecifier.
  destruct (lastIndexOfChar "@" (trim (orEmpty raw))) as [[|i]|] eqn:E.
  - destruct (truthy (trim (orEmpty raw))); simpl; [|exact I].
    split; [reflexivity|now right].
  - rewrite substring_0.
    destruct (truthy (take (S i) (trim (orEmpty raw)))); simpl; [|exact I].
    destruct (lastIndexOfChar_split _ _ _ E) as [Hs Hn].
    unfold specifierText, substringFrom. cbn [name version].
    rewrite Nat.add_1_r. split; [symmetry; exact Hs|exact Hn].
  - destruct (truthy (trim (orEmpty raw))); simpl; [|exact I].
    split; [reflexivity|now left].
Qed.

(** X23.  A name that is not empty, an [@] and a version without [@], with
    no white space in either, are parsed back into that name and that
    version; this holds for a scoped name, which starts with an [@]. *)
Theorem parsePackageSpecifier_round_trip (packageName packageVersion : string) :
  truthy packageName = true ->
  all (fun c => negb (isWhiteSpace c)) packageName = true ->
  all (fun c => negb (isWhiteSpace c)) packageVersion = true ->
  lastIndexOfChar "@" packageVersion = None ->
  parsePackageSpecifier (Some (packageName ++ String "@" packageVersion)%string)
  = inr (mkPackageSpecifier packageName (Some packageVersion)).
Proof.
  intros Hne Hn Hv Hat.
  destruct packageName as [|c n]; [discriminate|].
  unfold parsePackageSpecifier, orEmpty.
  change (truthy (String c n ++ String "@" packageVersion)%string) with true.
  cbv iota.
  rewrite trim_id by (rewrite all_append; rewrite Hn; simpl; exact Hv).
  rewrite (lastIndexOfChar_append "@" (String c n) packageVersion Hat).
  change (String.length (String c n)) with (S (String.length n)).
  cbv iota beta. rewrite substring_0.
  change (S (String.length n)) with (String.length (String c n)).
  rewrite take_append. simpl negb. cbv iota.
  unfold substringFrom. rewrite Nat.add_1_r.
  f_equal. f_equal. f_equal.
  rewrite <- (drop_1 "@" packageVersion) at 2.
  rewrite <- (drop_add_append 1 (String c n) (String "@" packageVersion)).
  now rewrite Nat.add_1_r.
Qed.

(** X23 on [@scope/tool@^1.2.3]. *)
Lemma parsePackageSpecifier_round_trip_witness :
  truthy "@scope/tool" = true /\
  all (fun c => negb (isWhiteSpace c)) "@scope/tool" = true /\
  all (fun c => negb (isWhiteSpace c)) "^1.2.3" = true /\
  lastIndexOfChar "@" "^1.2.3" = None /\
  parsePackageSpecifier (Some ("@scope/tool" ++ String "@" "^1.2.3")%string)
  = inr (mkPackageSpecifier "@scope/tool" (Some "^1.2.3")).
Proof.
  do 4 (split; [reflexivity|]).
  apply (parsePackageSpecifier_round_trip "@scope/tool" "^1.2.3"); reflexivity.
Defined.

End InstallRunFacts.

(* ================================================================== *)
(** ** Memoization: a cached answer never changes *)
(* ================================================================== *)

Module GitStabilityFacts.
Import JsString GitModel GitSpec GitInvariants GitFacts GitInvariantFacts.
Local Open Scope git_scope.

Lemma Extends_refl (st : State) : Extends st st.
Proof. constructor; auto. Qed.

Lemma Extends_trans (st1 st2 st3 : State) :
  Extends st1 st2 -> Extends st2 st3 -> Extends st1 st3.
Proof.
  intros [C1 P1 I1 E1 H1] [C2 P2 I2 E2 H2]. constructor.
  - congruence.
  - intros H. destruct (P1 H) as [Ha Hb]. destruct (P2 Ha) as [Hc Hd].
    split; congruence.
  - intros H. destruct (I1 H) as [Ha Hb]. destruct (I2 Ha) as [Hc Hd].
    split; congruence.
  - intros H. pose proof (E1 H) as Ha. rewrite <- Ha in H.
    pose proof (E2 H). congruence.
  - intros H. pose proof (H1 H) as Ha. rewrite <- Ha in H.
    pose proof (H2 H). congruence.
Qed.

(** A step that leaves the instance as it is. *)
Lemma Extends_same_self (st st' : State) : self st' = self st -> Extends st st'.
Proof. intros H. constructor; rewrite H; auto. Qed.

Section WithEnv.
Variable env : Env.

Lemma writesOnce_ret {A} (a : A) : writesOnce (ret a).
Proof. intros st. apply Extends_refl. Qed.

Lemma writesOnce_throw {A} (e : Exn) : writesOnce (@throw A e).
Proof. intros st. apply Extends_refl. Qed.

Lemma writesOnce_getSelf : writesOnce getSelf.
Proof. intros st. apply Extends_refl. Qed.

Lemma writesOnce_bind {A B} (m : M A) (k : A -> M B) :
  writesOnce m -> (forall a, writesOnce (k a)) -> writesOnce (bind m k).
Proof.
  intros Hm Hk st. unfold bind. specialize (Hm st).
  destruct (m st) as [[a|e] st1]; simpl in *; [|exact Hm].
  exact (Extends_trans _ _ _ Hm (Hk a st1)).
Qed.

Lemma writesOnce_tryCatch {A} (m : M A) (handler : Exn -> M A) :
  writesOnce m -> (forall e, writesOnce (handler e)) ->
  writesOnce (tryCatch m handler).
Proof.
  intros Hm Hh st. unfold tryCatch. specialize (Hm st).
  destruct (m st) as [[a|e] st1]; simpl in *; [exact Hm|].
  exact (Extends_trans _ _ _ Hm (Hh e st1)).
Qed.

Lemma writesOnce_emit (ev : Event) : writesOnce (emit ev).
Proof. intros st. now apply Extends_same_self. Qed.

Lemma writesOnce_consoleLog (text : string) : writesOnce (consoleLog text).
Proof. apply writesOnce_emit. Qed.

Lemma writesOnce_call {A} (ev : Event) (answer : list Event -> Exn + A) :
  writesOnce (call ev answer).
Proof.
  intros st. unfold call. destruct (answer (trace st)); now apply Extends_same_self.
Qed.

Lemma Extends_afterGitPath (st : State) : Extends st (afterGitPath env st).
Proof.
  unfold afterGitPath.
  destruct (_checkedGitPath (self st)) eqn:Hc; [apply Extends_refl|].
  destruct (truthyOpt (gitBinaryPath env)); constructor; simpl; auto; congruence.
Qed.

Lemma writesOnce_gitPath : writesOnce (gitPath env).
Proof. intros st. rewrite gitPath_run. apply Extends_afterGitPath. Qed.

Lemma writesOnce_execute (gp : string) (args : list string) (cwd : option string) :
  writesOnce (_executeGitCommandAndCaptureOutput env gp args cwd).
Proof.
  unfold _executeGitCommandAndCaptureOutput.
  apply writesOnce_bind; [apply writesOnce_getSelf|]. intros g. cbv zeta.
  apply writesOnce_tryCatch; [apply writesOnce_call|].
  intros e. apply writesOnce_bind; [apply writesOnce_call|].
  intros _. apply writesOnce_throw.
Qed.

Create HintDb writesOnce.

#[local] Hint Resolve writesOnce_ret writesOnce_throw writesOnce_getSelf
  writesOnce_consoleLog writesOnce_gitPath writesOnce_execute writesOnce_call
  writesOnce_emit : writesOnce.

Ltac writesOnce_step :=
  match goal with
  | |- writesOnce (bind _ _) => apply writesOnce_bind; [|intros ?]
  | |- writesOnce (tryCatch _ _) => apply writesOnce_tryCatch; [|intros ?]
  | |- writesOnce (if ?b then _ else _) => destruct b
  | |- writesOnce (match ?x with _ => _ end) => destruct x
  | |- writesOnce _ => solve [eauto with writesOnce]
  | |- writesOnce _ => progress cbv zeta
  end.

Ltac writesOnce_all := repeat writesOnce_step.

Lemma writesOnce_getGitPathOrThrow : writesOnce (getGitPathOrThrow env).
Proof. unfold getGitPathOrThrow. writesOnce_all. Qed.
#[local] Hint Resolve writesOnce_getGitPathOrThrow : writesOnce.

Lemma writesOnce_isGitPresent : writesOnce (isGitPresent env).
Proof. unfold isGitPresent. writesOnce_all. Qed.
#[local] Hint Resolve writesOnce_isGitPresent : writesOnce.

Lemma writesOnce_isPathUnderGitWorkingTreeOf (i : GitRepoInfo) :
  writesOnce (isPathUnderGitWorkingTreeOf env i).
Proof. unfold isPathUnderGitWorkingTreeOf. writesOnce_all. Qed.

(** Repository information is assigned while the flag is down only. *)
Lemma writesOnce_getGitInfo : writesOnce (getGitInfo env).
Proof.
  intros st. unfold getGitInfo. unfold bind at 1. unfold getSelf at 1.
  destruct (_checkedGitInfo (self st)) eqn:Hci.
  - apply Extends_refl.
  - unfold bind at 1.
    match goal with
    | |- Extends st (snd match ?m st with _ => _ end) =>
        assert (Hm : exists st', m st = (Returned tt, st') /\ Extends st st')
    end.
    { unfold bind, tryCatch, call, ret, modifySelf.
      destruct (readGitInfo env (trace st)) as [e|i]; cbn [fst snd].
      - eexists. split; [reflexivity|].
        constructor; simpl; auto; congruence.
      - pose proof (writesOnce_isPathUnderGitWorkingTreeOf i
                      (mkState (self st) (trace st ++ [ReadGitInfo]))) as Hu.
        destruct (isPathUnderGitWorkingTreeOf env i _) as [[[|]|e] st1] eqn:Hrun.
        + eexists. split; [reflexivity|]. cbn [snd] in Hu.
          destruct Hu as [C P I E H]. simpl in *.
          constructor; simpl; auto; congruence.
        + eexists. split; [reflexivity|]. cbn [snd] in Hu.
          destruct Hu as [C P I E H]. simpl in *.
          constructor; simpl; auto; congruence.
        + exfalso. revert Hrun.
          unfold isPathUnderGitWorkingTreeOf, isGitPresent, bind.
          rewrite gitPath_run. unfold ret.
          now destruct (truthyOpt _). }
    destruct Hm as (st' & -> & Hext). exact Hext.
Qed.
#[local] Hint Resolve writesOnce_getGitInfo : writesOnce.

(** A slot is assigned while it is empty only. *)
Lemma writesOnce__tryGetGitEmail : writesOnce (_tryGetGitEmail env).
Proof.
  intros st. unfold _tryGetGitEmail. unfold bind at 1. unfold getSelf at 1.
  destruct (_gitEmailResult (self st)) as [r|] eqn:Hslot; [apply Extends_refl|].
  unfold bind at 1.
  pose proof (writesOnce_getGitPathOrThrow st) as H1.
  destruct (getGitPathOrThrow env st) as [[gp|e] st1]; cbn [snd] in *; [|exact H1].
  unfold bind at 1.
  match goal with
  | |- Extends st (snd match ?m st1 with _ => _ end) =>
      assert (H2 : writesOnce m) by writesOnce_all;
      specialize (H2 st1); destruct (m st1) as [[r|e] st2]
  end; cbn [snd] in *; [|exact (Extends_trans _ _ _ H1 H2)].
  pose proof (Extends_trans _ _ _ H1 H2) as [C P I E H].
  unfold bind, modifySelf, ret. cbn [fst snd].
  constructor; simpl; auto. rewrite Hslot. discriminate.
Qed.
#[local] Hint Resolve writesOnce__tryGetGitEmail : writesOnce.

Lemma writesOnce__tryGetGitHooksPath : writesOnce (_tryGetGitHooksPath env).
Proof.
  intros st. unfold _tryGetGitHooksPath. unfold bind at 1. unfold getSelf at 1.
  destruct (_gitHooksPath (self st)) as [r|] eqn:Hslot; [apply Extends_refl|].
  unfold bind at 1.
  pose proof (writesOnce_getGitPathOrThrow st) as H1.
  destruct (getGitPathOrThrow env st) as [[gp|e] st1]; cbn [snd] in *; [|exact H1].
  unfold bind at 1.
  match goal with
  | |- Extends st (snd match ?m st1 with _ => _ end) =>
      assert (H2 : writesOnce m) by writesOnce_all;
      specialize (H2 st1); destruct (m st1) as [[r|e] st2]
  end; cbn [snd] in *; [|exact (Extends_trans _ _ _ H1 H2)].
  pose proof (Extends_trans _ _ _ H1 H2) as [C P I E H].
  unfold bind, modifySelf, ret. cbn [fst snd].
  constructor; simpl; auto. rewrite Hslot. discriminate.
Qed.
#[local] Hint Resolve writesOnce__tryGetGitHooksPath : writesOnce.

Lemma writesOnce_isPathUnderGitWorkingTree (repoInfo : option GitRepoInfo) :
  writesOnce (isPathUnderGitWorkingTree env repoInfo).
Proof. unfold isPathUnderGitWorkingTree. writesOnce_all. Qed.

Lemma writesOnce_tryGetGitEmail : writesOnce (tryGetGitEmail env).
Proof. unfold tryGetGitEmail. writesOnce_all. Qed.

Lemma writesOnce_getGitEmail : writesOnce (getGitEmail env).
Proof. unfold getGitEmail. writesOnce_all. Qed.

Lemma writesOnce_getHooksFolder : writesOnce (getHooksFolder env).
Proof. unfold getHooksFolder. writesOnce_all. Qed.

Lemma writesOnce_isHooksPathDefaultIn (i : GitRepoInfo) (d : string) :
  writesOnce (isHooksPathDefaultIn env i d).
Proof. unfold isHooksPathDefaultIn. writesOnce_all. Qed.
#[local] Hint Resolve writesOnce_isHooksPathDefaultIn : writesOnce.

Lemma writesOnce_isHooksPathDefault : writesOnce (isHooksPathDefault env).
Proof. unfold isHooksPathDefault. writesOnce_all. Qed.

Lemma writesOnce_getConfigHooksPath : writesOnce (getConfigHooksPath env).
Proof. unfold getConfigHooksPath. writesOnce_all. Qed.

Lemma writesOnce__tryFetchRemoteBranch (name : string) :
  writesOnce (_tryFetchRemoteBranch env name).
Proof. unfold _tryFetchRemoteBranch. writesOnce_all. Qed.
#[local] Hint Resolve writesOnce__tryFetchRemoteBranch : writesOnce.

Lemma writesOnce__fetchRemoteBranch (name : string) :
  writesOnce (_fetchRemoteBranch env name).
Proof. unfold _fetchRemoteBranch. writesOnce_all. Qed.
#[local] Hint Resolve writesOnce__fetchRemoteBranch : writesOnce.

Lemma writesOnce_getMergeBase (targetBranch : string) (shouldFetch : bool) :
  writesOnce (getMergeBase env targetBranch shouldFetch).
Proof. unfold getMergeBase. writesOnce_all. Qed.

Lemma writesOnce_getBlobContent (blobSpec repositoryRoot : string) :
  writesOnce (getBlobContent env blobSpec repositoryRoot).
Proof. unfold getBlobContent. writesOnce_all. Qed.

Lemma writesOnce_getChangedFiles (targetBranch : string) (skipFetch : bool)
      (pathPrefix : option string) :
  writesOnce (getChangedFiles env targetBranch skipFetch pathPrefix).
Proof. unfold getChangedFiles. writesOnce_all. Qed.

Lemma writesOnce_filterM {A} (f : A -> M bool) (l : list A) :
  (forall x, writesOnce (f x)) -> writesOnce (filterM f l).
Proof.
  intros Hf. induction l as [|x l IH]; simpl; [apply writesOnce_ret|].
  apply writesOnce_bind; [apply Hf|]. intros keep.
  apply writesOnce_bind; [exact IH|]. intros kept. apply writesOnce_ret.
Qed.

Lemma writesOnce_orThrowURIError {A} (normalized : option A) :
  writesOnce (orThrowURIError normalized).
Proof. unfold orThrowURIError. writesOnce_all. Qed.
#[local] Hint Resolve writesOnce_orThrowURIError : writesOnce.

Lemma writesOnce_isMatchingRemote (gp : string) (normalized : list (list N))
      (remoteName : string) :
  writesOnce (isMatchingRemote env gp normalized remoteName).
Proof. unfold isMatchingRemote. writesOnce_all. Qed.

Lemma writesOnce_getRemoteDefaultBranch : writesOnce (getRemoteDefaultBranch env).
Proof.
  unfold getRemoteDefaultBranch.
  apply writesOnce_bind; [apply writesOnce_getSelf|]. intros g. cbv zeta.
  destruct (Nat.ltb 0 (List.length (repositoryUrls (_rushConfiguration g))));
    [|writesOnce_all].
  apply writesOnce_bind; [auto with writesOnce|]. intros gp.
  apply writesOnce_bind; [writesOnce_all|]. intros rawOutput.
  apply writesOnce_bind; [auto with writesOnce|]. intros normalized.
  apply writesOnce_bind.
  - apply writesOnce_filterM. intros remoteName. apply writesOnce_isMatchingRemote.
  - intros matchingRemotes. writesOnce_all.
Qed.

Lemma writesOnce__getUntrackedChanges : writesOnce (_getUntrackedChanges env).
Proof. unfold _getUntrackedChanges. writesOnce_all. Qed.
#[local] Hint Resolve writesOnce__getUntrackedChanges : writesOnce.

Lemma writesOnce__getDiffOnHEAD : writesOnce (_getDiffOnHEAD env).
Proof. unfold _getDiffOnHEAD. writesOnce_all. Qed.
#[local] Hint Resolve writesOnce__getDiffOnHEAD : writesOnce.

Lemma writesOnce_getUncommittedChanges : writesOnce (getUncommittedChanges env).
Proof. unfold getUncommittedChanges. writesOnce_all. Qed.
#[local] Hint Resolve writesOnce_getUncommittedChanges : writesOnce.

Lemma writesOnce_hasUncommittedChanges : writesOnce (hasUncommittedChanges env).
Proof. unfold hasUncommittedChanges. writesOnce_all. Qed.

Lemma writesOnce_getTagSeparator : writesOnce getTagSeparator.
Proof. unfold getTagSeparator. writesOnce_all. Qed.

Lemma Extends_perform (c : Call) (st : State) : Extends st (perform env c st).
Proof.
  destruct c; simpl.
  - apply writesOnce_gitPath.
  - apply writesOnce_getGitPathOrThrow.
  - apply writesOnce_isGitPresent.
  - apply writesOnce_isPathUnderGitWorkingTree.
  - apply writesOnce_tryGetGitEmail.
  - apply writesOnce_getGitEmail.
  - apply writesOnce_getHooksFolder.
  - apply writesOnce_isHooksPathDefault.
  - apply writesOnce_getConfigHooksPath.
  - apply writesOnce_getGitInfo.
  - apply writesOnce_getMergeBase.
  - apply writesOnce_getBlobContent.
  - apply writesOnce_getChangedFiles.
  - apply writesOnce_getRemoteDefaultBranch.
  - apply writesOnce_hasUncommittedChanges.
  - apply writesOnce_getUncommittedChanges.
  - apply writesOnce_getTagSeparator.
Qed.

Lemma Extends_performAll (calls : list Call) (st : State) :
  Extends st (performAll env calls st).
Proof.
  unfold performAll. revert st. induction calls as [|c calls IH]; intros st.
  - apply Extends_refl.
  - simpl. exact (Extends_trans _ _ _ (Extends_perform c st) (IH _)).
Qed.

End WithEnv.

Section Answers.
Variable env : Env.

Lemma performAll_app (a b : list Call) (st : State) :
  performAll env (a ++ b) st = performAll env b (performAll env a st).
Proof. unfold performAll. apply fold_left_app. Qed.

Lemma gitPath_checked (st : State) :
  _checkedGitPath (self st) = true ->
  gitPath env st = (Returned (_gitPath (self st)), st).
Proof.
  intros H. rewrite gitPath_run. unfold afterGitPath. now rewrite H.
Qed.

Lemma getGitInfo_checked (st : State) :
  _checkedGitInfo (self st) = true ->
  getGitInfo env st = (Returned (_gitInfo (self st)), st).
Proof. intros H. unfold getGitInfo, bind, getSelf, ret. now rewrite H. Qed.

(** [getGitInfo] returns the field and leaves the flag up. *)
Lemma getGitInfo_raises_flag (st : State) :
  exists st',
    getGitInfo env st = (Returned (_gitInfo (self st')), st') /\
    _checkedGitInfo (self st') = true.
Proof.
  unfold getGitInfo, isPathUnderGitWorkingTreeOf, isGitPresent, bind, getSelf,
    tryCatch, call, ret, modifySelf.
  destruct (_checkedGitInfo (self st)) eqn:Hci; [now exists st|].
  destruct (readGitInfo env (trace st)) as [e|i]; cbn [fst snd];
    [eexists; split; reflexivity|].
  rewrite gitPath_run.
  destruct (truthyOpt (_gitPath (self (afterGitPath env _))));
    [destruct (truthyOpt (sha i))|]; eexists; split; reflexivity.
Qed.

(** What [_tryGetGitEmail] returns is in the slot afterwards. *)
Lemma _tryGetGitEmail_returned (st st1 : State) (r : IResultOrError) :
  _tryGetGitEmail env st = (Returned r, st1) ->
  _gitEmailResult (self st1) = Some r.
Proof.
  unfold _tryGetGitEmail, bind, getSelf, tryCatch, ret, modifySelf.
  destruct (_gitEmailResult (self st)) as [r0|] eqn:Hslot.
  - intros H. injection H as <- <-. exact Hslot.
  - destruct (getGitPathOrThrow env st) as [[gp|e] st0]; [|discriminate].
    destruct (_executeGitCommandAndCaptureOutput env gp _ None st0)
      as [[out|e] st2]; intros H; injection H as <- <-; reflexivity.
Qed.

(** [_tryGetGitEmail] throws when Git is not found only, and the instance
    then knows that it is not. *)
Lemma _tryGetGitEmail_threw (st st1 : State) (e : Exn) :
  _tryGetGitEmail env st = (Threw e, st1) ->
  e = Error "Git is not present" /\
  _checkedGitPath (self st1) = true /\ truthyOpt (_gitPath (self st1)) = false.
Proof.
  unfold _tryGetGitEmail, bind, getSelf, tryCatch, ret, modifySelf.
  destruct (_gitEmailResult (self st)) as [r0|]; [discriminate|].
  unfold getGitPathOrThrow, bind. rewrite gitPath_run.
  pose proof (afterGitPath_checked env st) as Hc.
  destruct (_gitPath (self (afterGitPath env st))) as [p|] eqn:Hp.
  - destruct (truthy p) eqn:Ht.
    + unfold ret.
      destruct (_executeGitCommandAndCaptureOutput env p _ None _)
        as [[out|e'] st2]; discriminate.
    + unfold throw. intros H. injection H as <- <-.
      rewrite Hp. simpl. now rewrite Ht.
  - unfold throw. intros H. injection H as <- <-. now rewrite Hp.
Qed.

(** With the slot filled, [getGitEmail] decides from its content. *)
Lemma getGitEmail_decides (r : IResultOrError) (st : State) :
  fst ((match error r with
        | Some e =>
            consoleLog (gitEmailErrorText env e) ;;
            throw AlreadyReportedError
        | None =>
            match result r with
            | Some v =>
                if truthy v then ret v
                else
                  g <- getSelf ;;
                  consoleLog (gitEmailMissingText env (_rushConfiguration g)) ;;
                  throw AlreadyReportedError
            | None =>
                g <- getSelf ;;
                consoleLog (gitEmailMissingText env (_rushConfiguration g)) ;;
                throw AlreadyReportedError
            end
        end) st)
  = emailOutcome r.
Proof.
  unfold emailOutcome.
  destruct (error r); [reflexivity|].
  destruct (result r) as [v|]; [destruct (truthy v)|]; reflexivity.
Qed.

Lemma getGitEmail_of_slot (st : State) (r : IResultOrError) :
  _gitEmailResult (self st) = Some r ->
  fst (getGitEmail env st) = emailOutcome r.
Proof.
  intros Hslot. unfold getGitEmail. unfold bind at 1.
  assert (H : _tryGetGitEmail env st = (Returned r, st))
    by (unfold _tryGetGitEmail, bind, getSelf; now rewrite Hslot).
  rewrite H. apply getGitEmail_decides.
Qed.

Lemma getGitEmail_without_git (st : State) :
  _gitEmailResult (self st) = None ->
  _checkedGitPath (self st) = true -> truthyOpt (_gitPath (self st)) = false ->
  fst (getGitEmail env st) = Threw (Error "Git is not present").
Proof.
  intros Hslot Hc Hp.
  unfold getGitEmail, _tryGetGitEmail, getGitPathOrThrow, bind, getSelf.
  rewrite Hslot, (gitPath_checked st Hc).
  destruct (_gitPath (self st)) as [p|]; [|reflexivity].
  simpl in Hp. now rewrite Hp.
Qed.

End Answers.

(** X24.  Whatever public members are called, on whatever instance, the
    instance keeps what it has cached: its configuration; the path of Git,
    once looked up; the repository information, once read; and the email
    and hooks slots, once filled. *)
Theorem caches_are_written_once (env : Env) (calls : list Call) (st : State) :
  Extends st (performAll env calls st).
Proof. apply Extends_performAll. Qed.

(** X25.  After a first call, [gitPath] and [getGitInfo] give the answer of
    that call again, whatever public members are called in between and
    whatever the collaborators would answer by then. *)
Theorem lookups_answer_the_same (env : Env) (calls : list Call) (st : State) :
  fst (gitPath env (performAll env calls (snd (gitPath env st))))
  = fst (gitPath env st) /\
  fst (getGitInfo env (performAll env calls (snd (getGitInfo env st))))
  = fst (getGitInfo env st).
Proof.
  split.
  - rewrite (gitPath_run env st). cbn [fst snd].
    destruct (Extends_performAll env calls (afterGitPath env st))
      as [_ P _ _ _].
    destruct (P (afterGitPath_checked env st)) as [Hc Hp].
    now rewrite (gitPath_checked env _ Hc), Hp.
  - destruct (getGitInfo_raises_flag env st) as (st1 & -> & Hflag).
    cbn [fst snd].
    destruct (Extends_performAll env calls st1) as [_ _ I _ _].
    destruct (I Hflag) as [Hc Hi].
    now rewrite (getGitInfo_checked env _ Hc), Hi.
Qed.

(** X26.  After any calls on a new instance, [getGitEmail] ends as it did
    the first time, with the same address or the same error, whatever
    public members are called in between and whatever Git would answer by
    then. *)
Theorem getGitEmail_answers_the_same
        (env : Env) (cfg : RushConfiguration) (before between : list Call) :
  fst (getGitEmail env
         (performAll env between
            (snd (getGitEmail env (performAll env before (initialState cfg))))))
  = fst (getGitEmail env (performAll env before (initialState cfg))).
Proof.
  pose proof (Consistent_performAll env cfg (before ++ CallGetGitEmail :: between))
    as HC.
  rewrite performAll_app in HC.
  change (performAll env (CallGetGitEmail :: between)
            (performAll env before (initialState cfg)))
    with (performAll env between
            (snd (getGitEmail env (performAll env before (initialState cfg)))))
    in HC.
  pose proof (Extends_performAll env between
                (snd (getGitEmail env (performAll env before (initialState cfg)))))
    as Hext.
  set (st := performAll env before (initialState cfg)) in *.
  set (st2 := performAll env between (snd (getGitEmail env st))) in *.
  unfold getGitEmail at 2. unfold bind at 1.
  revert Hext. unfold getGitEmail at 1. unfold bind at 1.
  destruct (_tryGetGitEmail env st) as [[r|e] st1] eqn:Hfirst.
  - pose proof (_tryGetGitEmail_returned env st st1 r Hfirst) as Hslot.
    rewrite getGitEmail_decides.
    match goal with
    | |- Extends (snd (?k st1)) st2 -> _ =>
        assert (Hself : self (snd (k st1)) = self st1)
    end.
    { destruct (error r); [reflexivity|].
      destruct (result r) as [v|]; [destruct (truthy v)|]; reflexivity. }
    intros [_ _ _ E _]. rewrite Hself, Hslot in E.
    specialize (E eq_refl).
    now apply getGitEmail_of_slot.
  - cbn [fst snd]. intros [_ P _ E _].
    destruct (_tryGetGitEmail_threw env st st1 e Hfirst) as (-> & Hc & Hp).
    destruct (P Hc) as [Hc2 Hp2].
    apply getGitEmail_without_git; [|exact Hc2|now rewrite Hp2].
    destruct (_gitEmailResult (self st2)) eqn:Hslot2; [|reflexivity].
    exfalso.
    assert (Hfound : gitFound (self st2))
      by (apply (slotsNeedGit env st2 HC); now rewrite Hslot2).
    destruct Hfound as [_ Hfound]. congruence.
Qed.

(** X27.  After any calls on a new instance, [isPathUnderGitWorkingTree],
    called without an argument, returns true exactly when [getGitInfo],
    called right after it, returns repository information. *)
Theorem isPathUnderGitWorkingTree_agrees_with_getGitInfo
        (env : Env) (cfg : RushConfiguration) (calls : list Call) :
  match isPathUnderGitWorkingTree env None
          (performAll env calls (initialState cfg)) with
  | (Returned under, st') =>
      match fst (getGitInfo env st') with
      | Returned repoInfo => under = isSome repoInfo
      | Threw _ => False
      end
  | (Threw _, _) => False
  end.
Proof.
  pose proof (Consistent_performAll env cfg calls) as HC.
  set (st := performAll env calls (initialState cfg)) in *.
  unfold isPathUnderGitWorkingTree, isGitPresent, bind.
  rewrite gitPath_run. unfold ret at 1.
  pose proof (Consistent_afterGitPath env st HC) as HC1.
  pose proof (afterGitPath_checked env st) as Hchecked.
  set (st1 := afterGitPath env st) in *.
  destruct (truthyOpt (_gitPath (self st1))) eqn:Hpath.
  - destruct (getGitInfo_raises_flag env st1) as (st2 & Hrun & Hflag).
    pose proof (maintains_getGitInfo env st1 HC1) as HC2.
    rewrite Hrun in *. cbn [snd] in HC2. unfold ret.
    rewrite (getGitInfo_checked env st2 Hflag). cbn [fst].
    pose proof (gitInfoNeedsGit env st2 HC2) as Hinfo.
    destruct (_gitInfo (self st2)) as [i|]; [|reflexivity].
    now destruct Hinfo as [-> _].
  - destruct (getGitInfo_raises_flag env st1) as (st2 & Hrun & Hflag).
    pose proof (maintains_getGitInfo env st1 HC1) as HC2.
    pose proof (writesOnce_getGitInfo env st1) as [_ P _ _ _].
    unfold ret. cbv iota. rewrite Hrun in *. cbn [fst snd] in *.
    pose proof (gitInfoNeedsGit env st2 HC2) as Hinfo.
    destruct (_gitInfo (self st2)) as [i|]; [|reflexivity].
    exfalso. destruct Hinfo as [_ [_ Hfound]].
    destruct (P Hchecked) as [_ Hsame]. congruence.
Qed.

End GitStabilityFacts.

(* ================================================================== *)
(** ** What [getGitEmail] returns, and where the cached outcome comes from *)
(* ================================================================== *)

Module GitEmailFacts.
Import JsString GitModel GitSpec GitInvariants GitFacts GitProperties.
Import GitInvariantFacts.
Local Open Scope git_scope.

(** An answer of the query stays in the trace when the trace grows. *)
Lemma emailQueryAnswered_grows
      (env : Env) (st st' : State) (answer : Exn + string) (extra : list Event) :
  emailQueryAnswered env st answer ->
  _rushConfiguration (self st') = _rushConfiguration (self st) ->
  trace st' = trace st ++ extra ->
  emailQueryAnswered env st' answer.
Proof.
  intros (before & gp & after & Htr & Hans) Hcfg Hgrow.
  exists before, gp, (after ++ extra). unfold cwdOf in *.
  rewrite Hcfg, Hgrow, Htr. split; [|exact Hans]. now rewrite <- app_assoc.
Qed.

(** The cache stays justified while the trace grows and the slot and the
    configuration stay. *)
Lemma emailCacheJustified_grows
      (env : Env) (st st' : State) (extra : list Event) :
  emailCacheJustified env st ->
  _rushConfiguration (self st') = _rushConfiguration (self st) ->
  _gitEmailResult (self st') = _gitEmailResult (self st) ->
  trace st' = trace st ++ extra ->
  emailCacheJustified env st'.
Proof.
  unfold emailCacheJustified. intros Hinv Hcfg Hslot Hgrow. rewrite Hslot.
  destruct (_gitEmailResult (self st)) as [r|]; [|exact I].
  destruct Hinv as (answer & Hans & Hr). exists answer. split; [|exact Hr].
  exact (emailQueryAnswered_grows env st st' answer extra Hans Hcfg Hgrow).
Qed.

(** The query that has answered is one of the email probes of the trace. *)
Lemma emailQueryAnswered_counted
      (env : Env) (st : State) (answer : Exn + string) :
  emailQueryAnswered env st answer -> 1 <= countEmailProbes (trace st).
Proof.
  intros (before & gp & after & Htr & _). rewrite Htr.
  rewrite countEmailProbes_app. unfold countEmailProbes at 2.
  cbn [filter isEmailProbe].
  destruct (list_eq_dec string_dec emailArgs emailArgs); [|congruence].
  cbn [List.length]. lia.
Qed.

Section WithEnv.
Variable env : Env.

Lemma justifies_ret {A} (a : A) : justifies env (ret a).
Proof. intros st H. exact H. Qed.

Lemma justifies_throw {A} (e : Exn) : justifies env (@throw A e).
Proof. intros st H. exact H. Qed.

Lemma justifies_getSelf : justifies env getSelf.
Proof. intros st H. exact H. Qed.

Lemma justifies_bind {A B} (m : M A) (k : A -> M B) :
  justifies env m -> (forall a, justifies env (k a)) -> justifies env (bind m k).
Proof.
  intros Hm Hk st H. unfold bind. specialize (Hm st H).
  destruct (m st) as [[a|e] st1]; cbn [snd] in *; [|exact Hm].
  exact (Hk a st1 Hm).
Qed.

Lemma justifies_tryCatch {A} (m : M A) (handler : Exn -> M A) :
  justifies env m -> (forall e, justifies env (handler e)) ->
  justifies env (tryCatch m handler).
Proof.
  intros Hm Hh st H. unfold tryCatch. specialize (Hm st H).
  destruct (m st) as [[a|e] st1]; cbn [snd] in *; [exact Hm|].
  exact (Hh e st1 Hm).
Qed.

Lemma justifies_emit (ev : Event) : justifies env (emit ev).
Proof.
  intros st H. now apply (emailCacheJustified_grows env st _ [ev]).
Qed.

Lemma justifies_consoleLog (text : string) : justifies env (consoleLog text).
Proof. apply justifies_emit. Qed.

Lemma justifies_call {A} (ev : Event) (answer : list Event -> Exn + A) :
  justifies env (call ev answer).
Proof.
  intros st H. unfold call.
  destruct (answer (trace st));
    now apply (emailCacheJustified_grows env st _ [ev]).
Qed.

(** An assignment to a field other than the email slot. *)
Lemma justifies_modifySelf (f : Git -> Git) :
  (forall g, _rushConfiguration (f g) = _rushConfiguration g /\
             _gitEmailResult (f g) = _gitEmailResult g) ->
  justifies env (modifySelf f).
Proof.
  intros Hf st H. destruct (Hf (self st)) as [Hcfg Hslot].
  apply (emailCacheJustified_grows env st _ []); auto.
  simpl. now rewrite app_nil_r.
Qed.

Create HintDb justifies.

#[local] Hint Resolve justifies_ret justifies_throw justifies_getSelf
  justifies_consoleLog justifies_call justifies_emit : justifies.

(** One step of the proof that a method keeps the email cache justified:
    the rule of the construct at the head of the method. *)
Ltac justifies_step :=
  match goal with
  | |- justifies _ (bind _ _) => apply justifies_bind; [|intros ?]
  | |- justifies _ (tryCatch _ _) => apply justifies_tryCatch; [|intros ?]
  | |- justifies _ (modifySelf _) =>
      apply justifies_modifySelf; intros ?; split; reflexivity
  | |- justifies _ (if ?b then _ else _) => destruct b
  | |- justifies _ (match ?x with _ => _ end) => destruct x
  | |- justifies _ _ => solve [eauto with justifies]
  | |- justifies _ _ => progress cbv zeta
  end.

Ltac justifies_all := repeat justifies_step.

Lemma justifies_gitPath : justifies env (gitPath env).
Proof. unfold gitPath. justifies_all. Qed.
#[local] Hint Resolve justifies_gitPath : justifies.

Lemma justifies_getGitPathOrThrow : justifies env (getGitPathOrThrow env).
Proof. unfold getGitPathOrThrow. justifies_all. Qed.
#[local] Hint Resolve justifies_getGitPathOrThrow : justifies.

Lemma justifies_isGitPresent : justifies env (isGitPresent env).
Proof. unfold isGitPresent. justifies_all. Qed.
#[local] Hint Resolve justifies_isGitPresent : justifies.

Lemma justifies_isPathUnderGitWorkingTreeOf (i : GitRepoInfo) :
  justifies env (isPathUnderGitWorkingTreeOf env i).
Proof. unfold isPathUnderGitWorkingTreeOf. justifies_all. Qed.
#[local] Hint Resolve justifies_isPathUnderGitWorkingTreeOf : justifies.

Lemma justifies_getGitInfo : justifies env (getGitInfo env).
Proof. unfold getGitInfo. justifies_all. Qed.
#[local] Hint Resolve justifies_getGitInfo : justifies.

Lemma justifies_execute (gp : string) (args : list string) (cwd : option string) :
  justifies env (_executeGitCommandAndCaptureOutput env gp args cwd).
Proof. unfold _executeGitCommandAndCaptureOutput. justifies_all. Qed.
#[local] Hint Resolve justifies_execute : justifies.

(** With the email slot filled, the slot is what is returned. *)
Lemma _tryGetGitEmail_cached (st : State) (r : IResultOrError) :
  _gitEmailResult (self st) = Some r ->
  _tryGetGitEmail env st = (Returned r, st).
Proof.
  intros Hslot. unfold _tryGetGitEmail, bind, getSelf, ret. now rewrite Hslot.
Qed.

(** With the email slot empty and Git not found, the error of
    [getGitPathOrThrow] goes through. *)
Lemma _tryGetGitEmail_absent (st st1 : State) (e : Exn) :
  _gitEmailResult (self st) = None ->
  getGitPathOrThrow env st = (Threw e, st1) ->
  _tryGetGitEmail env st = (Threw e, st1).
Proof.
  intros Hslot Hgit. unfold _tryGetGitEmail, bind, getSelf.
  now rewrite Hslot, Hgit.
Qed.

(** With the email slot empty and Git found, the query runs and its outcome
    is stored and returned. *)
Lemma _tryGetGitEmail_queried (st st1 : State) (gp : string) :
  _gitEmailResult (self st) = None ->
  getGitPathOrThrow env st = (Returned gp, st1) ->
  _tryGetGitEmail env st
  = (Returned (slotOfOutcome
                 (commandOutcome env (trace st1) gp emailArgs (cwdOf st1))),
     afterEmailQuery env st1 gp).
Proof.
  intros Hslot Hgit.
  unfold _tryGetGitEmail, bind, getSelf, tryCatch, ret, modifySelf.
  rewrite Hslot, Hgit. fold emailArgs.
  unfold afterEmailQuery, commandOutcome, commandEvents.
  destruct (executeCommandAndCaptureOutput env (trace st1) gp emailArgs (cwdOf st1))
    as [e|output] eqn:Hexec.
  - now rewrite (execute_threw env st1 gp emailArgs e Hexec).
  - now rewrite (execute_returned env st1 gp emailArgs output Hexec).
Qed.

(** The state that the query leaves has a justified cache. *)
Lemma afterEmailQuery_justified (st : State) (gp : string) :
  emailCacheJustified env (afterEmailQuery env st gp).
Proof.
  unfold emailCacheJustified, afterEmailQuery.
  cbn [self _gitEmailResult set_gitEmailResult].
  exists (commandOutcome env (trace st) gp emailArgs (cwdOf st)).
  split; [|reflexivity].
  exists (trace st), gp.
  unfold commandEvents, cwdOf. cbn [self trace _rushConfiguration set_gitEmailResult].
  fold (cwdOf st).
  destruct (executeCommandAndCaptureOutput env (trace st) gp emailArgs (cwdOf st));
    eexists; split; reflexivity.
Qed.

Lemma justifies__tryGetGitEmail : justifies env (_tryGetGitEmail env).
Proof.
  intros st Hinv.
  destruct (_gitEmailResult (self st)) as [r|] eqn:Hslot.
  - now rewrite (_tryGetGitEmail_cached st r Hslot).
  - pose proof (justifies_getGitPathOrThrow st Hinv) as Hpath.
    destruct (getGitPathOrThrow env st) as [[gp|e] st1] eqn:Hgit.
    + rewrite (_tryGetGitEmail_queried st st1 gp Hslot Hgit).
      apply afterEmailQuery_justified.
    + now rewrite (_tryGetGitEmail_absent st st1 e Hslot Hgit).
Qed.
#[local] Hint Resolve justifies__tryGetGitEmail : justifies.

Lemma justifies__tryGetGitHooksPath : justifies env (_tryGetGitHooksPath env).
Proof. unfold _tryGetGitHooksPath. justifies_all. Qed.
#[local] Hint Resolve justifies__tryGetGitHooksPath : justifies.

Lemma justifies_isPathUnderGitWorkingTree (repoInfo : option GitRepoInfo) :
  justifies env (isPathUnderGitWorkingTree env repoInfo).
Proof. unfold isPathUnderGitWorkingTree. justifies_all. Qed.

Lemma justifies_tryGetGitEmail : justifies env (tryGetGitEmail env).
Proof. unfold tryGetGitEmail. justifies_all. Qed.

Lemma justifies_getGitEmail : justifies env (getGitEmail env).
Proof. unfold getGitEmail. justifies_all. Qed.

Lemma justifies_getHooksFolder : justifies env (getHooksFolder env).
Proof. unfold getHooksFolder. justifies_all. Qed.

Lemma justifies_isHooksPathDefaultIn (i : GitRepoInfo) (d : string) :
  justifies env (isHooksPathDefaultIn env i d).
Proof. unfold isHooksPathDefaultIn. justifies_all. Qed.
#[local] Hint Resolve justifies_isHooksPathDefaultIn : justifies.

Lemma justifies_isHooksPathDefault : justifies env (isHooksPathDefault env).
Proof. unfold isHooksPathDefault. justifies_all. Qed.

Lemma justifies_getConfigHooksPath : justifies env (getConfigHooksPath env).
Proof. unfold getConfigHooksPath. justifies_all. Qed.

Lemma justifies__tryFetchRemoteBranch (name : string) :
  justifies env (_tryFetchRemoteBranch env name).
Proof. unfold _tryFetchRemoteBranch. justifies_all. Qed.
#[local] Hint Resolve justifies__tryFetchRemoteBranch : justifies.

Lemma justifies__fetchRemoteBranch (name : string) :
  justifies env (_fetchRemoteBranch env name).
Proof. unfold _fetchRemoteBranch. justifies_all. Qed.
#[local] Hint Resolve justifies__fetchRemoteBranch : justifies.

Lemma justifies_getMergeBase (targetBranch : string) (shouldFetch : bool) :
  justifies env (getMergeBase env targetBranch shouldFetch).
Proof. unfold getMergeBase. justifies_all. Qed.

Lemma justifies_getBlobContent (blobSpec repositoryRoot : string) :
  justifies env (getBlobContent env blobSpec repositoryRoot).
Proof. unfold getBlobContent. justifies_all. Qed.

Lemma justifies_getChangedFiles (targetBranch : string) (skipFetch : bool)
      (pathPrefix : option string) :
  justifies env (getChangedFiles env targetBranch skipFetch pathPrefix).
Proof. unfold getChangedFiles. justifies_all. Qed.

Lemma justifies_filterM {A} (f : A -> M bool) (l : list A) :
  (forall x, justifies env (f x)) -> justifies env (filterM f l).
Proof.
  intros Hf. induction l as [|x l IH]; simpl; [apply justifies_ret|].
  apply justifies_bind; [apply Hf|]. intros keep.
  apply justifies_bind; [exact IH|]. intros kept. apply justifies_ret.
Qed.

Lemma justifies_orThrowURIError {A} (normalized : option A) :
  justifies env (orThrowURIError normalized).
Proof. unfold orThrowURIError. justifies_all. Qed.
#[local] Hint Resolve justifies_orThrowURIError : justifies.

Lemma justifies_isMatchingRemote (gp : string) (normalized : list (list N))
      (remoteName : string) :
  justifies env (isMatchingRemote env gp normalized remoteName).
Proof. unfold isMatchingRemote. justifies_all. Qed.

Lemma justifies_getRemoteDefaultBranch : justifies env (getRemoteDefaultBranch env).
Proof.
  unfold getRemoteDefaultBranch.
  apply justifies_bind; [apply justifies_getSelf|]. intros g. cbv zeta.
  destruct (Nat.ltb 0 (List.length (repositoryUrls (_rushConfiguration g))));
    [|justifies_all].
  apply justifies_bind; [auto with justifies|]. intros gp.
  apply justifies_bind; [auto with justifies|]. intros rawOutput.
  apply justifies_bind; [auto with justifies|]. intros normalized.
  apply justifies_bind.
  - apply justifies_filterM. intros remoteName. apply justifies_isMatchingRemote.
  - intros matchingRemotes. justifies_all.
Qed.

Lemma justifies__getUntrackedChanges : justifies env (_getUntrackedChanges env).
Proof. unfold _getUntrackedChanges. justifies_all. Qed.
#[local] Hint Resolve justifies__getUntrackedChanges : justifies.

Lemma justifies__getDiffOnHEAD : justifies env (_getDiffOnHEAD env).
Proof. unfold _getDiffOnHEAD. justifies_all. Qed.
#[local] Hint Resolve justifies__getDiffOnHEAD : justifies.

Lemma justifies_getUncommittedChanges : justifies env (getUncommittedChanges env).
Proof. unfold getUncommittedChanges. justifies_all. Qed.
#[local] Hint Resolve justifies_getUncommittedChanges : justifies.

Lemma justifies_hasUncommittedChanges : justifies env (hasUncommittedChanges env).
Proof. unfold hasUncommittedChanges. justifies_all. Qed.

Lemma justifies_getTagSeparator : justifies env getTagSeparator.
Proof. unfold getTagSeparator. justifies_all. Qed.

(** Every public member keeps the email cache justified. *)
Lemma justified_perform (c : Call) (st : State) :
  emailCacheJustified env st -> emailCacheJustified env (perform env c st).
Proof.
  intros H. destruct c; simpl.
  - now apply justifies_gitPath.
  - now apply justifies_getGitPathOrThrow.
  - now apply justifies_isGitPresent.
  - now apply justifies_isPathUnderGitWorkingTree.
  - now apply justifies_tryGetGitEmail.
  - now apply justifies_getGitEmail.
  - now apply justifies_getHooksFolder.
  - now apply justifies_isHooksPathDefault.
  - now apply justifies_getConfigHooksPath.
  - now apply justifies_getGitInfo.
  - now apply justifies_getMergeBase.
  - now apply justifies_getBlobContent.
  - now apply justifies_getChangedFiles.
  - now apply justifies_getRemoteDefaultBranch.
  - now apply justifies_hasUncommittedChanges.
  - now apply justifies_getUncommittedChanges.
  - now apply justifies_getTagSeparator.
Qed.

(** Whatever public members are called on a new instance, the cached email
    outcome, when there is one, is what the query gave. *)
Lemma justified_performAll (cfg : RushConfiguration) (calls : list Call) :
  emailCacheJustified env (performAll env calls (initialState cfg)).
Proof.
  unfold performAll.
  assert (H : emailCacheJustified env (initialState cfg)) by exact I.
  revert H. generalize (initialState cfg).
  induction calls as [|c calls IH]; intros st H; [exact H|].
  simpl. apply IH. now apply justified_perform.
Qed.

(** [getGitEmail] reports on what [_tryGetGitEmail] returns. *)
Lemma getGitEmail_reports (st st2 : State) (r : IResultOrError) :
  _tryGetGitEmail env st = (Returned r, st2) ->
  getGitEmail env st = (emailOutcome r, afterEmailReport env st2 r).
Proof.
  intros Hrun. unfold getGitEmail, bind at 1. rewrite Hrun.
  unfold emailOutcome, afterEmailReport, emailReport.
  destruct (error r) as [e|]; [reflexivity|].
  destruct (result r) as [address|]; [|reflexivity].
  destruct (truthy address); [|reflexivity].
  unfold ret. now rewrite app_nil_r, state_eta.
Qed.

(** What [getGitEmail] does from a state whose email slot is filled, with a
    justified content. *)
Lemma getGitEmail_reports_answer (st2 : State) (r : IResultOrError) :
  _gitEmailResult (self st2) = Some r ->
  emailCacheJustified env st2 ->
  _gitEmailResult (self (afterEmailReport env st2 r)) = Some r /\
  exists answer,
    emailQueryAnswered env (afterEmailReport env st2 r) answer /\
    r = slotOfOutcome answer /\
    match answer with
    | inr output =>
        if truthy (trim output)
        then emailOutcome r = Returned (trim output)
        else emailOutcome r = Threw AlreadyReportedError /\
             exists before,
               trace (afterEmailReport env st2 r)
               = before ++ [ConsoleLog
                              (gitEmailMissingText env
                                 (_rushConfiguration
                                    (self (afterEmailReport env st2 r))))]
    | inl e =>
        emailOutcome r = Threw AlreadyReportedError /\
        exists before,
          trace (afterEmailReport env st2 r)
          = before ++ [ConsoleLog (gitEmailErrorText env e)]
    end.
Proof.
  intros Hslot Hinv. split; [exact Hslot|].
  unfold emailCacheJustified in Hinv. rewrite Hslot in Hinv.
  destruct Hinv as (answer & Hans & Hr). exists answer.
  split.
  { now apply (emailQueryAnswered_grows env st2 _ answer
                 (emailReport env (_rushConfiguration (self st2)) r)). }
  split; [exact Hr|].
  subst r. unfold emailOutcome, afterEmailReport, emailReport.
  destruct answer as [e|output]; cbn [slotOfOutcome error result trace self].
  - split; [reflexivity|]. now exists (trace st2).
  - destruct (truthy (trim output)); [reflexivity|].
    split; [reflexivity|]. now exists (trace st2).
Qed.

End WithEnv.


(** With a Git that is not found, [getGitEmail] on a new instance throws
    [Git is not present], and the slot stays empty. *)
Example getGitEmail_on_machine_without_git :
  getGitEmail noGitEnv freshState
  = (Threw (Error "Git is not present"),
     snd (getGitPathOrThrow noGitEnv freshState)) /\
  _gitEmailResult (self (snd (getGitEmail noGitEnv freshState))) = None.
Proof. vm_compute. split; reflexivity. Qed.

End GitEmailFacts.
